(** * Conv3: operating-envelope constraints of a conversion technology

    A shallow embedding of [src/components/technologies/genericTechnologies/conv3.py]
    (class [Conv3]).  The Python class builds a Pyomo block: indexed
    constraints, disjuncts and disjunctions over the decision variables
    [var_size], [input[t,car]], [output[t,car]], [var_x[t]], [var_y[t]],
    [var_z[t]].  Here a block is a record of lists, a constraint is a
    relation between two expression trees, Python floats are exact rationals
    ([Q]; the one place where the class computes with floats before it hands
    them to Pyomo, the trajectories of type 4, is also given in binary64, see
    [trajectory_binary64]), Python exceptions are the [Err] results of a small error monad,
    and a solution of a block is a valuation of the variables under which
    every plain constraint holds and, in every disjunction, the constraints
    of at least one disjunct hold.

    Not modelled: the [warn] calls (they leave the block unchanged), the
    bounds of the variables (computed by the fitting classes), and the check
    Pyomo makes that an index belongs to the index set of its variable.
    The class reads [var_size], [input] and [output] without a test, and
    they are taken to be on every block it is given; it tests for [var_x]
    with [find_component], so [var_x], [var_y] and [var_z] are on a block
    only when the block lists them, and reading one that is missing raises
    [AttributeError]. *)

From Stdlib Require Import ZArith QArith Qabs List Sorted Permutation String
  Bool Lia Lqa.
From Stdlib Require Floats.SpecFloat.
Import ListNotations.
Open Scope string_scope.
Open Scope list_scope.
Open Scope Z_scope.

(** ** Exceptions and the error monad *)

Inductive exn : Type :=
| Exception (msg : string)
| KeyError (key : string)
| IndexError
| TypeError
| NameError (name : string)
| AttributeError (name : string)
| ZeroDivisionError.

Inductive result (A : Type) : Type :=
| Ok (a : A)
| Err (e : exn).
Arguments Ok {A} a.
Arguments Err {A} e.

Definition bind {A B : Type} (m : result A) (k : A -> result B) : result B :=
  match m with
  | Ok a => k a
  | Err e => Err e
  end.

Notation "x <- m ;; k" := (bind m (fun x => k))
  (at level 61, m at next level, right associativity).

Fixpoint mapM {A B : Type} (f : A -> result B) (l : list A) : result (list B) :=
  match l with
  | [] => Ok []
  | a :: l' => b <- f a ;; bs <- mapM f l' ;; Ok (b :: bs)
  end.

(** ** Python values used by the class *)

Definition carrier := string.

(** [range(a, b)] *)
Definition range (a b : Z) : list Z :=
  map (fun k => a + Z.of_nat k) (seq 0 (Z.to_nat (b - a))).

(** [len(l)] *)
Definition len {A : Type} (l : list A) : Z := Z.of_nat (List.length l).

(** [l[i]] on a list: negative indices count from the end, anything out of
    range raises [IndexError]. *)
Definition py_index {A : Type} (l : list A) (i : Z) : result A :=
  let j := if i <? 0 then len l + i else i in
  if j <? 0 then Err IndexError
  else match nth_error l (Z.to_nat j) with
       | Some a => Ok a
       | None => Err IndexError
       end.

(** [d[k]] on a dict with string keys, kept as an association list in
    insertion order. *)
Fixpoint py_get {A : Type} (d : list (string * A)) (k : string) : result A :=
  match d with
  | [] => Err (KeyError k)
  | (k', a) :: d' => if String.eqb k k' then Ok a else py_get d' k
  end.

(** [d[k] = v] on such a dict. *)
Fixpoint py_set {A : Type} (d : list (string * A)) (k : string) (v : A)
  : list (string * A) :=
  match d with
  | [] => [(k, v)]
  | (k', a) :: d' =>
      if String.eqb k k' then (k, v) :: d' else (k', a) :: py_set d' k v
  end.

(** [sorted(l, reverse=True)] on floats: a stable sort into decreasing
    order. *)
Fixpoint insert_desc (x : Q) (l : list Q) : list Q :=
  match l with
  | [] => [x]
  | y :: l' => if Qle_bool y x then x :: l else y :: insert_desc x l'
  end.

Definition sorted_reverse (l : list Q) : list Q :=
  fold_right insert_desc [] l.

(** ** Pyomo expressions, constraints and blocks *)

Inductive var : Type :=
| var_size
| input (t : Z) (car : carrier)
| output (t : Z) (car : carrier)
| var_x (t : Z)
| var_y (t : Z)
| var_z (t : Z)
| var_input_rr_full (t : Z) (car : carrier).

Inductive expr : Type :=
| Num (q : Q)
| Var (v : var)
| Neg (a : expr)
| Add (a b : expr)
| Sub (a b : expr)
| Mul (a b : expr)
| Div (a b : expr).

Inductive rel : Type :=
| EqC (a b : expr)      (* a == b *)
| LeC (a b : expr)      (* a <= b *)
| GeC (a b : expr).     (* a >= b *)

Inductive cidx : Type :=
| NoIndex
| AtT (t : Z)
| AtCar (car : carrier)
| AtTCar (t : Z) (car : carrier)
| AtInt (i : Z).

(** One member of a constraint component: its component name, its index in
    the component and the relation it states. *)
Record Constraint : Type := mkConstraint {
  cname : string;
  cindex : cidx;
  cbody : rel
}.

(** A disjunct [name[t, ind]] with the constraints its rule attached. *)
Record Disjunct : Type := mkDisjunct {
  dis_name : string;
  dis_t : Z;
  dis_ind : Z;
  dis_constraints : list Constraint
}.

(** A disjunction [name[t]] over the disjuncts its rule returned. *)
Record Disjunction : Type := mkDisjunction {
  disjunction_name : string;
  disjunction_t : Z;
  disjuncts : list Disjunct
}.

(** A variable component declared on the block:
    [pyo.Var(index sets, domain=NonNegativeReals, bounds=(lo, hi))]. *)
Record VarDecl : Type := mkVarDecl {
  vname : string;
  v_set_t : list Z;
  v_nonnegative : bool;
  v_bounds : option (Q * Q)
}.

Record Block : Type := mkBlock {
  set_input_carriers : list carrier;
  set_output_carriers : list carrier;
  variables : list VarDecl;
  constraints : list Constraint;
  disjunctions : list Disjunction
}.

Definition find_component (b : Block) (name : string) : bool :=
  existsb (fun v => String.eqb (vname v) name) (variables b).

(** [b_tec.<name>], read in a rule: a component the block does not have
    raises [AttributeError]. *)
Definition attribute (b : Block) (name : string) : result unit :=
  if find_component b name then Ok tt else Err (AttributeError name).

Definition add_variable (b : Block) (v : VarDecl) : Block :=
  mkBlock (set_input_carriers b) (set_output_carriers b)
          (variables b ++ [v]) (constraints b) (disjunctions b).

Definition add_constraints (b : Block) (cs : list Constraint) : Block :=
  mkBlock (set_input_carriers b) (set_output_carriers b)
          (variables b) (constraints b ++ cs) (disjunctions b).

Definition add_disjunctions (b : Block) (ds : list Disjunction) : Block :=
  mkBlock (set_input_carriers b) (set_output_carriers b)
          (variables b) (constraints b) (disjunctions b ++ ds).

(** [pyo.Constraint(index set, rule=rule)]: the rule is called on every
    index and returns a relation or [Constraint.Skip] ([None]). *)
Fixpoint build_constraint {I : Type} (name : string) (mk : I -> cidx)
    (rule : I -> result (option rel)) (idx : list I)
  : result (list Constraint) :=
  match idx with
  | [] => Ok []
  | i :: idx' =>
      r <- rule i ;;
      cs <- build_constraint name mk rule idx' ;;
      Ok (match r with
          | Some c => mkConstraint name (mk i) c :: cs
          | None => cs
          end)
  end.

(** The product of two index sets, as Pyomo enumerates it. *)
Definition cross {A B : Type} (la : list A) (lb : list B) : list (A * B) :=
  flat_map (fun a => map (fun b => (a, b)) lb) la.

(** [gdp.Disjunct(set_t, s_indicators, rule)] followed by
    [gdp.Disjunction(set_t, rule=bind)], where [bind] lists the disjuncts
    [dis[t, i]] for [i] in [s_indicators]. *)
Definition build_disjunction (dname disjunction : string)
    (rule : Z -> Z -> result (list Constraint))
    (set_t s_indicators : list Z) : result (list Disjunction) :=
  mapM (fun t =>
          ds <- mapM (fun ind => cs <- rule t ind ;;
                                 Ok (mkDisjunct dname t ind cs)) s_indicators ;;
          Ok (mkDisjunction disjunction t ds)) set_t.

(** ** Solutions *)

Definition valuation := var -> Q.

Fixpoint eval (rho : valuation) (e : expr) : Q :=
  match e with
  | Num q => q
  | Var v => rho v
  | Neg a => - eval rho a
  | Add a b => eval rho a + eval rho b
  | Sub a b => eval rho a - eval rho b
  | Mul a b => eval rho a * eval rho b
  | Div a b => eval rho a / eval rho b
  end.

Definition holds (rho : valuation) (r : rel) : bool :=
  match r with
  | EqC a b => Qeq_bool (eval rho a) (eval rho b)
  | LeC a b => Qle_bool (eval rho a) (eval rho b)
  | GeC a b => Qle_bool (eval rho b) (eval rho a)
  end.

Definition sat_constraints (rho : valuation) (cs : list Constraint) : bool :=
  forallb (fun c => holds rho (cbody c)) cs.

Definition sat_disjunct (rho : valuation) (d : Disjunct) : bool :=
  sat_constraints rho (dis_constraints d).

Definition sat_disjunction (rho : valuation) (d : Disjunction) : bool :=
  existsb (sat_disjunct rho) (disjuncts d).

Definition feasible (rho : valuation) (b : Block) : bool :=
  sat_constraints rho (constraints b)
  && forallb (sat_disjunction rho) (disjunctions b).

(** ** The technology object

    [Conv3] derives from [Technology], whose source is not part of this
    class file.  The state a [super()] call leaves behind is an argument of
    the method modelled here; the fields below are the ones [Conv3] reads or
    writes. *)

Record ComponentOptions : Type := mkComponentOptions {
  performance_function_type : Z;
  emissions_based_on : string;
  size_based_on : string;
  main_input_carrier : carrier;
  (** [None] stands for the value [-1]. *)
  standby_power_carrier : option carrier
}.

(** A fitted coefficient: a float for function types 1 and 2, a sequence of
    floats (one per segment or breakpoint) for types 3 and 4. *)
Inductive coeff : Type :=
| Scalar (q : Q)
| Sequence (l : list Q).

(** [processed_coeff.time_independent["fit"]]: carrier -> key -> value, the
    keys being ["alpha1"], ["alpha2"] and ["bp_x"]. *)
Definition fit_dict := list (carrier * list (string * coeff)).

Record TimeIndependent : Type := mkTimeIndependent {
  fit : option fit_dict;                 (* absent before fitting *)
  phi : option (list (carrier * Q));     (* absent before fitting *)
  min_part_load : Q;
  standby_power : Q
}.

(** [processed_coeff.dynamics]; [None] is a key that is not in the dict. *)
Record Dynamics : Type := mkDynamics {
  ramping_time : option Q;
  ref_size : option Q;
  ramping_const_int : option Z;
  SU_time : option Z;
  SD_time : option Z
}.

Record Technology : Type := mkTechnology {
  name : string;
  component_options : ComponentOptions;
  rated_power : Q;                       (* input_parameters.rated_power *)
  input_ratios : list (carrier * Q);     (* performance_data["input_ratios"] *)
  time_independent : TimeIndependent;
  dynamics : Dynamics;
  set_t_performance : list Z;
  set_t_full : list Z;
  sequence : list Z
}.

(** The fitting classes are imported from another file; only which one the
    constructor picks is modelled. *)
Inductive FittingClass : Type :=
| FitGenericTecTypeType1 (o : ComponentOptions)
| FitGenericTecTypeType2 (o : ComponentOptions)
| FitGenericTecTypeType34 (o : ComponentOptions).

Record Conv3 : Type := mkConv3 {
  base : Technology;
  fitting_class : FittingClass
}.

(** The part of [tec_data] the constructor reads itself: the string-valued
    entries of [tec_data["Performance"]]. *)
Record TecData : Type := mkTecData {
  Performance : list (string * string)
}.

(** The part of [data] the ramping constraints read. *)
Record Data : Type := mkData {
  typicaldays_N : Z;
  typicaldays_method : Z;
  k_means_sequence : list Z
}.

Definition set_component_options (T : Technology) (o : ComponentOptions)
  : Technology :=
  mkTechnology (name T) o (rated_power T) (input_ratios T)
               (time_independent T) (dynamics T) (set_t_performance T)
               (set_t_full T) (sequence T).

Definition set_time_independent (T : Technology) (ti : TimeIndependent)
  : Technology :=
  mkTechnology (name T) (component_options T) (rated_power T) (input_ratios T)
               ti (dynamics T) (set_t_performance T) (set_t_full T)
               (sequence T).

(** ** [Conv3.__init__]

    [super_init] is the object as [super().__init__(tec_data)] left it. *)
Definition __init__ (super_init : Technology) (tec_data : TecData)
  : result Conv3 :=
  let o := component_options super_init in
  let o := mkComponentOptions (performance_function_type o) "input"
             (size_based_on o) (main_input_carrier o)
             (standby_power_carrier o) in
  let o := mkComponentOptions (performance_function_type o)
             (emissions_based_on o) "input" (main_input_carrier o)
             (standby_power_carrier o) in
  main <- py_get (Performance tec_data) "main_input_carrier" ;;
  let o := mkComponentOptions (performance_function_type o)
             (emissions_based_on o) (size_based_on o) main
             (standby_power_carrier o) in
  let self := set_component_options super_init o in
  (* Initialize fitting class *)
  if performance_function_type o =? 1 then
    Ok (mkConv3 self (FitGenericTecTypeType1 o))
  else if performance_function_type o =? 2 then
    Ok (mkConv3 self (FitGenericTecTypeType2 o))
  else if (performance_function_type o =? 3)
          || (performance_function_type o =? 4) then
    Ok (mkConv3 self (FitGenericTecTypeType34 o))
  else
    Err (Exception
           "performance_function_type must be an integer between 1 and 4").

(** ** [Conv3.fit_technology_performance]

    [super_fit] is the object as the base class's method left it;
    [fit_performance_function] is the imported method of the fitting class,
    applied to [performance_data["performance"]]. *)
Section fit_technology_performance.
Variable fit_performance_function : FittingClass -> result fit_dict.

Definition fit_technology_performance (super_fit : Conv3) : result Conv3 :=
  let self := super_fit in
  if String.eqb (size_based_on (component_options (base self))) "output" then
    Err (Exception "size_based_on == output for CONV3 not possible.")
  else
    (* fit coefficients *)
    f <- fit_performance_function (fitting_class self) ;;
    let ti := time_independent (base self) in
    let ti := mkTimeIndependent (Some f) (phi ti) (min_part_load ti)
                                (standby_power ti) in
    let phi' := fold_left (fun acc car => py_set acc (fst car) (snd car))
                          (input_ratios (base self)) [] in
    let ti := mkTimeIndependent (fit ti) (Some phi') (min_part_load ti)
                                (standby_power ti) in
    Ok (mkConv3 (set_time_independent (base self) ti) (fitting_class self)).
End fit_technology_performance.

(** ** Shorthands for what the rules read from [self] *)

Definition options (self : Conv3) : ComponentOptions :=
  component_options (base self).

Definition main_carrier (self : Conv3) : carrier :=
  main_input_carrier (options self).

Definition coeff_ti (self : Conv3) : TimeIndependent :=
  time_independent (base self).

Definition get_fit (self : Conv3) : result fit_dict :=
  match fit (coeff_ti self) with
  | Some f => Ok f
  | None => Err (KeyError "fit")
  end.

Definition get_phi (self : Conv3) : result (list (carrier * Q)) :=
  match phi (coeff_ti self) with
  | Some f => Ok f
  | None => Err (KeyError "phi")
  end.

(** [car_standby_power], as every method computes it. *)
Definition standby_carrier (self : Conv3) : carrier :=
  match standby_power_carrier (options self) with
  | None => main_carrier self
  | Some car => car
  end.

(** [c * e] for a fitted coefficient [c] and a Pyomo expression [e]. *)
Definition times (c : coeff) (e : expr) : result expr :=
  match c with
  | Scalar q => Ok (Mul (Num q) e)
  | Sequence _ => Err TypeError
  end.

(** [c[i]] for a fitted coefficient. *)
Definition item (c : coeff) (i : Z) : result Q :=
  match c with
  | Scalar _ => Err TypeError
  | Sequence l => py_index l i
  end.

(** [len(c)] for a fitted coefficient. *)
Definition coeff_len (c : coeff) : result Z :=
  match c with
  | Scalar _ => Err TypeError
  | Sequence l => Ok (len l)
  end.

(** [x * b_tec.var_size * rated_power] *)
Definition scaled_size (self : Conv3) (x : Q) : expr :=
  Mul (Mul (Num x) (Var var_size)) (Num (rated_power (base self))).

(** The loop [for car in coeff_ti["fit"]: alpha1[car] = ...] of type 1,
    for the key [k]. *)
Definition collect (f : fit_dict) (k : string) : result (list (carrier * coeff)) :=
  fold_left (fun acc entry =>
               d <- acc ;;
               v <- py_get (snd entry) k ;;
               Ok (py_set d (fst entry) v))
            f (Ok []).

(** The loop of type 2, which reads [alpha1] and then [alpha2] of every
    carrier in turn. *)
Definition collect_alpha (f : fit_dict)
  : result (list (carrier * coeff) * list (carrier * coeff)) :=
  fold_left (fun acc entry =>
               d <- acc ;;
               a1 <- py_get (snd entry) "alpha1" ;;
               a2 <- py_get (snd entry) "alpha2" ;;
               Ok (py_set (fst d) (fst entry) a1,
                   py_set (snd d) (fst entry) a2))
            f (Ok ([], [])).

(** The loop of types 3 and 4, which reads [bp_x], [alpha1] and [alpha2] of
    every carrier in turn; [bp_x] is a plain name, bound to the breakpoints
    of the last carrier, or unbound when the dict is empty. *)
Definition collect_piecewise (f : fit_dict)
  : result (option coeff * (list (carrier * coeff) * list (carrier * coeff))) :=
  fold_left (fun acc entry =>
               d <- acc ;;
               bp <- py_get (snd entry) "bp_x" ;;
               a1 <- py_get (snd entry) "alpha1" ;;
               a2 <- py_get (snd entry) "alpha2" ;;
               Ok (Some bp, (py_set (fst (snd d)) (fst entry) a1,
                             py_set (snd (snd d)) (fst entry) a2)))
            f (Ok (None, ([], []))).

(** The variable [var_x] a performance function declares when the block
    has none. *)
Definition declare_var_x (self : Conv3) (b_tec : Block) : Block :=
  if find_component b_tec "var_x" then b_tec
  else add_variable b_tec
         (mkVarDecl "var_x" (set_t_performance (base self)) true
                    (Some (0 # 1, 1 # 1)%Q)).

Definition x_off (t : Z) : Constraint :=
  mkConstraint "const_x_off" NoIndex (EqC (Var (var_x t)) (Num 0)).

Definition x_on (t : Z) : Constraint :=
  mkConstraint "const_x_on" NoIndex (EqC (Var (var_x t)) (Num 1)).

(** ** [_performance_function_type_1]: linear, through origin *)

Module T1.
Section rules.
Variables (self : Conv3) (alpha1 : list (carrier * coeff)).

Definition init_input_output (i : Z * carrier) : result (option rel) :=
  let (t, car_output) := i in
  a <- py_get alpha1 car_output ;;
  e <- times a (Var (input t (main_carrier self))) ;;
  Ok (Some (EqC (Var (output t car_output)) e)).

Definition init_min_part_load (t : Z) : result (option rel) :=
  Ok (Some (LeC (scaled_size self (min_part_load (coeff_ti self)))
                (Var (input t (main_carrier self))))).
End rules.
End T1.

Definition _performance_function_type_1 (self : Conv3) (b_tec : Block)
  : result Block :=
  f <- get_fit self ;;
  alpha1 <- collect f "alpha1" ;;
  (* Input-output relation *)
  c <- build_constraint "const_input_output"
         (fun i => AtTCar (fst i) (snd i))
         (T1.init_input_output self alpha1)
         (cross (set_t_performance (base self)) (set_output_carriers b_tec)) ;;
  let b_tec := add_constraints b_tec c in
  (* setting the minimum part load constraint if applicable *)
  if negb (Qle_bool (min_part_load (coeff_ti self)) 0) then
    c <- build_constraint "const_min_part_load" AtT
           (T1.init_min_part_load self) (set_t_performance (base self)) ;;
    Ok (add_constraints b_tec c)
  else Ok b_tec.

(** ** [_performance_function_type_2]: linear, minimal part load

    The [warn] call for [min_part_load == 0] leaves the block unchanged and
    is not modelled.  The rules of types 2 and 3 read [b_tec.var_x] after the
    method declared it where it was missing, so the read cannot fail. *)

Module T2.
Section rules.
Variables (self : Conv3) (b_tec : Block)
          (alpha1 alpha2 : list (carrier * coeff)).

Definition init_input_off (t : Z) (car_input : carrier)
  : result (option rel) :=
  Ok (Some (EqC (Var (input t car_input)) (Num 0))).

Definition init_standby_power (t : Z) (car_input : carrier)
  : result (option rel) :=
  if String.eqb car_input (main_carrier self) then
    Ok (Some (EqC (Var (input t (standby_carrier self)))
                  (scaled_size self (standby_power (coeff_ti self)))))
  else
    Ok (Some (EqC (Var (input t car_input)) (Num 0))).

Definition init_output_off (t : Z) (car_output : carrier)
  : result (option rel) :=
  Ok (Some (EqC (Var (output t car_output)) (Num 0))).

Definition init_input_output_on (t : Z) (car_output : carrier)
  : result (option rel) :=
  a1 <- py_get alpha1 car_output ;;
  e1 <- times a1 (Var (input t (main_carrier self))) ;;
  a2 <- py_get alpha2 car_output ;;
  e2 <- times a2 (Var var_size) ;;
  Ok (Some (EqC (Var (output t car_output))
                (Add e1 (Mul e2 (Num (rated_power (base self))))))).

Definition init_min_partload (t : Z) (_ : unit) : result (option rel) :=
  Ok (Some (GeC (Var (input t (main_carrier self)))
                (scaled_size self (min_part_load (coeff_ti self))))).

Definition init_input_output (t ind : Z) : result (list Constraint) :=
  if ind =? 0 then (* technology off *)
    c_in <- (if Qeq_bool (standby_power (coeff_ti self)) (-1) then
               build_constraint "const_input" AtCar (init_input_off t)
                                (set_input_carriers b_tec)
             else
               build_constraint "const_input" AtCar (init_standby_power t)
                                (set_input_carriers b_tec)) ;;
    c_out <- build_constraint "const_output_off" AtCar (init_output_off t)
               (set_output_carriers b_tec) ;;
    Ok (x_off t :: c_in ++ c_out)
  else (* technology on *)
    c_io <- build_constraint "const_input_output_on" AtCar
              (init_input_output_on t) (set_output_carriers b_tec) ;;
    c_mpl <- build_constraint "const_min_partload" (fun _ => NoIndex)
               (init_min_partload t) [tt] ;;
    Ok (x_on t :: c_io ++ c_mpl).
End rules.
End T2.

Definition _performance_function_type_2 (self : Conv3) (b_tec : Block)
  : result Block :=
  f <- get_fit self ;;
  alpha <- collect_alpha f ;;
  let alpha1 := fst alpha in
  let alpha2 := snd alpha in
  let b_tec := declare_var_x self b_tec in
  (* define disjuncts *)
  let s_indicators := range 0 2 in
  d <- build_disjunction "dis_input_output" "disjunction_input_output"
         (T2.init_input_output self b_tec alpha1 alpha2)
         (set_t_performance (base self)) s_indicators ;;
  Ok (add_disjunctions b_tec d).

(** ** [_performance_function_type_3]: piecewise linear *)

Definition bound_name {A : Type} (n : string) (o : option A) : result A :=
  match o with
  | Some a => Ok a
  | None => Err (NameError n)
  end.

Module T3.
Section rules.
Variables (self : Conv3) (b_tec : Block) (bp_x : coeff)
          (alpha1 alpha2 : list (carrier * coeff)).

Definition init_input_off (t : Z) (car_input : carrier)
  : result (option rel) :=
  Ok (Some (EqC (Var (input t car_input)) (Num 0))).

Definition init_standby_power (t : Z) (car_input : carrier)
  : result (option rel) :=
  if String.eqb car_input (main_carrier self) then
    Ok (Some (EqC (Var (input t (standby_carrier self)))
                  (scaled_size self (standby_power (coeff_ti self)))))
  else
    Ok (Some (EqC (Var (input t car_input)) (Num 0))).

Definition init_output_off (t : Z) (car_output : carrier)
  : result (option rel) :=
  Ok (Some (EqC (Var (output t car_output)) (Num 0))).

Definition init_input_on1 (t ind : Z) (_ : unit) : result (option rel) :=
  b <- item bp_x (ind - 1) ;;
  Ok (Some (GeC (Var (input t (main_carrier self))) (scaled_size self b))).

Definition init_input_on2 (t ind : Z) (_ : unit) : result (option rel) :=
  b <- item bp_x ind ;;
  Ok (Some (LeC (Var (input t (main_carrier self))) (scaled_size self b))).

Definition init_output_on (t ind : Z) (car_output : carrier)
  : result (option rel) :=
  c1 <- py_get alpha1 car_output ;;
  a1 <- item c1 (ind - 1) ;;
  c2 <- py_get alpha2 car_output ;;
  a2 <- item c2 (ind - 1) ;;
  Ok (Some (EqC (Var (output t car_output))
                (Add (Mul (Num a1) (Var (input t (main_carrier self))))
                     (scaled_size self a2)))).

Definition init_min_partload (t : Z) (_ : unit) : result (option rel) :=
  Ok (Some (GeC (Var (input t (main_carrier self)))
                (scaled_size self (min_part_load (coeff_ti self))))).

Definition init_input_output (t ind : Z) : result (list Constraint) :=
  if ind =? 0 then (* technology off *)
    c_in <- (if Qeq_bool (standby_power (coeff_ti self)) (-1) then
               build_constraint "const_input_off" AtCar (init_input_off t)
                                (set_input_carriers b_tec)
             else
               build_constraint "const_input" AtCar (init_standby_power t)
                                (set_input_carriers b_tec)) ;;
    c_out <- build_constraint "const_output_off" AtCar (init_output_off t)
               (set_output_carriers b_tec) ;;
    Ok (x_off t :: c_in ++ c_out)
  else (* piecewise definition *)
    c1 <- build_constraint "const_input_on1" (fun _ => NoIndex)
            (init_input_on1 t ind) [tt] ;;
    c2 <- build_constraint "const_input_on2" (fun _ => NoIndex)
            (init_input_on2 t ind) [tt] ;;
    c_io <- build_constraint "const_input_output_on" AtCar
              (init_output_on t ind) (set_output_carriers b_tec) ;;
    c_mpl <- build_constraint "const_min_partload" (fun _ => NoIndex)
               (init_min_partload t) [tt] ;;
    Ok (x_on t :: c1 ++ c2 ++ c_io ++ c_mpl).
End rules.
End T3.

Definition _performance_function_type_3 (self : Conv3) (b_tec : Block)
  : result Block :=
  f <- get_fit self ;;
  fitted <- collect_piecewise f ;;
  let bp := fst fitted in
  let alpha1 := fst (snd fitted) in
  let alpha2 := snd (snd fitted) in
  let b_tec := declare_var_x self b_tec in
  bp_x <- bound_name "bp_x" bp ;;
  n <- coeff_len bp_x ;;
  let s_indicators := range 0 n in
  d <- build_disjunction "dis_input_output" "disjunction_input_output"
         (T3.init_input_output self b_tec bp_x alpha1 alpha2)
         (set_t_performance (base self)) s_indicators ;;
  Ok (add_disjunctions b_tec d).

(** ** [_performance_function_type_4]: piecewise linear with start-up and
    shut-down trajectories *)

Definition get_key {A : Type} (k : string) (o : option A) : result A :=
  match o with
  | Some a => Ok a
  | None => Err (KeyError k)
  end.

(** The branches that replace a negative [SU_time] or [SD_time] by 0 (the
    first branch only warns). *)
Definition normalise_SU_SD (su sd : Z) : Z * Z :=
  if (su <=? 0) && (sd <=? 0) then (su, sd)
  else if su <? 0 then (0, sd)
  else if sd <? 0 then (su, 0)
  else (su, sd).

(** The loop [for i in range(1, n + 1): traj.append((min_part_load / (n + 1)) * i)]. *)
Definition trajectory (mpl : Q) (n : Z) : list Q :=
  fold_left (fun acc i => acc ++ [((mpl / inject_Z (n + 1)) * inject_Z i)%Q])
            (range 1 (n + 1)) [].

(** The same loop in the arithmetic of Python floats: IEEE binary64 with
    rounding to nearest even, the integers [n + 1] and [i] converted to
    floats by the division and the multiplication. *)
Definition float := SpecFloat.spec_float.

Definition float_of_int (z : Z) : float :=
  SpecFloat.binary_normalize 53 1024 z 0 false.

Definition float_div (x y : float) : float := SpecFloat.SFdiv 53 1024 x y.

Definition float_mul (x y : float) : float := SpecFloat.SFmul 53 1024 x y.

Definition trajectory_binary64 (mpl : float) (n : Z) : list float :=
  fold_left (fun acc i =>
               acc ++ [float_mul (float_div mpl (float_of_int (n + 1)))
                                 (float_of_int i)])
            (range 1 (n + 1)) [].

(** [SU_trajectory] and [SD_trajectory]; a name is bound only when its time
    is positive. *)
Definition SU_trajectory (mpl : Q) (su : Z) : option (list Q) :=
  if 0 <? su then Some (trajectory mpl su) else None.

Definition SD_trajectory (mpl : Q) (sd : Z) : option (list Q) :=
  if 0 <? sd then Some (sorted_reverse (trajectory mpl sd)) else None.

(** [i in range(a, b)] *)
Definition in_range (i a b : Z) : bool := (a <=? i) && (i <? b).

Module T4.
Section rules.
Variables (self : Conv3) (b_tec : Block) (bp_x : coeff)
          (alpha1 alpha2 : list (carrier * coeff)) (su sd : Z).

Let n_full : Z := len (set_t_full (base self)).
Let mpl : Q := min_part_load (coeff_ti self).

(** The time index the start-up rules use for offset [i]. *)
Definition su_index (t i : Z) : Z :=
  if (t <? n_full - su) || (i >? su - (n_full - t))
  then t - i + su + 1
  else (t - i + su + 1) - n_full.

(** The time index the shut-down rules use for offset [j]. *)
Definition sd_index (t j : Z) : Z :=
  if j <=? t then t - j + 1 else n_full + (t - j + 1).

Definition init_y_off (t i : Z) : result (option rel) :=
  _ <- attribute b_tec "var_y" ;;
  Ok (Some (EqC (Var (var_y (su_index t i))) (Num 0))).

Definition init_z_off (t j : Z) : result (option rel) :=
  _ <- attribute b_tec "var_z" ;;
  Ok (Some (EqC (Var (var_z (sd_index t j))) (Num 0))).

Definition init_input_off (t : Z) (car_input : carrier)
  : result (option rel) :=
  Ok (Some (EqC (Var (input t car_input)) (Num 0))).

Definition init_output_off (t : Z) (car_output : carrier)
  : result (option rel) :=
  Ok (Some (EqC (Var (output t car_output)) (Num 0))).

(* technology in startup *)
Definition init_y_on (t ind : Z) (_ : unit) : result (option rel) :=
  _ <- attribute b_tec "var_y" ;;
  Ok (Some (EqC (Var (var_y (su_index t ind))) (Num 1))).

Definition init_z_off_SU (t ind : Z) (_ : unit) : result (option rel) :=
  _ <- attribute b_tec "var_z" ;;
  Ok (Some (EqC (Var (var_z (su_index t ind))) (Num 0))).

Definition init_input_SU (t ind : Z) (_ : unit) : result (option rel) :=
  traj <- bound_name "SU_trajectory" (SU_trajectory mpl su) ;;
  v <- py_index traj (ind - 1) ;;
  Ok (Some (EqC (Var (input t (main_carrier self)))
                (Mul (Var var_size) (Num v)))).

(** [init_output_SU] and [init_output_SD]: the first segment's fit. *)
Definition init_output_first (t : Z) (car_output : carrier)
  : result (option rel) :=
  c1 <- py_get alpha1 car_output ;;
  a1 <- item c1 0 ;;
  c2 <- py_get alpha2 car_output ;;
  a2 <- item c2 0 ;;
  Ok (Some (EqC (Var (output t car_output))
                (Add (Mul (Num a1) (Var (input t (main_carrier self))))
                     (scaled_size self a2)))).

(* technology in shutdown *)
Definition init_z_on (t ind_SD : Z) (_ : unit) : result (option rel) :=
  _ <- attribute b_tec "var_z" ;;
  Ok (Some (EqC (Var (var_z (sd_index t ind_SD))) (Num 1))).

Definition init_y_off_SD (t ind_SD : Z) (_ : unit) : result (option rel) :=
  _ <- attribute b_tec "var_y" ;;
  Ok (Some (EqC (Var (var_y (sd_index t ind_SD))) (Num 0))).

Definition init_input_SD (t ind_SD : Z) (_ : unit) : result (option rel) :=
  traj <- bound_name "SD_trajectory" (SD_trajectory mpl sd) ;;
  v <- py_index traj (ind_SD - 1) ;;
  Ok (Some (EqC (Var (input t (main_carrier self)))
                (Mul (Var var_size) (Num v)))).

(* technology on *)
Definition init_input_on1 (t ind_bpx : Z) (_ : unit) : result (option rel) :=
  b <- item bp_x (ind_bpx - 1) ;;
  Ok (Some (GeC (Var (input t (main_carrier self))) (scaled_size self b))).

Definition init_input_on2 (t ind_bpx : Z) (_ : unit) : result (option rel) :=
  b <- item bp_x ind_bpx ;;
  Ok (Some (LeC (Var (input t (main_carrier self))) (scaled_size self b))).

Definition init_output_on (t ind_bpx : Z) (car_output : carrier)
  : result (option rel) :=
  c1 <- py_get alpha1 car_output ;;
  a1 <- item c1 (ind_bpx - 1) ;;
  c2 <- py_get alpha2 car_output ;;
  a2 <- item c2 (ind_bpx - 1) ;;
  Ok (Some (EqC (Var (output t car_output))
                (Add (Mul (Num a1) (Var (input t (main_carrier self))))
                     (scaled_size self a2)))).

Definition init_min_partload (t : Z) (_ : unit) : result (option rel) :=
  Ok (Some (GeC (Var (input t (main_carrier self))) (scaled_size self mpl))).

Definition one (name : string) (rule : unit -> result (option rel))
  : result (list Constraint) :=
  build_constraint name (fun _ => NoIndex) rule [tt].

Definition init_SUSD_trajectories (t ind : Z) : result (list Constraint) :=
  if ind =? 0 then (* technology off *)
    _ <- attribute b_tec "var_x" ;;
    c_y <- build_constraint "const_y_off" AtInt (init_y_off t)
             (range 1 (su + 1)) ;;
    c_z <- build_constraint "const_z_off" AtInt (init_z_off t)
             (range 1 (sd + 1)) ;;
    c_in <- build_constraint "const_input_off" AtCar (init_input_off t)
              (set_input_carriers b_tec) ;;
    c_out <- build_constraint "const_output_off" AtCar (init_output_off t)
               (set_output_carriers b_tec) ;;
    Ok (x_off t :: c_y ++ c_z ++ c_in ++ c_out)
  else if in_range ind 1 (su + 1) then (* technology in startup *)
    _ <- attribute b_tec "var_x" ;;
    c_y <- one "const_y_on" (init_y_on t ind) ;;
    c_z <- one "const_z_off" (init_z_off_SU t ind) ;;
    c_in <- one "const_input_SU" (init_input_SU t ind) ;;
    c_out <- build_constraint "const_output_SU" AtCar (init_output_first t)
               (set_output_carriers b_tec) ;;
    Ok (x_off t :: c_y ++ c_z ++ c_in ++ c_out)
  else if in_range ind (su + 1) (su + sd + 1) then (* technology in shutdown *)
    let ind_SD := ind - su in
    _ <- attribute b_tec "var_x" ;;
    c_z <- one "const_z_on" (init_z_on t ind_SD) ;;
    c_y <- one "const_y_off" (init_y_off_SD t ind_SD) ;;
    c_in <- one "const_input_SD" (init_input_SD t ind_SD) ;;
    c_out <- build_constraint "const_output_SD" AtCar (init_output_first t)
               (set_output_carriers b_tec) ;;
    Ok (x_off t :: c_z ++ c_y ++ c_in ++ c_out)
  else if ind >? su + sd then
    let ind_bpx := ind - (su + sd) in
    _ <- attribute b_tec "var_x" ;;
    c1 <- one "const_input_on1" (init_input_on1 t ind_bpx) ;;
    c2 <- one "const_input_on2" (init_input_on2 t ind_bpx) ;;
    c_io <- build_constraint "const_input_output_on" AtCar
              (init_output_on t ind_bpx) (set_output_carriers b_tec) ;;
    c_mpl <- one "const_min_partload" (init_min_partload t) ;;
    Ok (x_on t :: c1 ++ c2 ++ c_io ++ c_mpl)
  else Ok [].
End rules.
End T4.

Definition _performance_function_type_4 (self : Conv3) (b_tec : Block)
  : result Block :=
  f <- get_fit self ;;
  fitted <- collect_piecewise f ;;
  let bp := fst fitted in
  let alpha1 := fst (snd fitted) in
  let alpha2 := snd (snd fitted) in
  su0 <- get_key "SU_time" (SU_time (dynamics (base self))) ;;
  sd0 <- get_key "SD_time" (SD_time (dynamics (base self))) ;;
  let (su, sd) := normalise_SU_SD su0 sd0 in
  (* slow startups/shutdowns with trajectories *)
  bp_x <- bound_name "bp_x" bp ;;
  n <- coeff_len bp_x ;;
  let s_indicators := range 0 (su + sd + n) in
  d <- build_disjunction "dis_SUSD_trajectory" "disjunction_SUSD_traject"
         (T4.init_SUSD_trajectories self b_tec bp_x alpha1 alpha2 su sd)
         (set_t_full (base self)) s_indicators ;;
  Ok (add_disjunctions b_tec d).

(** ** [_define_ramping_rates] *)

(** Modelled from the spec: [link_full_resolution_to_clustered] is imported
    from the utilities module.  It emits one equality constraint per
    (full time step, carrier), binding the full-resolution auxiliary variable
    to the variable of the representative period the [sequence] mapping gives
    for that step; the mapping is a list whose [t]-th entry belongs to step
    [t], steps being numbered from 1. *)
Definition link_full_resolution_to_clustered
    (var_clustered var_full : Z -> carrier -> var) (set_t_full : list Z)
    (sequence : list Z) (set1 : list carrier) : result (list Constraint) :=
  build_constraint "const_link_full_resolution_rr"
    (fun i => AtTCar (fst i) (snd i))
    (fun i : Z * carrier =>
       let (t, car) := i in
       s <- py_index sequence (t - 1) ;;
       Ok (Some (EqC (Var (var_full t car)) (Var (var_clustered s car)))))
    (cross set_t_full set1).

(** [-ramping_rate], for a float or an expression. *)
Definition py_neg (e : expr) : expr :=
  match e with
  | Num q => Num (- q)
  | _ => Neg e
  end.

Module RR.
Section rules.
Variables (self : Conv3) (b_tec : Block) (ramping_rate : expr).

(** The rules of the disjunct that couples ramping to [var_x]. *)
Definition init_ramping_down_rate_operation (t : Z) (_ : unit)
  : result (option rel) :=
  Ok (Some (LeC (py_neg ramping_rate)
                (Sub (Var (input t (main_carrier self)))
                     (Var (input (t - 1) (main_carrier self)))))).

Definition init_ramping_up_rate_operation (t : Z) (_ : unit)
  : result (option rel) :=
  Ok (Some (LeC (Sub (Var (input t (main_carrier self)))
                     (Var (input (t - 1) (main_carrier self))))
                ramping_rate)).

Definition const_ramping_on (t : Z) (d : Q) : Constraint :=
  mkConstraint "const_ramping_on" NoIndex
               (EqC (Sub (Var (var_x t)) (Var (var_x (t - 1)))) (Num d)).

Definition init_ramping_operation_on (t ind : Z) : result (list Constraint) :=
  if t >? 1 then
    _ <- attribute b_tec "var_x" ;;
    if ind =? 0 then (* ramping constrained *)
      c_down <- build_constraint "const_ramping_down_rate" (fun _ => NoIndex)
                  (init_ramping_down_rate_operation t) [tt] ;;
      c_up <- build_constraint "const_ramping_up_rate" (fun _ => NoIndex)
                (init_ramping_up_rate_operation t) [tt] ;;
      Ok (const_ramping_on t 0 :: c_down ++ c_up)
    else if ind =? 1 then (* startup, no ramping constraint *)
      Ok [const_ramping_on t 1]
    else (* shutdown, no ramping constraint *)
      Ok [const_ramping_on t (-1)]
  else Ok [].

(** The rules of the ramping constraint without integers, on the series
    [input_aux_rr]. *)
Variable input_aux_rr : Z -> carrier -> var.

Definition init_ramping_down_rate (t : Z) : result (option rel) :=
  if t >? 1 then
    Ok (Some (LeC (py_neg ramping_rate)
                  (Sub (Var (input_aux_rr t (main_carrier self)))
                       (Var (input_aux_rr (t - 1) (main_carrier self))))))
  else Ok None.

Definition init_ramping_up_rate (t : Z) : result (option rel) :=
  if t >? 1 then
    Ok (Some (LeC (Sub (Var (input_aux_rr t (main_carrier self)))
                       (Var (input_aux_rr (t - 1) (main_carrier self))))
                  ramping_rate))
  else Ok None.
End rules.
End RR.

(** [ramping_rate]: a float when a reference size is configured, an
    expression in [var_size] otherwise; dividing by zero raises. *)
Definition ramping_rate_of (dyn : Dynamics) (ramping_time : Q) : result expr :=
  let use_ref := match ref_size dyn with
                 | Some r => if Qeq_bool r (-1) then None else Some r
                 | None => None
                 end in
  if Qeq_bool ramping_time 0 then Err ZeroDivisionError
  else match use_ref with
       | Some r => Ok (Num (r / ramping_time))
       | None => Ok (Div (Var var_size) (Num ramping_time))
       end.

(** The test that selects the formulation coupled to [var_x]. *)
Definition integer_coupled (self : Conv3) : bool :=
  negb (performance_function_type (options self) =? 1)
  && match ramping_const_int (dynamics (base self)) with
     | Some v => v =? 1
     | None => false
     end.

Definition _define_ramping_rates (self : Conv3) (b_tec : Block) (data : Data)
  : result Block :=
  let dyn := dynamics (base self) in
  ramping_time <- get_key "ramping_time" (ramping_time dyn) ;;
  (* Calculate ramping rates *)
  ramping_rate <- ramping_rate_of dyn ramping_time ;;
  (* Constraints ramping rates *)
  if integer_coupled self then
    let s_indicators := range 0 3 in
    d <- build_disjunction "dis_ramping_operation_on"
           "disjunction_ramping_operation_on"
           (RR.init_ramping_operation_on self b_tec ramping_rate)
           (set_t_performance (base self)) s_indicators ;;
    Ok (add_disjunctions b_tec d)
  else
    aux <- (if typicaldays_N data =? 0 then
              Ok (b_tec, input, set_t_performance (base self))
            else
              let sequence :=
                if typicaldays_method data =? 1 then Some (k_means_sequence data)
                else if typicaldays_method data =? 2 then
                  Some (sequence (base self))
                else None in
              (* create input variable for full res; its bounds come from
                 the fitting class and are not a constant pair *)
              let b_tec := add_variable b_tec
                             (mkVarDecl "var_input_rr_full"
                                        (set_t_full (base self)) true None) in
              sequence <- bound_name "sequence" sequence ;;
              c <- link_full_resolution_to_clustered input var_input_rr_full
                     (set_t_full (base self)) sequence
                     (set_input_carriers b_tec) ;;
              Ok (add_constraints b_tec c, var_input_rr_full,
                  set_t_full (base self))) ;;
    let '(b_tec, input_aux_rr, set_t_rr) := aux in
    (* Ramping constraint without integers *)
    c_down <- build_constraint "const_ramping_down_rate" AtT
                (RR.init_ramping_down_rate self ramping_rate input_aux_rr)
                set_t_rr ;;
    let b_tec := add_constraints b_tec c_down in
    c_up <- build_constraint "const_ramping_up_rate" AtT
              (RR.init_ramping_up_rate self ramping_rate input_aux_rr)
              set_t_rr ;;
    Ok (add_constraints b_tec c_up).

(** ** [construct_tech_model]

    [super_construct] is the block as the base class's method left it. *)

Module CTM.
Section rules.
Variables (self : Conv3) (b_tec : Block) (phi : list (carrier * Q)).

(** The rule of [const_input_input], when no standby power is set. *)
Definition init_input_input (i : Z * carrier) : result (option rel) :=
  let (t, car_input) := i in
  if String.eqb car_input (main_carrier self) then Ok None
  else
    p <- py_get phi car_input ;;
    Ok (Some (EqC (Var (input t car_input))
                  (Mul (Num p) (Var (input t (main_carrier self)))))).

Let car_standby_power : carrier := standby_carrier self.

Definition init_input_off (t : Z) (car_input : carrier)
  : result (option rel) :=
  if String.eqb car_input car_standby_power then Ok None
  else Ok (Some (EqC (Var (input t car_input)) (Num 0))).

Definition init_input_on (t : Z) (car_input : carrier)
  : result (option rel) :=
  if String.eqb car_input car_standby_power then Ok None
  else
    p <- py_get phi car_input ;;
    Ok (Some (EqC (Var (input t car_input))
                  (Mul (Num p) (Var (input t car_standby_power))))).

(** The rule of the disjunct [dis_input_input], when standby power is
    set. *)
Definition init_input_input_dis (t ind : Z) : result (list Constraint) :=
  if ind =? 0 then (* technology off *)
    _ <- attribute b_tec "var_x" ;;
    c <- build_constraint "const_input_off" AtCar (init_input_off t)
           (set_input_carriers b_tec) ;;
    Ok (x_off t :: c)
  else (* technology on *)
    _ <- attribute b_tec "var_x" ;;
    c <- build_constraint "const_input_on" AtCar (init_input_on t)
           (set_input_carriers b_tec) ;;
    Ok (x_on t :: c).

Definition init_size_constraint (t : Z) : result (option rel) :=
  Ok (Some (LeC (Var (input t (main_carrier self)))
                (Mul (Var var_size) (Num (rated_power (base self)))))).
End rules.
End CTM.

(** The dispatch on [performance_function_type]. *)
Definition performance_function (self : Conv3) (b_tec : Block) : result Block :=
  let pft := performance_function_type (options self) in
  if pft =? 1 then _performance_function_type_1 self b_tec
  else if pft =? 2 then _performance_function_type_2 self b_tec
  else if pft =? 3 then _performance_function_type_3 self b_tec
  else if pft =? 4 then _performance_function_type_4 self b_tec
  else Ok b_tec.

(** The constraint on input ratios. *)
Definition input_ratio_constraints (self : Conv3) (b_tec : Block)
  : result Block :=
  let standby_power := standby_power (coeff_ti self) in
  phi <- get_phi self ;;
  if Qeq_bool standby_power (-1) then
    c <- build_constraint "const_input_input"
           (fun i => AtTCar (fst i) (snd i))
           (CTM.init_input_input self phi)
           (cross (set_t_performance (base self)) (set_input_carriers b_tec)) ;;
    Ok (add_constraints b_tec c)
  else
    let s_indicators := range 0 2 in
    d <- build_disjunction "dis_input_input" "disjunction_input_input"
           (CTM.init_input_input_dis self b_tec phi)
           (set_t_performance (base self)) s_indicators ;;
    Ok (add_disjunctions b_tec d).

Definition construct_tech_model (self : Conv3) (super_construct : Block)
    (data : Data) : result Block :=
  let b_tec := super_construct in
  b_tec <- performance_function self b_tec ;;
  (* constraint on input ratios *)
  b_tec <- input_ratio_constraints self b_tec ;;
  (* size constraint based on main carrier input *)
  c <- build_constraint "const_size" AtT (CTM.init_size_constraint self)
         (set_t_performance (base self)) ;;
  let b_tec := add_constraints b_tec c in
  (* RAMPING RATES *)
  match ramping_time (dynamics (base self)) with
  | Some rt =>
      if negb (Qeq_bool rt (-1)) then _define_ramping_rates self b_tec data
      else Ok b_tec
  | None => Ok b_tec
  end.

(** ** What a method adds to the block it is given

    [extends b b' cs ds]: [b'] is [b] with the constraints [cs] and the
    disjunctions [ds] appended, and possibly more variables. *)

Record extends (b b' : Block) (cs : list Constraint) (ds : list Disjunction)
  : Prop := mkExtends {
  ext_inputs : set_input_carriers b' = set_input_carriers b;
  ext_outputs : set_output_carriers b' = set_output_carriers b;
  ext_variables : incl (variables b) (variables b');
  ext_constraints : constraints b' = constraints b ++ cs;
  ext_disjunctions : disjunctions b' = disjunctions b ++ ds
}.


(** ** Notions the statements use *)

(** The multiples of [mpl / (n + 1)] that the loop of a trajectory appends,
    written as a comprehension. *)
Definition steps (mpl : Q) (n : Z) : list Q :=
  map (fun i => (mpl / inject_Z (n + 1)) * inject_Z i)%Q (range 1 (n + 1)).

(** What the loop of types 3 and 4 leaves in [bp_x], taken alone: the
    breakpoints of the last carrier, or nothing when the dict is empty. *)
Definition collect_bp_x (f : fit_dict) : result (option coeff) :=
  fold_left (fun acc entry =>
               _ <- acc ;;
               v <- py_get (snd entry) "bp_x" ;;
               Ok (Some v))
            f (Ok None).

(** The floats 0.4 and 0.8 and the smallest positive float, [2^-1074]. *)
Definition float_0_4 : float :=
  SpecFloat.S754_finite false 7205759403792794 (-54).

Definition float_0_8 : float :=
  SpecFloat.S754_finite false 7205759403792794 (-53).

Definition float_tiny : float := SpecFloat.S754_finite false 1 (-1074).

(** ** Concrete configurations

    Small technologies on which the statements below are evaluated. *)

Definition unsupported_type_msg : string :=
  "performance_function_type must be an integer between 1 and 4".

Definition output_sizing_msg : string :=
  "size_based_on == output for CONV3 not possible.".

(** A technology with the function type [pft] that burns gas into heat, as
    the base constructor leaves it; its data ask for output-based sizing. *)
Definition ex_boiler (pft : Z) : Technology :=
  mkTechnology "boiler"
    (mkComponentOptions pft "output" "output" "" None)
    (1 # 1)
    [("gas", 1 # 1)]
    (mkTimeIndependent None None (3 # 10) (-1)%Q)
    (mkDynamics None None None None None)
    [1; 2; 3] [1; 2; 3] [].

Definition ex_tec_data : TecData :=
  mkTecData [("main_input_carrier", "gas")].

Definition ex_fit_linear : fit_dict :=
  [("heat", [("alpha1", Scalar (9 # 10)); ("alpha2", Scalar (0 # 1))])].

Definition ex_fit_piecewise : fit_dict :=
  [("heat", [("bp_x", Sequence [0 # 1; 1 # 2; 1 # 1]);
             ("alpha1", Sequence [9 # 10; 8 # 10]);
             ("alpha2", Sequence [0 # 1; 1 # 20])])].

(** The input ratios of the fitted examples: half a unit of electricity and
    three units of water per unit of gas. *)
Definition ex_phi : list (carrier * Q) :=
  [("gas", 1 # 1); ("electricity", 1 # 2); ("water", 3 # 1)].

(** A fitted technology: function type [pft], main carrier gas, input
    carriers gas, electricity and water, standby power [sp] on the carrier
    [spc], rated power [rp] and the given dynamics. *)
Definition ex_tech (pft : Z) (f : fit_dict) (sp : Q) (spc : option carrier)
    (rp : Q) (dyn : Dynamics) : Conv3 :=
  let o := mkComponentOptions pft "input" "input" "gas" spc in
  mkConv3
    (mkTechnology "boiler" o rp ex_phi
       (mkTimeIndependent (Some f) (Some ex_phi) (3 # 10) sp)
       dyn [1; 2] [1; 2] [])
    (FitGenericTecTypeType2 o).

Definition ex_block : Block :=
  mkBlock ["gas"; "electricity"; "water"] ["heat"] [] [] [].

(** The same block after the base class declared the variables of the
    dynamics on the two time steps. *)
Definition ex_block_dynamics : Block :=
  mkBlock ["gas"; "electricity"; "water"] ["heat"]
    [mkVarDecl "var_x" [1; 2] true (Some (0 # 1, 1 # 1)%Q);
     mkVarDecl "var_y" [1; 2] true (Some (0 # 1, 1 # 1)%Q);
     mkVarDecl "var_z" [1; 2] true (Some (0 # 1, 1 # 1)%Q)]
    [] [].

Definition no_dynamics : Dynamics := mkDynamics None None None None None.

Definition ex_data : Data := mkData 0 1 [].

(** A valuation given by its values on the size, on inputs and outputs at
    steps 1 and 2, and on [var_x]. *)
Definition ex_valuation (size : Q) (inp out : Z -> carrier -> Q) (x : Z -> Q)
  : valuation :=
  fun v => match v with
           | var_size => size
           | input t car => inp t car
           | output t car => out t car
           | var_x t => x t
           | _ => 0%Q
           end.

(** The index set of the mode disjunction of a function type: the full
    series for type 4, the performance series for types 2 and 3. *)
Definition mode_set_t (self : Conv3) : list Z :=
  if performance_function_type (options self) =? 4
  then set_t_full (base self)
  else set_t_performance (base self).

(** What the constraints [cs] of an off disjunct of types 2 and 3 at step
    [t] force on a solution: [var_x] and every output are 0; without standby
    power every input is 0; with standby power the input of the standby
    carrier is [standby_power * size * rated_power] and every input carrier
    other than the main one is at 0, whatever the standby carrier is. *)
Definition off_branch_forces (self : Conv3) (b_tec : Block) (t : Z)
    (cs : list Constraint) : Prop :=
  forall rho : valuation,
    sat_constraints rho cs = true ->
    (rho (var_x t) == 0)%Q
    /\ (forall car, In car (set_output_carriers b_tec) ->
                    (rho (output t car) == 0)%Q)
    /\ ((standby_power (coeff_ti self) == -1)%Q ->
        forall car, In car (set_input_carriers b_tec) ->
                    (rho (input t car) == 0)%Q)
    /\ (~ (standby_power (coeff_ti self) == -1)%Q ->
        In (main_carrier self) (set_input_carriers b_tec) ->
        (rho (input t (standby_carrier self))
         == standby_power (coeff_ti self) * rho var_size
            * rated_power (base self))%Q
        /\ (forall car, In car (set_input_carriers b_tec) ->
                        car <> main_carrier self ->
                        (rho (input t car) == 0)%Q)).

(** What the constraints [cs] of the off disjunct of type 4 at step [t]
    force on a solution: [var_x], every input and every output are 0. *)
Definition off_branch_4_forces (b_tec : Block) (t : Z) (cs : list Constraint)
  : Prop :=
  forall rho : valuation,
    sat_constraints rho cs = true ->
    (rho (var_x t) == 0)%Q
    /\ (forall car, In car (set_input_carriers b_tec) ->
                    (rho (input t car) == 0)%Q)
    /\ (forall car, In car (set_output_carriers b_tec) ->
                    (rho (output t car) == 0)%Q).

(** The technology [self] with another standby power and standby carrier. *)
Definition with_standby (self : Conv3) (sp : Q) (spc : option carrier) : Conv3 :=
  let T := base self in
  let o := component_options T in
  let ti := time_independent T in
  mkConv3
    (mkTechnology (name T)
       (mkComponentOptions (performance_function_type o) (emissions_based_on o)
          (size_based_on o) (main_input_carrier o) spc)
       (rated_power T) (input_ratios T)
       (mkTimeIndependent (fit ti) (phi ti) (min_part_load ti) sp)
       (dynamics T) (set_t_performance T) (set_t_full T) (sequence T))
    (fitting_class self).

(** The series the ramping constraints without integers bound, with its
    index set: the input itself, or the full-resolution auxiliary input when
    typical days are used. *)
Definition ramping_series (self : Conv3) (data : Data)
  : (Z -> carrier -> var) * list Z :=
  if typicaldays_N data =? 0 then (input, set_t_performance (base self))
  else (var_input_rr_full, set_t_full (base self)).

(** The value of [ramping_rate] in a solution. *)
Definition ramping_rate_value (self : Conv3) (rho : valuation) (rt : Q) : Q :=
  match ref_size (dynamics (base self)) with
  | Some r => if Qeq_bool r (-1) then (rho var_size / rt)%Q else (r / rt)%Q
  | None => (rho var_size / rt)%Q
  end.

Definition ramping_named (c : Constraint) : Prop :=
  cname c = "const_ramping_down_rate" \/ cname c = "const_ramping_up_rate".

(** The two ramping constraints without integers at step [t]. *)
Definition ramping_down_at (self : Conv3) (rate : expr)
    (aux : Z -> carrier -> var) (t : Z) : Constraint :=
  mkConstraint "const_ramping_down_rate" (AtT t)
    (LeC (py_neg rate)
         (Sub (Var (aux t (main_carrier self)))
              (Var (aux (t - 1) (main_carrier self))))).

Definition ramping_up_at (self : Conv3) (rate : expr)
    (aux : Z -> carrier -> var) (t : Z) : Constraint :=
  mkConstraint "const_ramping_up_rate" (AtT t)
    (LeC (Sub (Var (aux t (main_carrier self)))
              (Var (aux (t - 1) (main_carrier self))))
         rate).

(** The size constraint at step [t]. *)
Definition size_constraint_at (self : Conv3) (t : Z) : Constraint :=
  mkConstraint "const_size" (AtT t)
    (LeC (Var (input t (main_carrier self)))
         (Mul (Var var_size) (Num (rated_power (base self))))).

(** The block [construct_tech_model] returns, or the given block when it
    raises. *)
Definition built (self : Conv3) (b : Block) (data : Data) : Block :=
  match construct_tech_model self b data with
  | Ok b' => b'
  | Err _ => b
  end.

(** The block a performance function returns, or the given block when it
    raises. *)
Definition performance_block (self : Conv3) (b : Block) : Block :=
  match performance_function self b with
  | Ok b' => b'
  | Err _ => b
  end.

Definition ex_type2 : Conv3 :=
  ex_tech 2 ex_fit_linear (-1)%Q None (1 # 1) no_dynamics.

Definition ex_type3_standby : Conv3 :=
  ex_tech 3 ex_fit_piecewise (1 # 10) None (1 # 1) no_dynamics.

Definition ex_type4_standby : Conv3 :=
  ex_tech 4 ex_fit_piecewise (1 # 10) (Some "electricity") (1 # 1)
          (mkDynamics None None None (Some 2) (Some 1)).

(** Type 1 with ramping over two steps, rated power 1/2 and the flag of the
    integer-coupled formulation set. *)
Definition ex_type1_ramping : Conv3 :=
  ex_tech 1 ex_fit_linear (-1)%Q None (1 # 2)
          (mkDynamics (Some (2 # 1)) None (Some 1) None None).

(** Type 2 with standby power on electricity, which is not the main input
    carrier. *)
Definition ex_type2_standby_electricity : Conv3 :=
  ex_tech 2 ex_fit_linear (1 # 10) (Some "electricity") (1 # 1) no_dynamics.

Definition zero_valuation : valuation := fun _ => 0%Q.

(** Size 0, 7 units of gas at every step, everything else 0. *)
Definition gas_only_valuation : valuation :=
  ex_valuation (0 # 1)
    (fun _ car => if String.eqb car "gas" then 7 # 1 else 0 # 1)%Q
    (fun _ _ => 0%Q) (fun _ => 0%Q).

(** Size 10; 1.5 units of gas at step 1 and 5 at the other steps, the other
    inputs in their ratios to gas, heat at 0.9 times the gas input. *)
Definition ramping_valuation : valuation :=
  let gas (t : Z) : Q := if t =? 1 then 3 # 2 else 5 # 1 in
  ex_valuation (10 # 1)
    (fun t car => if String.eqb car "gas" then gas t
                  else if String.eqb car "electricity" then (1 # 2) * gas t
                  else (3 # 1) * gas t)%Q
    (fun t _ => ((9 # 10) * gas t)%Q) (fun _ => 0%Q).

(** Size 2, the technology on at every step; 1 unit of gas, 1 of
    electricity, 3 of water, and heat at 0.9 times the gas input. *)
Definition standby_ratio_valuation : valuation :=
  ex_valuation (2 # 1)
    (fun _ car => if String.eqb car "gas" then 1 # 1
                  else if String.eqb car "electricity" then 1 # 1
                  else 3 # 1)%Q
    (fun _ _ => (9 # 10)%Q) (fun _ => 1%Q).

(** The ratio constraint of carrier [car] at step [t], with the ratio [p]. *)
Definition ratio_constraint_at (self : Conv3) (t : Z) (car : carrier) (p : Q)
  : Constraint :=
  mkConstraint "const_input_input" (AtTCar t car)
    (EqC (Var (input t car))
         (Mul (Num p) (Var (input t (main_carrier self))))).

(** ** Further notions the statements use *)

(** [fit[car][key]] on the fitted coefficients. *)
Definition fit_coefficient (f : fit_dict) (car : carrier) (key : string)
  : result coeff :=
  e <- py_get f car ;; py_get e key.

(** The keys of a dict are pairwise different. *)
Definition is_dict {A : Type} (d : list (string * A)) : Prop :=
  NoDup (map fst d).

(** [size * rated_power] in a solution. *)
Definition capacity (self : Conv3) (rho : valuation) : Q :=
  (rho var_size * rated_power (base self))%Q.

(** Ramping is switched on: [ramping_time] is in the dynamics and is not
    [-1]. *)
Definition ramping_enabled (self : Conv3) : bool :=
  match ramping_time (dynamics (base self)) with
  | Some rt => negb (Qeq_bool rt (-1))
  | None => false
  end.

(** The names of the components the ramping step adds. *)
Definition ramping_component (n : string) : Prop :=
  In n ["const_ramping_down_rate"; "const_ramping_up_rate";
        "const_link_full_resolution_rr"; "disjunction_ramping_operation_on"].

(** [fit[car][key][i]] on the fitted coefficients of types 3 and 4. *)
Definition segment_coefficient (f : fit_dict) (car : carrier) (key : string)
    (i : Z) : result Q :=
  c <- fit_coefficient f car key ;; item c i.

(** The breakpoints of the carrier the fit lists last. *)
Definition last_breakpoints (f : fit_dict) : result coeff :=
  match rev f with
  | [] => Err (NameError "bp_x")
  | entry :: _ => py_get (snd entry) "bp_x"
  end.

(** The technology runs on segment [i] of the breakpoints [bp_x] at step
    [t]: [var_x] is 1, the main input lies between the two breakpoints of the
    segment (scaled by the capacity) and above the minimal part load, and
    every output follows the fit of the segment. *)
Definition on_segment (self : Conv3) (b_tec : Block) (f : fit_dict)
    (bp_x : coeff) (rho : valuation) (t i : Z) : Prop :=
  (rho (var_x t) == 1)%Q
  /\ (exists lo hi,
         item bp_x (i - 1) = Ok lo /\ item bp_x i = Ok hi
         /\ (lo * capacity self rho <= rho (input t (main_carrier self)))%Q
         /\ (rho (input t (main_carrier self)) <= hi * capacity self rho)%Q)
  /\ (min_part_load (coeff_ti self) * capacity self rho
      <= rho (input t (main_carrier self)))%Q
  /\ forall car, In car (set_output_carriers b_tec) ->
       exists c1 c2,
         segment_coefficient f car "alpha1" (i - 1) = Ok c1
         /\ segment_coefficient f car "alpha2" (i - 1) = Ok c2
         /\ (rho (output t car)
             == c1 * rho (input t (main_carrier self))
                + c2 * capacity self rho)%Q.

(** [SU_time] and [SD_time] as the performance function of type 4 uses
    them, when both are in the dynamics. *)
Definition startup_shutdown_times (self : Conv3) : option (Z * Z) :=
  match SU_time (dynamics (base self)), SD_time (dynamics (base self)) with
  | Some su, Some sd => Some (normalise_SU_SD su sd)
  | _, _ => None
  end.

(** The modes of type 4 at step [t], besides running on a segment.  Off:
    [var_x], every input and output are 0, and so are the start-up indicator
    at every start-up offset and the shut-down indicator at every shut-down
    offset. *)
Definition mode_off (self : Conv3) (b_tec : Block) (su sd : Z)
    (rho : valuation) (t : Z) : Prop :=
  (rho (var_x t) == 0)%Q
  /\ (forall car, In car (set_input_carriers b_tec) ->
                  (rho (input t car) == 0)%Q)
  /\ (forall car, In car (set_output_carriers b_tec) ->
                  (rho (output t car) == 0)%Q)
  /\ (forall i, 1 <= i <= su -> (rho (var_y (T4.su_index self su t i)) == 0)%Q)
  /\ (forall j, 1 <= j <= sd -> (rho (var_z (T4.sd_index self t j)) == 0)%Q).

(** Outputs by the fit of the first segment. *)
Definition first_segment_outputs (self : Conv3) (b_tec : Block) (f : fit_dict)
    (rho : valuation) (t : Z) : Prop :=
  forall car, In car (set_output_carriers b_tec) ->
    exists c1 c2,
      segment_coefficient f car "alpha1" 0 = Ok c1
      /\ segment_coefficient f car "alpha2" 0 = Ok c2
      /\ (rho (output t car)
          == c1 * rho (input t (main_carrier self))
             + c2 * capacity self rho)%Q.

(** Start-up at offset [k]: [var_x] is 0, the start-up indicator at the
    wrapped index is 1 and the shut-down indicator there is 0, and the main
    input is the size times [min_part_load / (SU_time + 1) * k]. *)
Definition mode_startup (self : Conv3) (b_tec : Block) (f : fit_dict)
    (su : Z) (rho : valuation) (t k : Z) : Prop :=
  (rho (var_x t) == 0)%Q
  /\ (rho (var_y (T4.su_index self su t k)) == 1)%Q
  /\ (rho (var_z (T4.su_index self su t k)) == 0)%Q
  /\ (rho (input t (main_carrier self))
      == rho var_size
         * (min_part_load (coeff_ti self) / inject_Z (su + 1) * inject_Z k))%Q
  /\ first_segment_outputs self b_tec f rho t.

(** Shut-down at offset [k]: [var_x] is 0, the shut-down indicator at the
    wrapped index is 1 and the start-up indicator there is 0, and the main
    input is the size times the [k]-th value of the shut-down trajectory. *)
Definition mode_shutdown (self : Conv3) (b_tec : Block) (f : fit_dict)
    (sd : Z) (rho : valuation) (t k : Z) : Prop :=
  (rho (var_x t) == 0)%Q
  /\ (rho (var_z (T4.sd_index self t k)) == 1)%Q
  /\ (rho (var_y (T4.sd_index self t k)) == 0)%Q
  /\ (exists v,
         py_index (sorted_reverse (trajectory (min_part_load (coeff_ti self)) sd))
                  (k - 1) = Ok v
         /\ (rho (input t (main_carrier self)) == rho var_size * v)%Q)
  /\ first_segment_outputs self b_tec f rho t.

(** Type 2 with ramping over two steps coupled to [var_x]. *)
Definition ex_type2_coupled : Conv3 :=
  ex_tech 2 ex_fit_linear (-1)%Q None (1 # 1)
          (mkDynamics (Some (2 # 1)) None (Some 1) None None).

(** Type 2 with a ramping time of 0. *)
Definition ex_type2_ramping_zero : Conv3 :=
  ex_tech 2 ex_fit_linear (-1)%Q None (1 # 1)
          (mkDynamics (Some (0 # 1)) None None None None).

(** A technology of type [pft] that was built but not fitted. *)
Definition ex_unfitted (pft : Z) : Conv3 :=
  let o := mkComponentOptions pft "input" "input" "gas" None in
  mkConv3
    (mkTechnology "boiler" o (1 # 1) ex_phi
       (mkTimeIndependent None None (3 # 10) (-1)%Q)
       no_dynamics [1; 2] [1; 2] [])
    (FitGenericTecTypeType2 o).

(** A fit of types 1 and 2 is well formed for the output carriers of a
    block: every fitted carrier has a scalar [alpha1] (and, for type 2, a
    scalar [alpha2]), and every output carrier is fitted. *)
Definition linear_fit_for (pft : Z) (f : fit_dict) (b_tec : Block) : Prop :=
  is_dict f
  /\ (forall entry, In entry f ->
        (exists c1, py_get (snd entry) "alpha1" = Ok (Scalar c1))
        /\ (pft = 2 -> exists c2, py_get (snd entry) "alpha2" = Ok (Scalar c2)))
  /\ forall car, In car (set_output_carriers b_tec) -> In car (map fst f).

(** ** [_calculate_bounds]

    A bounds array of the fitting classes: one row (lower, upper) per time
    step.  [calculate_input_bounds] and [calculate_output_bounds] are the
    imported methods of the fitting class; [input_carrier] is
    [component_options.input_carrier], a list no other method of the class
    reads. *)
Definition bounds_array := list (Q * Q).

(** [array * ratio] *)
Definition scale_bounds (a : bounds_array) (r : Q) : bounds_array :=
  map (fun row => (fst row * r, snd row * r)%Q) a.

Section calculate_bounds.
Variables calculate_input_bounds calculate_output_bounds :
  FittingClass -> string -> Z -> result (list (carrier * bounds_array)).

(** The loop that recalculates the input bounds. *)
Definition recalculate_input_bounds (self : Conv3)
    (bounds_input : list (carrier * bounds_array)) (input_carrier : list carrier)
  : result (list (carrier * bounds_array)) :=
  fold_left
    (fun acc car =>
       d <- acc ;;
       if negb (String.eqb car (main_carrier self)) then
         m <- py_get d (main_carrier self) ;;
         r <- py_get (input_ratios (base self)) car ;;
         Ok (py_set d car (scale_bounds m r))
       else Ok d)
    input_carrier (Ok bounds_input).

(** Returns [bounds["input"]] and [bounds["output"]]. *)
Definition _calculate_bounds (self : Conv3) (input_carrier : list carrier)
  : result (list (carrier * bounds_array) * list (carrier * bounds_array)) :=
  let time_steps := len (set_t_performance (base self)) in
  bounds_input <- calculate_input_bounds (fitting_class self)
                    (size_based_on (options self)) time_steps ;;
  bounds_output <- calculate_output_bounds (fitting_class self)
                     (size_based_on (options self)) time_steps ;;
  (* Input bounds recalculation *)
  bounds_input <- recalculate_input_bounds self bounds_input input_carrier ;;
  Ok (bounds_input, bounds_output).
End calculate_bounds.

(** Fitted bounds of the examples: gas between 0 and 1 at both steps. *)
Definition ex_input_bounds : list (carrier * bounds_array) :=
  [("gas", [(0 # 1, 1 # 1); (0 # 1, 1 # 1)]%Q)].

(** Type 1 with standby power 0.1 on the main input carrier. *)
Definition ex_type1_standby : Conv3 :=
  ex_tech 1 ex_fit_linear (1 # 10) None (1 # 1) no_dynamics.
(** * Properties *)

(** ** The error monad and the component builders *)

Lemma bind_Ok {A B : Type} (m : result A) (k : A -> result B) (b : B) :
  bind m k = Ok b -> exists a, m = Ok a /\ k a = Ok b.
Proof.
  destruct m as [a | e]; simpl; intros H; [eauto | discriminate].
Qed.

(** Splits a hypothesis [x <- m ;; k = Ok b] into its two steps. *)
Ltac bind_inv H :=
  let a := fresh "a" in
  let Ha := fresh "Ha" in
  apply bind_Ok in H; destruct H as (a & Ha & H).

Tactic Notation "bind_as" hyp(H) ident(a) ident(Ha) :=
  apply bind_Ok in H; destruct H as (a & Ha & H).

Lemma mapM_Ok_in {A B : Type} (f : A -> result B) (l : list A) (bs : list B) :
  mapM f l = Ok bs ->
  forall a, In a l -> exists b, f a = Ok b /\ In b bs.
Proof.
  revert bs; induction l as [| x l IH]; intros bs H a Hin; [destruct Hin |].
  simpl in H. bind_inv H. bind_inv H. injection H as <-.
  destruct Hin as [<- | Hin].
  - exists a0; split; [assumption | now left].
  - destruct (IH _ Ha0 _ Hin) as (b & Hb & Hbs).
    exists b; split; [assumption | now right].
Qed.

Lemma mapM_Ok_inv {A B : Type} (f : A -> result B) (l : list A) (bs : list B) :
  mapM f l = Ok bs ->
  forall b, In b bs -> exists a, In a l /\ f a = Ok b.
Proof.
  revert bs; induction l as [| x l IH]; intros bs H b Hin; simpl in H.
  - injection H as <-. destruct Hin.
  - bind_inv H. bind_inv H. injection H as <-.
    destruct Hin as [<- | Hin].
    + exists x; split; [now left | assumption].
    + destruct (IH _ Ha0 _ Hin) as (a' & Ha' & Hf).
      exists a'; split; [now right | assumption].
Qed.

Lemma mapM_total {A B : Type} (f : A -> result B) (l : list A) :
  (forall a, In a l -> exists b, f a = Ok b) -> exists bs, mapM f l = Ok bs.
Proof.
  induction l as [| x l IH]; intros H; simpl; [eauto |].
  destruct (H x (or_introl eq_refl)) as (b & ->).
  destruct IH as (bs & ->); [intros a Ha; apply H; now right |].
  simpl; eauto.
Qed.

Section build_constraint_facts.
Context {I : Type} {cn : string} {mk : I -> cidx}
        {rule : I -> result (option rel)}.

Lemma build_constraint_in {idx : list I} {cs : list Constraint} {i : I}
    {r : rel} :
  build_constraint cn mk rule idx = Ok cs ->
  In i idx -> rule i = Ok (Some r) ->
  In (mkConstraint cn (mk i) r) cs.
Proof.
  revert cs; induction idx as [| j idx IH]; intros cs H Hin Hr;
    [destruct Hin |].
  simpl in H. bind_inv H. bind_inv H. injection H as <-.
  destruct Hin as [<- | Hin].
  - rewrite Hr in Ha. injection Ha as <-. now left.
  - specialize (IH _ Ha0 Hin Hr).
    destruct a; [now right | assumption].
Qed.

Lemma build_constraint_inv (idx : list I) (cs : list Constraint) :
  build_constraint cn mk rule idx = Ok cs ->
  forall c, In c cs ->
            exists i, In i idx /\ rule i = Ok (Some (cbody c))
                      /\ cname c = cn /\ cindex c = mk i.
Proof.
  revert cs; induction idx as [| j idx IH]; intros cs H c Hin; simpl in H.
  - injection H as <-. destruct Hin.
  - bind_inv H. bind_inv H. injection H as <-.
    assert (Htail : In c a0 ->
                    exists i, In i (j :: idx) /\ rule i = Ok (Some (cbody c))
                              /\ cname c = cn /\ cindex c = mk i).
    { intros Hc. destruct (IH _ Ha0 _ Hc) as (i & Hi & Hrest).
      exists i; split; [now right | assumption]. }
    destruct a as [r |]; [| now apply Htail].
    destruct Hin as [<- | Hin]; [| now apply Htail].
    exists j; simpl; repeat split; [now left | assumption].
Qed.

Lemma build_constraint_total (idx : list I) :
  (forall i, In i idx -> exists r, rule i = Ok r) ->
  exists cs, build_constraint cn mk rule idx = Ok cs.
Proof.
  induction idx as [| j idx IH]; intros H; simpl; [eauto |].
  destruct (H j (or_introl eq_refl)) as (r & ->).
  destruct IH as (cs & ->); [intros i Hi; apply H; now right |].
  simpl; eauto.
Qed.
End build_constraint_facts.

Section build_disjunction_facts.
Variables (dn jn : string) (rule : Z -> Z -> result (list Constraint))
          (set_t s_indicators : list Z) (ds : list Disjunction).
Hypothesis Hbuild : build_disjunction dn jn rule set_t s_indicators = Ok ds.

(** Every time step of the index set has its disjunction. *)
Lemma build_disjunction_in (t : Z) :
  In t set_t -> exists d, In d ds /\ disjunction_t d = t.
Proof.
  intros Ht. destruct (mapM_Ok_in _ _ _ Hbuild _ Ht) as (d & Hd & Hin).
  exists d; split; [assumption |].
  bind_inv Hd. injection Hd as <-. reflexivity.
Qed.

(** Every disjunct of a disjunction was made by the rule at one of the
    indicators. *)
Lemma build_disjunction_inv (d : Disjunction) (dj : Disjunct) :
  In d ds -> In dj (disjuncts d) ->
  In (disjunction_t d) set_t
  /\ exists ind, In ind s_indicators
                 /\ rule (disjunction_t d) ind = Ok (dis_constraints dj)
                 /\ dis_ind dj = ind.
Proof.
  intros Hd Hdj. destruct (mapM_Ok_inv _ _ _ Hbuild _ Hd) as (t & Ht & Hmk).
  bind_inv Hmk. injection Hmk as <-. simpl in *. split; [assumption |].
  destruct (mapM_Ok_inv _ _ _ Ha _ Hdj) as (ind & Hind & Hr).
  bind_inv Hr. injection Hr as <-. simpl. eauto.
Qed.

(** Every indicator has its disjunct in every disjunction. *)
Lemma build_disjunction_disjunct (d : Disjunction) (ind : Z) :
  In d ds -> In ind s_indicators ->
  exists dj, In dj (disjuncts d) /\ dis_ind dj = ind
             /\ rule (disjunction_t d) ind = Ok (dis_constraints dj).
Proof.
  intros Hd Hind. destruct (mapM_Ok_inv _ _ _ Hbuild _ Hd) as (t & Ht & Hmk).
  bind_inv Hmk. injection Hmk as <-. simpl.
  destruct (mapM_Ok_in _ _ _ Ha _ Hind) as (dj & Hdj & Hin).
  exists dj; split; [assumption |].
  bind_inv Hdj. injection Hdj as <-. simpl. auto.
Qed.
End build_disjunction_facts.

(** ** Solutions *)

Lemma sat_constraints_in (rho : valuation) (cs : list Constraint) (c : Constraint) :
  sat_constraints rho cs = true -> In c cs -> holds rho (cbody c) = true.
Proof.
  unfold sat_constraints. rewrite forallb_forall. intros H Hin. now apply H.
Qed.

Lemma sat_eq {rho : valuation} {cs : list Constraint} {cn : string} {i : cidx}
    {a b : expr} :
  sat_constraints rho cs = true -> In (mkConstraint cn i (EqC a b)) cs ->
  (eval rho a == eval rho b)%Q.
Proof.
  intros H Hin. apply (sat_constraints_in _ _ _ H) in Hin.
  now apply Qeq_bool_iff.
Qed.

Lemma sat_le {rho : valuation} {cs : list Constraint} {cn : string} {i : cidx}
    {a b : expr} :
  sat_constraints rho cs = true -> In (mkConstraint cn i (LeC a b)) cs ->
  (eval rho a <= eval rho b)%Q.
Proof.
  intros H Hin. apply (sat_constraints_in _ _ _ H) in Hin.
  now apply Qle_bool_iff.
Qed.

Lemma feasible_constraints (rho : valuation) (b : Block) :
  feasible rho b = true -> sat_constraints rho (constraints b) = true.
Proof. unfold feasible. now intros [H _]%andb_true_iff. Qed.

Lemma feasible_disjunction (rho : valuation) (b : Block) (d : Disjunction) :
  feasible rho b = true -> In d (disjunctions b) ->
  exists dj, In dj (disjuncts d) /\ sat_disjunct rho dj = true.
Proof.
  unfold feasible. intros [_ H]%andb_true_iff Hin.
  rewrite forallb_forall in H. specialize (H _ Hin).
  unfold sat_disjunction in H. now apply existsb_exists in H.
Qed.

(** ** What a method adds to the block it is given *)

Lemma extends_refl (b : Block) : extends b b [] [].
Proof. split; auto using app_nil_r, incl_refl. Qed.

Lemma extends_trans {b1 b2 b3 : Block} {cs ds cs' ds'} :
  extends b1 b2 cs ds -> extends b2 b3 cs' ds' ->
  extends b1 b3 (cs ++ cs') (ds ++ ds').
Proof.
  intros [i1 o1 v1 c1 d1] [i2 o2 v2 c2 d2]; split.
  - congruence.
  - congruence.
  - eapply incl_tran; eassumption.
  - rewrite c2, c1. now rewrite app_assoc.
  - rewrite d2, d1. now rewrite app_assoc.
Qed.

Lemma extends_add_constraints (b : Block) cs :
  extends b (add_constraints b cs) cs [].
Proof. split; simpl; auto using app_nil_r, incl_refl. Qed.

Lemma extends_add_disjunctions (b : Block) ds :
  extends b (add_disjunctions b ds) [] ds.
Proof. split; simpl; auto using app_nil_r, incl_refl. Qed.

Lemma extends_add_variable (b : Block) v :
  extends b (add_variable b v) [] [].
Proof. split; simpl; auto using app_nil_r, incl_appl, incl_refl. Qed.

Lemma extends_declare_var_x (self : Conv3) (b : Block) :
  extends b (declare_var_x self b) [] [].
Proof.
  unfold declare_var_x. destruct (find_component b "var_x");
    auto using extends_refl, extends_add_variable.
Qed.

(** The declaration of [var_x] by a performance function. *)
Lemma declare_var_x_declares (self : Conv3) (b : Block) :
  find_component b "var_x" = false ->
  In (mkVarDecl "var_x" (set_t_performance (base self)) true
                (Some (0 # 1, 1 # 1)%Q))
     (variables (declare_var_x self b)).
Proof.
  intros H. unfold declare_var_x. rewrite H. simpl.
  apply in_or_app. right. now left.
Qed.

Lemma extends_in_constraints {b b' cs ds} (c : Constraint) :
  extends b b' cs ds -> In c (constraints b) \/ In c cs ->
  In c (constraints b').
Proof. intros [_ _ _ -> _] H. now apply in_or_app. Qed.

Lemma extends_in_disjunctions {b b' cs ds} (d : Disjunction) :
  extends b b' cs ds -> In d (disjunctions b) \/ In d ds ->
  In d (disjunctions b').
Proof. intros [_ _ _ _ ->] H. now apply in_or_app. Qed.

Lemma build_disjunction_name dn jn rule set_t s_indicators ds d :
  build_disjunction dn jn rule set_t s_indicators = Ok ds ->
  In d ds -> disjunction_name d = jn.
Proof.
  intros Hbuild Hd. destruct (mapM_Ok_inv _ _ _ Hbuild _ Hd) as (t & Ht & Hmk).
  bind_inv Hmk. injection Hmk as <-. reflexivity.
Qed.

(** With the indicators [range(0, m)], a disjunction that has a disjunct at
    all has the one of indicator 0. *)
Lemma build_disjunction_first dn jn rule set_t m ds d :
  build_disjunction dn jn rule set_t (range 0 m) = Ok ds ->
  In d ds -> disjuncts d <> [] ->
  exists dj, In dj (disjuncts d) /\ dis_ind dj = 0
             /\ rule (disjunction_t d) 0 = Ok (dis_constraints dj).
Proof.
  intros Hbuild Hd Hne.
  destruct (disjuncts d) as [| dj0 rest] eqn:E; [now destruct Hne |].
  assert (Hdj0 : In dj0 (disjuncts d)) by (rewrite E; now left).
  destruct (build_disjunction_inv _ _ _ _ _ _ Hbuild d dj0 Hd Hdj0)
    as (_ & ind & Hind & _).
  assert (H0 : In 0 (range 0 m)).
  { unfold range in *. apply in_map_iff in Hind as (k & _ & Hk%in_seq).
    apply in_map_iff. exists 0%nat. split; [reflexivity |].
    apply in_seq. lia. }
  rewrite <- E.
  apply (build_disjunction_disjunct _ _ _ _ _ _ Hbuild d 0 Hd H0).
Qed.

(** ** The constructor and the fitting step *)

Lemma init_Ok_options (super_init : Technology) (tec_data : TecData)
    (self : Conv3) :
  __init__ super_init tec_data = Ok self ->
  size_based_on (options self) = "input"
  /\ performance_function_type (options self)
     = performance_function_type (component_options super_init).
Proof.
  unfold __init__. intros H. bind_inv H. simpl in H.
  repeat match type of H with
         | (if ?c then _ else _) = _ => destruct c
         end; try discriminate; injection H as <-; auto.
Qed.

Lemma py_get_Err {A : Type} (d : list (string * A)) (k : string) (e : exn) :
  py_get d k = Err e -> e = KeyError k.
Proof.
  induction d as [| [k' a] d IH]; simpl.
  - now intros [= <-].
  - destruct (String.eqb k k'); [discriminate | exact IH].
Qed.

(** C6: a function type outside 1..4 makes the constructor raise (and with
    the main input carrier in the data, it raises the exception about the
    function type); a function type in 1..4 never raises that exception, and
    with the main input carrier in the data the constructor returns the
    object. *)
Theorem init_function_type (super_init : Technology) (tec_data : TecData) :
  let pft := performance_function_type (component_options super_init) in
  (~ In pft [1; 2; 3; 4] ->
   (exists e, __init__ super_init tec_data = Err e)
   /\ forall main,
       py_get (Performance tec_data) "main_input_carrier" = Ok main ->
       __init__ super_init tec_data = Err (Exception unsupported_type_msg))
  /\ (In pft [1; 2; 3; 4] ->
      __init__ super_init tec_data <> Err (Exception unsupported_type_msg)
      /\ forall main,
          py_get (Performance tec_data) "main_input_carrier" = Ok main ->
          exists self, __init__ super_init tec_data = Ok self
                       /\ performance_function_type (options self) = pft).
Proof.
  intros pft. unfold __init__. fold pft. simpl.
  destruct (py_get (Performance tec_data) "main_input_carrier")
    as [main | e] eqn:Hmain; simpl.
  - split.
    + intros Hout.
      assert (Hne : pft <> 1 /\ pft <> 2 /\ pft <> 3 /\ pft <> 4)
        by (simpl in Hout; lia).
      destruct Hne as (H1 & H2 & H3 & H4).
      apply Z.eqb_neq in H1, H2, H3, H4. rewrite H1, H2, H3, H4. simpl.
      split; [eauto | reflexivity].
    + intros Hin. simpl in Hin.
      assert (Hc : pft = 1 \/ pft = 2 \/ pft = 3 \/ pft = 4) by lia.
      destruct Hc as [-> | [-> | [-> | ->]]]; simpl;
        (split; [discriminate | intros; eexists; split; reflexivity]).
  - split.
    + intros _. split; [eauto | discriminate].
    + intros _. split; [| discriminate].
      apply py_get_Err in Hmain. subst e. discriminate.
Qed.

(** C7 (as the code has it): [fit_technology_performance] raises, before the
    fitting class is asked for coefficients, exactly when the option
    [size_based_on] is ["output"] at that moment; the constructor sets the
    option to ["input"] whatever the data asked for, so on an object it built
    fitting produces the coefficients whenever the fitting class does. *)
Theorem fit_size_based_on
    (fit_performance_function : FittingClass -> result fit_dict) :
  (forall self,
      size_based_on (options self) = "output" ->
      fit_technology_performance fit_performance_function self
      = Err (Exception output_sizing_msg))
  /\ (forall super_init tec_data self,
         __init__ super_init tec_data = Ok self ->
         size_based_on (options self) = "input"
         /\ forall f,
             fit_performance_function (fitting_class self) = Ok f ->
             exists self',
               fit_technology_performance fit_performance_function self
               = Ok self'
               /\ fit (coeff_ti self') = Some f).
Proof.
  split.
  - intros self H. unfold fit_technology_performance.
    unfold options in H. now rewrite H.
  - intros super_init tec_data self Hinit.
    destruct (init_Ok_options _ _ _ Hinit) as [Hs _].
    split; [assumption |].
    intros f Hf. unfold fit_technology_performance.
    unfold options in Hs. rewrite Hs, Hf. simpl. eauto.
Qed.

Lemma init_function_type_witness :
  __init__ (ex_boiler 7) ex_tec_data = Err (Exception unsupported_type_msg)
  /\ exists self, __init__ (ex_boiler 3) ex_tec_data = Ok self
                  /\ performance_function_type (options self) = 3.
Proof.
  split.
  - refine (proj2 (proj1 (init_function_type (ex_boiler 7) ex_tec_data) _)
                  "gas" eq_refl).
    simpl; lia.
  - refine (proj2 (proj2 (init_function_type (ex_boiler 3) ex_tec_data) _)
                  "gas" eq_refl).
    simpl; lia.
Defined.

(** C7, as stated, fails: the data of [ex_boiler 1] ask for output-based
    sizing, yet the technology the constructor builds from them is fitted
    without an error. *)
Lemma fit_output_request_counterexample :
  size_based_on (component_options (ex_boiler 1)) = "output"
  /\ exists self self',
      __init__ (ex_boiler 1) ex_tec_data = Ok self
      /\ fit_technology_performance (fun _ => Ok ex_fit_linear) self = Ok self'.
Proof.
  split; [reflexivity |]. do 2 eexists. split; reflexivity.
Qed.

Lemma fit_size_based_on_witness :
  size_based_on
    (options (mkConv3 (ex_boiler 1)
                      (FitGenericTecTypeType1 (component_options (ex_boiler 1)))))
  = "output"
  /\ fit_technology_performance (fun _ => Ok ex_fit_linear)
       (mkConv3 (ex_boiler 1)
                (FitGenericTecTypeType1 (component_options (ex_boiler 1))))
     = Err (Exception output_sizing_msg).
Proof.
  split; [reflexivity |].
  apply (proj1 (fit_size_based_on (fun _ => Ok ex_fit_linear))).
  reflexivity.
Defined.

(** ** Start-up and shut-down trajectories *)

Lemma fold_left_append {A B : Type} (f : A -> B) (l : list A) (acc : list B) :
  fold_left (fun acc i => acc ++ [f i]) l acc = acc ++ map f l.
Proof.
  revert acc; induction l as [| x l IH]; intros acc; simpl.
  - now rewrite app_nil_r.
  - rewrite IH, <- app_assoc. reflexivity.
Qed.

(** The loop builds the list of the multiples. *)
Lemma trajectory_map (mpl : Q) (n : Z) :
  trajectory mpl n
  = map (fun i => (mpl / inject_Z (n + 1)) * inject_Z i)%Q (range 1 (n + 1)).
Proof. unfold trajectory. now rewrite fold_left_append. Qed.

Lemma StronglySorted_map {A B : Type} (R : A -> A -> Prop) (S : B -> B -> Prop)
    (f : A -> B) (l : list A) :
  (forall x y, In x l -> In y l -> R x y -> S (f x) (f y)) ->
  StronglySorted R l -> StronglySorted S (map f l).
Proof.
  intros Hf Hl. induction Hl as [| a l Hl IH Ha]; simpl; constructor.
  - apply IH. intros x y Hx Hy. apply Hf; now right.
  - rewrite Forall_forall in *. intros y (x & <- & Hx)%in_map_iff.
    apply Hf; [now left | now right | now apply Ha].
Qed.

Lemma seq_sorted (s n : nat) : StronglySorted lt (seq s n).
Proof.
  revert s; induction n as [| n IH]; intros s; simpl; constructor.
  - apply IH.
  - rewrite Forall_forall. intros x Hx%in_seq. lia.
Qed.

Lemma range_sorted (a b : Z) : StronglySorted Z.lt (range a b).
Proof.
  unfold range. apply StronglySorted_map with (R := lt); [| apply seq_sorted].
  intros x y _ _ H. lia.
Qed.

Lemma in_range_iff (a b i : Z) : In i (range a b) <-> a <= i < b.
Proof.
  unfold range. rewrite in_map_iff. split.
  - intros (k & <- & Hk%in_seq). lia.
  - intros H. exists (Z.to_nat (i - a)). split; [lia |]. apply in_seq. lia.
Qed.

(** [sorted(l, reverse=True)] reverses a strictly increasing list. *)
Lemma insert_desc_smallest (x : Q) (l : list Q) :
  Forall (fun y => x < y)%Q l -> insert_desc x l = l ++ [x].
Proof.
  induction 1 as [| y l Hy Hl IH]; simpl; [reflexivity |].
  destruct (Qle_bool y x) eqn:E.
  - apply Qle_bool_iff in E. exfalso. apply (Qlt_irrefl x).
    now apply Qlt_le_trans with y.
  - now rewrite IH.
Qed.

Lemma sorted_reverse_increasing (l : list Q) :
  StronglySorted Qlt l -> sorted_reverse l = rev l.
Proof.
  induction 1 as [| x l Hl IH Hx]; simpl; [reflexivity |].
  fold (sorted_reverse l). rewrite IH. apply insert_desc_smallest.
  rewrite Forall_forall in *. intros y Hy%in_rev. now apply Hx.
Qed.

Lemma StronglySorted_snoc {A : Type} (R : A -> A -> Prop) (l : list A) (x : A) :
  StronglySorted R l -> Forall (fun y => R y x) l ->
  StronglySorted R (l ++ [x]).
Proof.
  induction 1 as [| a l Hl IH Ha]; intros Hx; simpl.
  - repeat constructor.
  - inversion Hx as [| ? ? Hax Hlx]; subst. constructor; [now apply IH |].
    apply Forall_app; split; [assumption | now constructor].
Qed.

Lemma StronglySorted_rev_flip {A : Type} (R : A -> A -> Prop) (l : list A) :
  StronglySorted R l -> StronglySorted (fun a b => R b a) (rev l).
Proof.
  induction 1 as [| x l Hl IH Hx]; simpl; [constructor |].
  apply StronglySorted_snoc; [assumption |].
  rewrite Forall_forall in *. intros y Hy%in_rev. now apply Hx.
Qed.

Section trajectory_facts.
Variables (mpl : Q) (n : Z).
Hypothesis Hn : 0 < n.


Lemma denominator_positive : (0 < inject_Z (n + 1))%Q.
Proof. change 0%Q with (inject_Z 0). rewrite <- Zlt_Qlt. lia. Qed.

Lemma step_positive : (0 < mpl)%Q -> (0 < mpl / inject_Z (n + 1))%Q.
Proof.
  intros H. apply Qlt_shift_div_l; [apply denominator_positive |].
  now rewrite Qmult_0_l.
Qed.

Lemma step_times_denominator :
  ((mpl / inject_Z (n + 1)) * inject_Z (n + 1) == mpl)%Q.
Proof.
  field. intros H.
  pose proof denominator_positive as P. rewrite H in P.
  exact (Qlt_irrefl 0 P).
Qed.

Lemma steps_increasing :
  (0 < mpl)%Q ->
  StronglySorted Qlt (steps mpl n).
Proof.
  intros H. unfold steps.
  apply StronglySorted_map with (R := Z.lt); [| apply range_sorted].
  intros x y _ _ Hxy. apply Qmult_lt_l; [now apply step_positive |].
  now rewrite <- Zlt_Qlt.
Qed.

Lemma steps_below :
  (0 < mpl)%Q ->
  Forall (fun v => (v < mpl)%Q)
         (steps mpl n).
Proof.
  intros H. unfold steps. rewrite Forall_forall.
  intros v (i & <- & Hi%in_range_iff)%in_map_iff.
  rewrite <- step_times_denominator at 2.
  apply Qmult_lt_l; [now apply step_positive |].
  rewrite <- Zlt_Qlt. lia.
Qed.

Lemma steps_zero :
  (mpl == 0)%Q ->
  Forall (fun v => (v == 0)%Q)
         (steps mpl n).
Proof.
  intros H. unfold steps. rewrite Forall_forall.
  intros v (i & <- & _)%in_map_iff.
  rewrite H. unfold Qdiv. now rewrite !Qmult_0_l.
Qed.

Lemma steps_length :
  len (steps mpl n) = n.
Proof.
  unfold steps, len, range. rewrite !length_map, length_seq. lia.
Qed.
End trajectory_facts.

(** [sorted(l, reverse=True)] keeps the values of the list and puts them
    in non-increasing order; a list that is in that order already is left as
    it is. *)
Lemma insert_desc_perm (x : Q) (l : list Q) :
  Permutation (insert_desc x l) (x :: l).
Proof.
  induction l as [| y l IH]; simpl; [reflexivity |].
  destruct (Qle_bool y x); [reflexivity |].
  rewrite IH. apply perm_swap.
Qed.

Lemma sorted_reverse_perm (l : list Q) : Permutation (sorted_reverse l) l.
Proof.
  induction l as [| x l IH]; simpl; [reflexivity |].
  fold (sorted_reverse l). rewrite insert_desc_perm. now constructor.
Qed.

Lemma insert_desc_sorted (x : Q) (l : list Q) :
  StronglySorted (fun a b => (b <= a)%Q) l ->
  StronglySorted (fun a b => (b <= a)%Q) (insert_desc x l).
Proof.
  induction 1 as [| y l Hl IH Hy]; simpl; [repeat constructor |].
  destruct (Qle_bool y x) eqn:E.
  - apply Qle_bool_iff in E. constructor; [now constructor |].
    constructor; [exact E |].
    rewrite Forall_forall in *. intros z Hz.
    apply Qle_trans with y; [now apply Hy | exact E].
  - assert (Hxy : (x <= y)%Q).
    { apply Qlt_le_weak, Qnot_le_lt. intros N.
      apply Qle_bool_iff in N. rewrite N in E. discriminate. }
    constructor; [exact IH |].
    rewrite Forall_forall in *. intros z Hz.
    apply (Permutation_in _ (insert_desc_perm x l)) in Hz.
    destruct Hz as [<- | Hz]; [exact Hxy | now apply Hy].
Qed.

Lemma sorted_reverse_sorted (l : list Q) :
  StronglySorted (fun a b => (b <= a)%Q) (sorted_reverse l).
Proof.
  induction l as [| x l IH]; simpl; [constructor |].
  now apply insert_desc_sorted.
Qed.

Lemma sorted_reverse_decreasing (l : list Q) :
  StronglySorted (fun a b => (b <= a)%Q) l -> sorted_reverse l = l.
Proof.
  induction 1 as [| x l Hl IH Hx]; simpl; [reflexivity |].
  fold (sorted_reverse l). rewrite IH.
  destruct l as [| y l]; simpl; [reflexivity |].
  apply Forall_inv in Hx. apply Qle_bool_iff in Hx. now rewrite Hx.
Qed.

Section trajectory_order.
Variables (mpl : Q) (n : Z).
Hypothesis Hn : 0 < n.

Lemma steps_nondecreasing :
  (0 <= mpl)%Q -> StronglySorted Qle (steps mpl n).
Proof.
  intros H. unfold steps.
  apply StronglySorted_map with (R := Z.lt); [| apply range_sorted].
  intros x y _ _ Hxy.
  rewrite !(Qmult_comm (mpl / inject_Z (n + 1))).
  apply Qmult_le_compat_r; [rewrite <- Zle_Qle; lia |].
  apply Qle_shift_div_l; [now apply denominator_positive |].
  now rewrite Qmult_0_l.
Qed.

Lemma steps_nonincreasing :
  (mpl <= 0)%Q -> StronglySorted (fun a b => (b <= a)%Q) (steps mpl n).
Proof.
  intros H. unfold steps.
  apply StronglySorted_map with (R := Z.lt); [| apply range_sorted].
  intros x y _ _ Hxy.
  assert (Hs : (mpl / inject_Z (n + 1) <= 0)%Q).
  { apply Qle_shift_div_r; [now apply denominator_positive |].
    now rewrite Qmult_0_l. }
  assert (Hxy' : (inject_Z x <= inject_Z y)%Q) by (rewrite <- Zle_Qle; lia).
  nra.
Qed.
End trajectory_order.

(** In binary64 the scenario of the claim gives the floats [0.4 / 3] and
    [0.8 / 3], the first below the second and the second below 0.4. *)
Lemma trajectory_binary64_scenario :
  trajectory_binary64 float_0_4 2
  = [float_div float_0_4 (float_of_int 3);
     float_div float_0_8 (float_of_int 3)]
  /\ SpecFloat.SFltb (float_div float_0_4 (float_of_int 3))
                     (float_div float_0_8 (float_of_int 3)) = true
  /\ SpecFloat.SFltb (float_div float_0_8 (float_of_int 3)) float_0_4 = true.
Proof. repeat split; vm_compute; reflexivity. Qed.

(** C3, as stated, fails: with [min_part_load = 0] and [SU_time = 2] the
    start-up trajectory is [0, 0], which is not strictly increasing; with
    [min_part_load = 0.4], [SU_time = 2] and [SD_time = 1] the shut-down
    trajectory holds a value that is not in the start-up trajectory; and in
    binary64 the smallest positive [min_part_load] gives the start-up
    trajectory [0.0, 0.0] for [SU_time = 2]. *)
Lemma trajectory_counterexample :
  (exists l, SU_trajectory (0 # 1) 2 = Some l /\ ~ StronglySorted Qlt l)
  /\ (exists su sd, SU_trajectory (4 # 10) 2 = Some su
                    /\ SD_trajectory (4 # 10) 1 = Some sd
                    /\ ~ (forall v, In v sd -> exists w, In w su /\ (v == w)%Q))
  /\ (SpecFloat.SFltb (SpecFloat.S754_zero false) float_tiny = true
      /\ trajectory_binary64 float_tiny 2
         = [SpecFloat.S754_zero false; SpecFloat.S754_zero false]).
Proof.
  split; [| split].
  - eexists; split; [reflexivity |].
    intros H. apply StronglySorted_inv in H as [_ H].
    apply Forall_inv in H. revert H. vm_compute. discriminate.
  - do 2 eexists; split; [reflexivity | split; [reflexivity |]].
    intros H. destruct (H _ (or_introl eq_refl)) as (w & Hw & E).
    vm_compute in Hw. destruct Hw as [<- | [<- | []]]; revert E;
      vm_compute; discriminate.
  - split; vm_compute; reflexivity.
Qed.

(** C3 (as the code has it): for function type 4 with [SU_time > 0] the
    start-up trajectory is [(min_part_load / (SU_time + 1)) * i] for
    [i = 1 .. SU_time], and [SU_time] is used as given.  With the division
    and the multiplication taken as exact, its values are non-decreasing
    when [min_part_load >= 0], strictly increasing and below [min_part_load]
    when [min_part_load > 0], and all 0 when [min_part_load = 0].  The
    shut-down trajectory is built the same way from [SD_time] and sorted:
    for [SD_time > 0] and every [min_part_load] it holds the values of the
    multiples for [SD_time] in non-increasing order; for [min_part_load > 0]
    it is that list reversed, strictly decreasing, and so the start-up
    trajectory reversed when [SD_time = SU_time]; for [min_part_load <= 0]
    it is that list in its own order, all 0 when [min_part_load = 0].  With
    [SU_time = 2] and [min_part_load = 0.4] the start-up trajectory is
    [0.4/3, 0.8/3], in exact arithmetic and in binary64. *)
Theorem trajectory_construction (mpl : Q) (su sd : Z) :
  0 < su ->
  SU_trajectory mpl su = Some (steps mpl su)
  /\ fst (normalise_SU_SD su sd) = su
  /\ len (steps mpl su) = su
  /\ ((0 <= mpl)%Q -> StronglySorted Qle (steps mpl su))
  /\ ((0 < mpl)%Q ->
      StronglySorted Qlt (steps mpl su)
      /\ Forall (fun v => (v < mpl)%Q) (steps mpl su))
  /\ ((mpl == 0)%Q -> Forall (fun v => (v == 0)%Q) (steps mpl su))
  /\ (0 < sd ->
      exists l,
        SD_trajectory mpl sd = Some l
        /\ Permutation l (steps mpl sd)
        /\ StronglySorted (fun a b => (b <= a)%Q) l
        /\ ((0 < mpl)%Q ->
            l = rev (steps mpl sd)
            /\ StronglySorted (fun a b => (b < a)%Q) l
            /\ (sd = su -> l = rev (steps mpl su)))
        /\ ((mpl <= 0)%Q -> l = steps mpl sd)
        /\ ((mpl == 0)%Q -> Forall (fun v => (v == 0)%Q) l))
  /\ (su = 2 -> (mpl == 4 # 10)%Q ->
      Forall2 Qeq (steps mpl su) [((4 # 10) / 3)%Q; ((8 # 10) / 3)%Q])
  /\ trajectory_binary64 float_0_4 2
     = [float_div float_0_4 (float_of_int 3);
        float_div float_0_8 (float_of_int 3)].
Proof.
  intros Hsu.
  split; [| split; [| split; [| split; [| split; [| split; [| split;
    [| split]]]]]]].
  - unfold SU_trajectory. rewrite trajectory_map.
    destruct (0 <? su) eqn:E; [reflexivity | apply Z.ltb_ge in E; lia].
  - unfold normalise_SU_SD.
    destruct (su <=? 0) eqn:E1; [apply Z.leb_le in E1; lia |].
    destruct (su <? 0) eqn:E2; [apply Z.ltb_lt in E2; lia |].
    simpl. now destruct (sd <? 0).
  - now apply steps_length.
  - now apply steps_nondecreasing.
  - intros H. split; [now apply steps_increasing | now apply steps_below].
  - now apply steps_zero.
  - intros Hsd. exists (sorted_reverse (steps mpl sd)).
    split.
    { unfold SD_trajectory.
      destruct (0 <? sd) eqn:E; [| apply Z.ltb_ge in E; lia].
      now rewrite trajectory_map. }
    split; [apply sorted_reverse_perm |].
    split; [apply sorted_reverse_sorted |].
    split; [| split].
    + intros H.
      assert (Hrev : sorted_reverse (steps mpl sd) = rev (steps mpl sd))
        by (apply sorted_reverse_increasing; now apply steps_increasing).
      rewrite Hrev. split; [reflexivity |]. split.
      * apply StronglySorted_rev_flip. now apply steps_increasing.
      * now intros ->.
    + intros H. apply sorted_reverse_decreasing.
      now apply steps_nonincreasing.
    + intros H. rewrite sorted_reverse_decreasing.
      * now apply steps_zero.
      * apply steps_nonincreasing; [assumption |]. rewrite H. apply Qle_refl.
  - intros -> H. unfold steps. simpl.
    repeat constructor; rewrite H; reflexivity.
  - apply trajectory_binary64_scenario.
Qed.

Lemma trajectory_construction_witness :
  SU_trajectory (4 # 10) 2 = Some (steps (4 # 10) 2)
  /\ StronglySorted Qlt (steps (4 # 10) 2)
  /\ Forall2 Qeq (steps (4 # 10) 2) [((4 # 10) / 3)%Q; ((8 # 10) / 3)%Q]
  /\ SD_trajectory (4 # 10) 2 = Some (rev (steps (4 # 10) 2)).
Proof.
  assert (Hsu : 0 < 2) by lia.
  destruct (trajectory_construction (4 # 10) 2 2 Hsu)
    as (Heq & _ & _ & _ & Hinc & _ & Hsd & Hex & _).
  split; [exact Heq |].
  split; [apply Hinc; reflexivity |].
  split; [apply Hex; reflexivity |].
  destruct (Hsd Hsu) as (l & Hl & _ & _ & Hpos & _).
  destruct (Hpos eq_refl) as (_ & _ & Hrev).
  rewrite Hl, (Hrev eq_refl). reflexivity.
Defined.

(** The start-up disjunct of offset [ind] pins the main input to the size
    times the [ind]-th value of the start-up trajectory. *)
Lemma startup_disjunct_uses_trajectory (self : Conv3) (su t ind : Z) :
  1 <= ind <= su ->
  exists v,
    nth_error (steps (min_part_load (coeff_ti self)) su) (Z.to_nat (ind - 1))
    = Some v
    /\ T4.init_input_SU self su t ind tt
       = Ok (Some (EqC (Var (input t (main_carrier self)))
                       (Mul (Var var_size) (Num v)))).
Proof.
  intros Hind. unfold T4.init_input_SU, SU_trajectory.
  destruct (0 <? su) eqn:E; [| apply Z.ltb_ge in E; lia].
  rewrite trajectory_map. fold (steps (min_part_load (coeff_ti self)) su).
  simpl. unfold py_index.
  destruct (ind - 1 <? 0) eqn:E1; [apply Z.ltb_lt in E1; lia |]. rewrite E1.
  destruct (nth_error (steps (min_part_load (coeff_ti self)) su)
                      (Z.to_nat (ind - 1))) as [v |] eqn:Ev.
  - exists v. split; reflexivity.
  - apply nth_error_None in Ev.
    assert (Hlen := steps_length (min_part_load (coeff_ti self)) su).
    unfold len in Hlen. lia.
Qed.

(** ** The loops over the fitted coefficients

    The loops of types 2, 3 and 4 read several keys of a carrier before they
    go on to the next one.  When they return, each dict they filled is the
    one the loop of a single key fills. *)

Lemma fold_left_Err {A B : Type} (step : result A -> B -> result A)
    (l : list B) (e : exn) :
  (forall b, step (Err e) b = Err e) -> fold_left step l (Err e) = Err e.
Proof.
  intros Hstep. induction l as [| b l IH]; simpl; [reflexivity |].
  now rewrite Hstep.
Qed.

Ltac fold_err H :=
  rewrite fold_left_Err in H by reflexivity; discriminate H.

Lemma collect_alpha_from (f : fit_dict) (d1 d2 a1 a2 : list (carrier * coeff)) :
  fold_left (fun acc entry =>
               d <- acc ;;
               a1 <- py_get (snd entry) "alpha1" ;;
               a2 <- py_get (snd entry) "alpha2" ;;
               Ok (py_set (fst d) (fst entry) a1,
                   py_set (snd d) (fst entry) a2))
            f (Ok (d1, d2)) = Ok (a1, a2)
  <-> fold_left (fun acc entry =>
                   d <- acc ;;
                   v <- py_get (snd entry) "alpha1" ;;
                   Ok (py_set d (fst entry) v)) f (Ok d1) = Ok a1
      /\ fold_left (fun acc entry =>
                      d <- acc ;;
                      v <- py_get (snd entry) "alpha2" ;;
                      Ok (py_set d (fst entry) v)) f (Ok d2) = Ok a2.
Proof.
  unfold fit_dict, carrier in *.
  revert d1 d2. induction f as [| entry f IH]; intros d1 d2; simpl.
  - split.
    + intros H. injection H as <- <-. now split.
    + intros [H1 H2]. injection H1 as <-. injection H2 as <-. reflexivity.
  - destruct (py_get (snd entry) "alpha1") as [v1 | e1]; simpl.
    + destruct (py_get (snd entry) "alpha2") as [v2 | e2]; simpl.
      * apply IH.
      * split; [intros H; fold_err H | intros [_ H]; fold_err H].
    + split; [intros H; fold_err H | intros [H _]; fold_err H].
Qed.

Lemma collect_alpha_Ok (f : fit_dict) (a1 a2 : list (carrier * coeff)) :
  collect_alpha f = Ok (a1, a2)
  <-> collect f "alpha1" = Ok a1 /\ collect f "alpha2" = Ok a2.
Proof. apply collect_alpha_from. Qed.

Lemma collect_piecewise_from (f : fit_dict) (bp0 bp : option coeff)
    (d1 d2 a1 a2 : list (carrier * coeff)) :
  fold_left (fun acc entry =>
               d <- acc ;;
               bp <- py_get (snd entry) "bp_x" ;;
               a1 <- py_get (snd entry) "alpha1" ;;
               a2 <- py_get (snd entry) "alpha2" ;;
               Ok (Some bp, (py_set (fst (snd d)) (fst entry) a1,
                             py_set (snd (snd d)) (fst entry) a2)))
            f (Ok (bp0, (d1, d2))) = Ok (bp, (a1, a2))
  <-> fold_left (fun acc entry =>
                   _ <- acc ;;
                   v <- py_get (snd entry) "bp_x" ;;
                   Ok (Some v)) f (Ok bp0) = Ok bp
      /\ fold_left (fun acc entry =>
                      d <- acc ;;
                      v <- py_get (snd entry) "alpha1" ;;
                      Ok (py_set d (fst entry) v)) f (Ok d1) = Ok a1
      /\ fold_left (fun acc entry =>
                      d <- acc ;;
                      v <- py_get (snd entry) "alpha2" ;;
                      Ok (py_set d (fst entry) v)) f (Ok d2) = Ok a2.
Proof.
  unfold fit_dict, carrier in *.
  revert bp0 d1 d2. induction f as [| entry f IH]; intros bp0 d1 d2; simpl.
  - split.
    + intros H. injection H as <- <- <-. now repeat split.
    + intros (H0 & H1 & H2). injection H0 as <-. injection H1 as <-.
      injection H2 as <-. reflexivity.
  - destruct (py_get (snd entry) "bp_x") as [v0 | e0]; simpl.
    + destruct (py_get (snd entry) "alpha1") as [v1 | e1]; simpl.
      * destruct (py_get (snd entry) "alpha2") as [v2 | e2]; simpl.
        -- apply IH.
        -- split; [intros H; fold_err H | intros (_ & _ & H); fold_err H].
      * split; [intros H; fold_err H | intros (_ & H & _); fold_err H].
    + split; [intros H; fold_err H | intros (H & _ & _); fold_err H].
Qed.

Lemma collect_piecewise_Ok (f : fit_dict) (bp : option coeff)
    (a1 a2 : list (carrier * coeff)) :
  collect_piecewise f = Ok (bp, (a1, a2))
  <-> collect_bp_x f = Ok bp
      /\ collect f "alpha1" = Ok a1 /\ collect f "alpha2" = Ok a2.
Proof. apply collect_piecewise_from. Qed.

(** ** What each performance function adds *)

Lemma declare_var_x_inputs (self : Conv3) (b : Block) :
  set_input_carriers (declare_var_x self b) = set_input_carriers b.
Proof. apply (extends_declare_var_x self b). Qed.

Lemma declare_var_x_outputs (self : Conv3) (b : Block) :
  set_output_carriers (declare_var_x self b) = set_output_carriers b.
Proof. apply (extends_declare_var_x self b). Qed.

Lemma extends_disjunctions_after_var_x (self : Conv3) (b : Block) ds :
  extends b (add_disjunctions (declare_var_x self b) ds) [] ds.
Proof.
  apply (extends_trans (extends_declare_var_x self b)
                       (extends_add_disjunctions _ ds)).
Qed.

Lemma type_1_spec (self : Conv3) (b b' : Block) :
  _performance_function_type_1 self b = Ok b' ->
  exists cs, extends b b' cs [].
Proof.
  unfold _performance_function_type_1. intros H.
  bind_inv H. bind_inv H. bind_inv H.
  destruct (negb _).
  - bind_inv H. injection H as <-. eexists.
    apply (extends_trans (extends_add_constraints b _)
                         (extends_add_constraints _ _)).
  - injection H as <-. eexists. apply extends_add_constraints.
Qed.

Lemma type_2_spec (self : Conv3) (b b' : Block) :
  _performance_function_type_2 self b = Ok b' ->
  exists alpha1 alpha2 ds,
    extends b b' [] ds
    /\ build_disjunction "dis_input_output" "disjunction_input_output"
         (T2.init_input_output self (declare_var_x self b) alpha1 alpha2)
         (set_t_performance (base self)) (range 0 2) = Ok ds.
Proof.
  unfold _performance_function_type_2. intros H.
  bind_inv H. bind_inv H. bind_inv H. injection H as <-.
  do 3 eexists. split; [apply extends_disjunctions_after_var_x | eassumption].
Qed.

Lemma type_3_spec (self : Conv3) (b b' : Block) :
  _performance_function_type_3 self b = Ok b' ->
  exists bp_x alpha1 alpha2 n ds,
    extends b b' [] ds
    /\ coeff_len bp_x = Ok n
    /\ build_disjunction "dis_input_output" "disjunction_input_output"
         (T3.init_input_output self (declare_var_x self b) bp_x alpha1 alpha2)
         (set_t_performance (base self)) (range 0 n) = Ok ds.
Proof.
  unfold _performance_function_type_3. intros H.
  bind_inv H. bind_inv H. bind_inv H. bind_inv H.
  bind_inv H. injection H as <-.
  do 5 eexists.
  split; [apply extends_disjunctions_after_var_x | split; eassumption].
Qed.

Lemma type_4_spec (self : Conv3) (b b' : Block) :
  _performance_function_type_4 self b = Ok b' ->
  exists bp_x alpha1 alpha2 su sd n ds,
    extends b b' [] ds
    /\ coeff_len bp_x = Ok n
    /\ build_disjunction "dis_SUSD_trajectory" "disjunction_SUSD_traject"
         (T4.init_SUSD_trajectories self b bp_x alpha1 alpha2 su sd)
         (set_t_full (base self)) (range 0 (su + sd + n)) = Ok ds.
Proof.
  unfold _performance_function_type_4. intros H.
  bind_inv H. bind_inv H. bind_inv H. bind_inv H.
  destruct (normalise_SU_SD _ _) as [su sd].
  bind_inv H. bind_inv H. bind_inv H. injection H as <-.
  do 7 eexists.
  split; [apply extends_add_disjunctions | split; eassumption].
Qed.

(** ** Facts about the disjunct rules *)

(** Every disjunct of types 2 and 3 states [var_x[t] == 0] or
    [var_x[t] == 1]. *)
Lemma T2_pins_x self b a1 a2 t ind cs :
  T2.init_input_output self b a1 a2 t ind = Ok cs ->
  In (x_off t) cs \/ In (x_on t) cs.
Proof.
  unfold T2.init_input_output. destruct (ind =? 0); intros H;
    bind_inv H; bind_inv H; injection H as <-; [left | right]; apply in_eq.
Qed.

Lemma T3_pins_x self b bp a1 a2 t ind cs :
  T3.init_input_output self b bp a1 a2 t ind = Ok cs ->
  In (x_off t) cs \/ In (x_on t) cs.
Proof.
  unfold T3.init_input_output. destruct (ind =? 0); intros H.
  - bind_inv H. bind_inv H. injection H as <-. left; apply in_eq.
  - bind_inv H. bind_inv H. bind_inv H. bind_inv H. injection H as <-.
    right; apply in_eq.
Qed.

(** So does every disjunct of type 4 at an indicator of [range(0, n)]. *)
Lemma T4_pins_x self b bp a1 a2 su sd t ind cs :
  0 <= ind ->
  T4.init_SUSD_trajectories self b bp a1 a2 su sd t ind = Ok cs ->
  In (x_off t) cs \/ In (x_on t) cs.
Proof.
  intros Hind. unfold T4.init_SUSD_trajectories, in_range.
  destruct (ind =? 0) eqn:E0;
    [| destruct ((1 <=? ind) && (ind <? su + 1)) eqn:E1;
       [| destruct ((su + 1 <=? ind) && (ind <? su + sd + 1)) eqn:E2;
          [| destruct (ind >? su + sd) eqn:E3]]];
    intros H.
  - bind_inv H. bind_inv H. bind_inv H. bind_inv H. bind_inv H.
    injection H as <-. left; apply in_eq.
  - bind_inv H. bind_inv H. bind_inv H. bind_inv H. bind_inv H.
    injection H as <-. left; apply in_eq.
  - bind_inv H. bind_inv H. bind_inv H. bind_inv H. bind_inv H.
    injection H as <-. left; apply in_eq.
  - bind_inv H. bind_inv H. bind_inv H. bind_inv H. bind_inv H.
    injection H as <-. right; apply in_eq.
  - exfalso. apply Z.eqb_neq in E0.
    apply andb_false_iff in E1, E2.
    rewrite Z.leb_gt, Z.ltb_ge in E1, E2.
    assert (E3' : ~ ind > su + sd)
      by (rewrite Z.gtb_ltb in E3; apply Z.ltb_ge in E3; lia).
    lia.
Qed.

(** A solution of a disjunct that pins [var_x] has [var_x] at 0 or 1. *)
Lemma pinned_x_value (rho : valuation) (t : Z) (cs : list Constraint) :
  In (x_off t) cs \/ In (x_on t) cs ->
  sat_constraints rho cs = true ->
  (rho (var_x t) == 0)%Q \/ (rho (var_x t) == 1)%Q.
Proof.
  intros [H | H] Hsat; [left | right];
    apply (sat_eq Hsat H).
Qed.

Section off_rules.
Variables (self : Conv3) (b : Block) (t : Z).

Lemma output_off_forced (rule : carrier -> result (option rel))
    (cn : string) (cs : list Constraint) (rho : valuation) :
  (forall car, rule car = Ok (Some (EqC (Var (output t car)) (Num 0)))) ->
  build_constraint cn AtCar rule (set_output_carriers b) = Ok cs ->
  sat_constraints rho cs = true ->
  forall car, In car (set_output_carriers b) -> (rho (output t car) == 0)%Q.
Proof.
  intros Hrule Hb Hsat car Hcar.
  apply (sat_eq Hsat (build_constraint_in Hb Hcar (Hrule car))).
Qed.

Lemma input_off_forced (rule : carrier -> result (option rel))
    (cn : string) (cs : list Constraint) (rho : valuation) :
  (forall car, rule car = Ok (Some (EqC (Var (input t car)) (Num 0)))) ->
  build_constraint cn AtCar rule (set_input_carriers b) = Ok cs ->
  sat_constraints rho cs = true ->
  forall car, In car (set_input_carriers b) -> (rho (input t car) == 0)%Q.
Proof.
  intros Hrule Hb Hsat car Hcar.
  apply (sat_eq Hsat (build_constraint_in Hb Hcar (Hrule car))).
Qed.

(** The standby rule shared by types 2 and 3. *)
Lemma standby_forced (rule : carrier -> result (option rel))
    (cn : string) (cs : list Constraint) (rho : valuation) :
  (forall car,
      rule car
      = if String.eqb car (main_carrier self) then
          Ok (Some (EqC (Var (input t (standby_carrier self)))
                        (scaled_size self (standby_power (coeff_ti self)))))
        else Ok (Some (EqC (Var (input t car)) (Num 0)))) ->
  build_constraint cn AtCar rule (set_input_carriers b) = Ok cs ->
  sat_constraints rho cs = true ->
  In (main_carrier self) (set_input_carriers b) ->
  (rho (input t (standby_carrier self))
   == standby_power (coeff_ti self) * rho var_size * rated_power (base self))%Q
  /\ forall car, In car (set_input_carriers b) -> car <> main_carrier self ->
                 (rho (input t car) == 0)%Q.
Proof.
  intros Hrule Hb Hsat Hmain. split.
  - assert (Hr := Hrule (main_carrier self)). rewrite String.eqb_refl in Hr.
    apply (sat_eq Hsat (build_constraint_in Hb Hmain Hr)).
  - intros car Hcar Hne. assert (Hr := Hrule car).
    apply String.eqb_neq in Hne. rewrite Hne in Hr.
    apply (sat_eq Hsat (build_constraint_in Hb Hcar Hr)).
Qed.
End off_rules.

Lemma sat_constraints_app (rho : valuation) (l1 l2 : list Constraint) :
  sat_constraints rho (l1 ++ l2) = true <->
  sat_constraints rho l1 = true /\ sat_constraints rho l2 = true.
Proof. unfold sat_constraints. rewrite forallb_app. apply andb_true_iff. Qed.

Lemma sat_constraints_cons (rho : valuation) (c : Constraint) (l : list Constraint) :
  sat_constraints rho (c :: l) = true <->
  holds rho (cbody c) = true /\ sat_constraints rho l = true.
Proof. unfold sat_constraints. simpl. apply andb_true_iff. Qed.

(** Closes the goals about an off disjunct of types 2 and 3, given the
    constraints of its inputs ([Hin]) and of its outputs ([Hout]). *)
Ltac off_branch self b t rho Hx Ha Hin Ha0 Hout :=
  split; [now apply Qeq_bool_iff in Hx |];
  split;
  [ eapply output_off_forced; [| exact Ha0 | exact Hout]; intros; reflexivity |];
  let E := fresh "E" in
  destruct (Qeq_bool (standby_power (coeff_ti self)) (-1)) eqn:E;
  [ apply Qeq_bool_iff in E; split; [| intros Hne; now destruct Hne];
    intros _;
    eapply input_off_forced; [| exact Ha | exact Hin]; intros; reflexivity
  | apply Qeq_bool_neq in E; split; [intros He; now destruct E |];
    intros _ Hmain;
    let Hs := fresh "Hs" in
    let Ho := fresh "Ho" in
    destruct (standby_forced self b t _ _ _ rho (fun _ => eq_refl) Ha Hin Hmain)
      as [Hs Ho];
    split; [exact Hs | exact Ho] ].

Lemma T2_off_forces self b a1 a2 t cs :
  T2.init_input_output self b a1 a2 t 0 = Ok cs ->
  off_branch_forces self b t cs.
Proof.
  unfold T2.init_input_output. simpl. intros H. bind_inv H. bind_inv H.
  injection H as <-. intros rho Hsat.
  apply sat_constraints_cons in Hsat as [Hx Hsat].
  apply sat_constraints_app in Hsat as [Hin Hout].
  off_branch self b t rho Hx Ha Hin Ha0 Hout.
Qed.

Lemma T3_off_forces self b bp a1 a2 t cs :
  T3.init_input_output self b bp a1 a2 t 0 = Ok cs ->
  off_branch_forces self b t cs.
Proof.
  unfold T3.init_input_output. simpl. intros H. bind_inv H. bind_inv H.
  injection H as <-. intros rho Hsat.
  apply sat_constraints_cons in Hsat as [Hx Hsat].
  apply sat_constraints_app in Hsat as [Hin Hout].
  off_branch self b t rho Hx Ha Hin Ha0 Hout.
Qed.

(** ** The stages of [construct_tech_model] *)

Lemma T4_off_forces self b bp a1 a2 su sd t cs :
  T4.init_SUSD_trajectories self b bp a1 a2 su sd t 0 = Ok cs ->
  off_branch_4_forces b t cs.
Proof.
  unfold T4.init_SUSD_trajectories. simpl. intros H.
  bind_inv H. clear a Ha.
  bind_inv H. bind_inv H. bind_inv H. bind_inv H. injection H as <-.
  intros rho Hsat.
  apply sat_constraints_cons in Hsat as [Hx Hsat].
  apply sat_constraints_app in Hsat as [_ Hsat].
  apply sat_constraints_app in Hsat as [_ Hsat].
  apply sat_constraints_app in Hsat as [Hin Hout].
  split; [now apply Qeq_bool_iff in Hx |]. split.
  - eapply input_off_forced; [| exact Ha1 | exact Hin]. intros; reflexivity.
  - eapply output_off_forced; [| exact Ha2 | exact Hout]. intros; reflexivity.
Qed.

Lemma build_constraint_names {I : Type} cn (mk : I -> cidx) rule idx cs c :
  build_constraint cn mk rule idx = Ok cs -> In c cs -> cname c = cn.
Proof.
  intros H Hc. destruct (build_constraint_inv _ _ H c Hc) as (_ & _ & _ & Hn & _).
  exact Hn.
Qed.

(** The performance functions add no constraint with a ramping name. *)
Lemma performance_function_extends (self : Conv3) (b b' : Block) :
  performance_function self b = Ok b' ->
  exists cs ds, extends b b' cs ds
                /\ (forall c, In c cs -> ~ ramping_named c)
                /\ (performance_function_type (options self) = 1 -> ds = []).
Proof.
  unfold performance_function. intros H.
  destruct (_ =? 1) eqn:E1; [| destruct (_ =? 2) eqn:E2;
    [| destruct (_ =? 3) eqn:E3; [| destruct (_ =? 4) eqn:E4]]].
  - unfold _performance_function_type_1 in H.
    bind_inv H. bind_inv H. bind_inv H.
    assert (N1 : forall c, In c a1 -> ~ ramping_named c).
    { intros c Hc [N | N];
        rewrite (build_constraint_names _ _ _ _ _ _ Ha1 Hc) in N; discriminate. }
    destruct (negb _).
    + bind_inv H. injection H as <-. do 2 eexists. split; [| split].
      * apply (extends_trans (extends_add_constraints b _)
                             (extends_add_constraints _ _)).
      * intros c [Hc | Hc]%in_app_iff; [now apply N1 |].
        intros [N | N];
          rewrite (build_constraint_names _ _ _ _ _ _ Ha2 Hc) in N; discriminate.
      * reflexivity.
    + injection H as <-. do 2 eexists. split; [| split].
      * apply extends_add_constraints.
      * exact N1.
      * reflexivity.
  - apply Z.eqb_eq in E2. destruct (type_2_spec _ _ _ H) as (? & ? & ds & He & _).
    exists [], ds. split; [assumption | split; [intros c [] | lia]].
  - apply Z.eqb_eq in E3.
    destruct (type_3_spec _ _ _ H) as (? & ? & ? & ? & ds & He & _).
    exists [], ds. split; [assumption | split; [intros c [] | lia]].
  - apply Z.eqb_eq in E4.
    destruct (type_4_spec _ _ _ H) as (? & ? & ? & ? & ? & ? & ds & He & _).
    exists [], ds. split; [assumption | split; [intros c [] | lia]].
  - injection H as <-. exists [], []. split; [apply extends_refl |].
    split; [intros c [] | reflexivity].
Qed.

Lemma input_ratio_spec (self : Conv3) (b b' : Block) :
  input_ratio_constraints self b = Ok b' ->
  exists phi cs ds,
    get_phi self = Ok phi
    /\ extends b b' cs ds
    /\ (forall c, In c cs -> cname c = "const_input_input")
    /\ (forall d, In d ds -> disjunction_name d = "disjunction_input_input")
    /\ if Qeq_bool (standby_power (coeff_ti self)) (-1) then
         ds = []
         /\ build_constraint "const_input_input"
              (fun i => AtTCar (fst i) (snd i)) (CTM.init_input_input self phi)
              (cross (set_t_performance (base self)) (set_input_carriers b))
            = Ok cs
       else
         cs = []
         /\ build_disjunction "dis_input_input" "disjunction_input_input"
              (CTM.init_input_input_dis self b phi)
              (set_t_performance (base self)) (range 0 2) = Ok ds.
Proof.
  unfold input_ratio_constraints. intros H. bind_inv H. exists a.
  destruct (Qeq_bool (standby_power (coeff_ti self)) (-1)).
  - bind_inv H. injection H as <-. exists a0, [].
    split; [assumption |]. split; [apply extends_add_constraints |].
    split; [intros c Hc; apply (build_constraint_names _ _ _ _ _ _ Ha0 Hc) |].
    split; [intros d [] | auto].
  - bind_inv H. injection H as <-. exists [], a0.
    split; [assumption |]. split; [apply extends_add_disjunctions |].
    split; [intros c [] |].
    split; [intros d Hd; apply (build_disjunction_name _ _ _ _ _ _ _ Ha0 Hd) |].
    auto.
Qed.

Lemma define_ramping_rates_spec (self : Conv3) (b : Block) (data : Data)
    (b' : Block) :
  _define_ramping_rates self b data = Ok b' ->
  exists rt rate,
    ramping_time (dynamics (base self)) = Some rt
    /\ ramping_rate_of (dynamics (base self)) rt = Ok rate
    /\ if integer_coupled self then
         exists ds,
           extends b b' [] ds
           /\ build_disjunction "dis_ramping_operation_on"
                "disjunction_ramping_operation_on"
                (RR.init_ramping_operation_on self b rate)
                (set_t_performance (base self)) (range 0 3) = Ok ds
       else
         exists link c_down c_up,
           extends b b' (link ++ c_down ++ c_up) []
           /\ (forall c, In c link ->
                         cname c = "const_link_full_resolution_rr")
           /\ build_constraint "const_ramping_down_rate" AtT
                (RR.init_ramping_down_rate self rate
                   (fst (ramping_series self data)))
                (snd (ramping_series self data)) = Ok c_down
           /\ build_constraint "const_ramping_up_rate" AtT
                (RR.init_ramping_up_rate self rate
                   (fst (ramping_series self data)))
                (snd (ramping_series self data)) = Ok c_up.
Proof.
  unfold _define_ramping_rates. intros H. bind_inv H. bind_inv H.
  assert (Hrt : ramping_time (dynamics (base self)) = Some a)
    by (destruct (ramping_time _); [injection Ha as <- | discriminate];
        reflexivity).
  exists a, a0. split; [assumption |]. split; [assumption |].
  destruct (integer_coupled self).
  - bind_inv H. injection H as <-. eexists.
    split; [apply extends_add_disjunctions | eassumption].
  - bind_as H aux Haux. destruct aux as [[b1 aux] set_t_rr].
    bind_as H c_down Hdown. bind_as H c_up Hup. injection H as <-.
    unfold ramping_series. destruct (typicaldays_N data =? 0).
    + injection Haux as <- <- <-. exists [], c_down, c_up. simpl.
      split; [| split; [intros c [] | split; assumption]].
      apply (extends_trans (extends_add_constraints b _)
                           (extends_add_constraints _ _)).
    + bind_as Haux sq Hsq. bind_as Haux link Hlink.
      injection Haux as <- <- <-.
      exists link, c_down, c_up. simpl.
      split; [| split; [| split; assumption]].
      * apply (extends_trans (extends_add_variable b _)
                 (extends_trans (extends_add_constraints _ link)
                    (extends_trans (extends_add_constraints _ c_down)
                                   (extends_add_constraints _ c_up)))).
      * intros c Hc. unfold link_full_resolution_to_clustered in Hlink.
        apply (build_constraint_names _ _ _ _ _ _ Hlink Hc).
Qed.

Lemma construct_spec (self : Conv3) (b : Block) (data : Data) (b' : Block) :
  construct_tech_model self b data = Ok b' ->
  exists b1 b2 c_size,
    performance_function self b = Ok b1
    /\ input_ratio_constraints self b1 = Ok b2
    /\ build_constraint "const_size" AtT (CTM.init_size_constraint self)
         (set_t_performance (base self)) = Ok c_size
    /\ match ramping_time (dynamics (base self)) with
       | Some rt =>
           if negb (Qeq_bool rt (-1))
           then _define_ramping_rates self (add_constraints b2 c_size) data
                = Ok b'
           else b' = add_constraints b2 c_size
       | None => b' = add_constraints b2 c_size
       end.
Proof.
  unfold construct_tech_model. intros H.
  bind_as H b1 H1. bind_as H b2 H2. bind_as H c_size H3.
  exists b1, b2, c_size. repeat split; try assumption.
  destruct (ramping_time (dynamics (base self))) as [rt |].
  - destruct (negb (Qeq_bool rt (-1))); [assumption | now injection H].
  - now injection H.
Qed.

(** The ramping step only appends to the block. *)
Lemma define_ramping_rates_extends (self : Conv3) (b : Block) (data : Data)
    (b' : Block) :
  _define_ramping_rates self b data = Ok b' ->
  exists cs ds, extends b b' cs ds.
Proof.
  intros H. destruct (define_ramping_rates_spec _ _ _ _ H) as (rt & rate & _ & _ & Hs).
  destruct (integer_coupled self).
  - destruct Hs as (ds & He & _). eauto.
  - destruct Hs as (link & cd & cu & He & _). eauto.
Qed.

(** [construct_tech_model] only appends to the block of the performance
    function, and the size constraints are among what it appends. *)
Lemma construct_extends (self : Conv3) (b : Block) (data : Data) (b' : Block) :
  construct_tech_model self b data = Ok b' ->
  exists b1 cs ds,
    performance_function self b = Ok b1
    /\ extends b1 b' cs ds
    /\ forall t, In t (set_t_performance (base self)) ->
                 In (size_constraint_at self t) cs.
Proof.
  intros H. destruct (construct_spec _ _ _ _ H) as (b1 & b2 & c_size & H1 & H2 & H3 & H4).
  destruct (input_ratio_spec _ _ _ H2) as (phi & cs2 & ds2 & _ & He2 & _).
  assert (Hsize : forall t, In t (set_t_performance (base self)) ->
                            In (size_constraint_at self t) c_size).
  { intros t Ht. apply (build_constraint_in H3 Ht eq_refl). }
  assert (He3 := extends_trans He2 (extends_add_constraints b2 c_size)).
  assert (Hgate : exists cs ds, extends (add_constraints b2 c_size) b' cs ds).
  { destruct (ramping_time (dynamics (base self))) as [rt |].
    - destruct (negb (Qeq_bool rt (-1))).
      + now apply define_ramping_rates_extends in H4.
      + subst b'. exists [], []. apply extends_refl.
    - subst b'. exists [], []. apply extends_refl. }
  destruct Hgate as (cs4 & ds4 & He4).
  exists b1. do 2 eexists. split; [assumption |].
  split; [apply (extends_trans He3 He4) |].
  intros t Ht. apply in_or_app. left. apply in_or_app. right. now apply Hsize.
Qed.

(** ** The size constraint *)

(** C5: for every function type and every step [t] of the performance time
    set, the block [construct_tech_model] returns holds
    [input[t, main] <= var_size * rated_power] among its plain constraints
    (outside every disjunction), so every solution satisfies it. *)
Theorem size_constraint_unconditional (self : Conv3) (b : Block) (data : Data)
    (b' : Block) (t : Z) :
  construct_tech_model self b data = Ok b' ->
  In t (set_t_performance (base self)) ->
  In (size_constraint_at self t) (constraints b')
  /\ forall rho, feasible rho b' = true ->
                 (rho (input t (main_carrier self))
                  <= rho var_size * rated_power (base self))%Q.
Proof.
  intros H Ht.
  destruct (construct_extends _ _ _ _ H) as (b1 & cs & ds & _ & He & Hsize).
  assert (Hin : In (size_constraint_at self t) (constraints b')).
  { apply (extends_in_constraints _ He). right. now apply Hsize. }
  split; [exact Hin |].
  intros rho Hf. apply feasible_constraints in Hf.
  apply (sat_le Hf Hin).
Qed.

(** ** The on-indicator *)

(** The mode disjunction of types 2, 3 and 4: one disjunction per step of
    its index set, every disjunct of which pins [var_x]. *)
Lemma mode_disjunction_pins_x (self : Conv3) (b b1 : Block) :
  In (performance_function_type (options self)) [2; 3; 4] ->
  performance_function self b = Ok b1 ->
  exists ds,
    extends b b1 [] ds
    /\ (forall t, In t (mode_set_t self) ->
                  exists d, In d ds /\ disjunction_t d = t)
    /\ forall d dj, In d ds -> In dj (disjuncts d) ->
                    In (x_off (disjunction_t d)) (dis_constraints dj)
                    \/ In (x_on (disjunction_t d)) (dis_constraints dj).
Proof.
  intros Hpft H. unfold performance_function, mode_set_t in *.
  simpl in Hpft.
  destruct Hpft as [E | [E | [E | []]]]; rewrite <- E in *; simpl in *.
  - destruct (type_2_spec _ _ _ H) as (a1 & a2 & ds & He & Hb).
    exists ds. split; [assumption |]. split.
    + intros t Ht. apply (build_disjunction_in _ _ _ _ _ _ Hb t Ht).
    + intros d dj Hd Hdj.
      destruct (build_disjunction_inv _ _ _ _ _ _ Hb d dj Hd Hdj)
        as (_ & ind & _ & Hr & _).
      apply (T2_pins_x _ _ _ _ _ _ _ Hr).
  - destruct (type_3_spec _ _ _ H) as (bp & a1 & a2 & n & ds & He & _ & Hb).
    exists ds. split; [assumption |]. split.
    + intros t Ht. apply (build_disjunction_in _ _ _ _ _ _ Hb t Ht).
    + intros d dj Hd Hdj.
      destruct (build_disjunction_inv _ _ _ _ _ _ Hb d dj Hd Hdj)
        as (_ & ind & _ & Hr & _).
      apply (T3_pins_x _ _ _ _ _ _ _ _ Hr).
  - destruct (type_4_spec _ _ _ H)
      as (bp & a1 & a2 & su & sd & n & ds & He & _ & Hb).
    exists ds. split; [assumption |]. split.
    + intros t Ht. apply (build_disjunction_in _ _ _ _ _ _ Hb t Ht).
    + intros d dj Hd Hdj.
      destruct (build_disjunction_inv _ _ _ _ _ _ Hb d dj Hd Hdj)
        as (_ & ind & Hind & Hr & _).
      apply in_range_iff in Hind.
      apply (T4_pins_x _ _ _ _ _ _ _ _ _ _ (proj1 Hind) Hr).
Qed.

(** C8: for function types 2, 3 and 4 the block [construct_tech_model]
    returns holds, for every step [t] of the index set of the mode
    disjunction, a disjunction all of whose disjuncts state [var_x[t] == 0] or
    [var_x[t] == 1]; so in every solution [var_x[t]] is 0 or 1, although
    types 2 and 3 declare [var_x] as a real variable with the bounds (0, 1)
    when the block has none. *)
Theorem on_indicator_integral (self : Conv3) (b : Block) (data : Data)
    (b' : Block) :
  In (performance_function_type (options self)) [2; 3; 4] ->
  construct_tech_model self b data = Ok b' ->
  (forall t, In t (mode_set_t self) ->
             exists d, In d (disjunctions b') /\ disjunction_t d = t
                       /\ forall dj, In dj (disjuncts d) ->
                                     In (x_off t) (dis_constraints dj)
                                     \/ In (x_on t) (dis_constraints dj))
  /\ (forall t rho, In t (mode_set_t self) -> feasible rho b' = true ->
                    (rho (var_x t) == 0)%Q \/ (rho (var_x t) == 1)%Q)
  /\ (In (performance_function_type (options self)) [2; 3] ->
      find_component b "var_x" = false ->
      In (mkVarDecl "var_x" (set_t_performance (base self)) true
                    (Some (0 # 1, 1 # 1)%Q))
         (variables b')).
Proof.
  intros Hpft H.
  destruct (construct_extends _ _ _ _ H) as (b1 & cs & ds & H1 & He & _).
  destruct (mode_disjunction_pins_x _ _ _ Hpft H1) as (ds1 & He1 & Hall & Hpin).
  assert (Hd : forall t, In t (mode_set_t self) ->
             exists d, In d (disjunctions b') /\ disjunction_t d = t
                       /\ forall dj, In dj (disjuncts d) ->
                                     In (x_off t) (dis_constraints dj)
                                     \/ In (x_on t) (dis_constraints dj)).
  { intros t Ht. destruct (Hall t Ht) as (d & Hd & Et). exists d.
    split; [| split; [assumption |]].
    - apply (extends_in_disjunctions _ He). left.
      apply (extends_in_disjunctions _ He1). now right.
    - intros dj Hdj. rewrite <- Et. now apply Hpin. }
  split; [exact Hd |]. split.
  - intros t rho Ht Hf. destruct (Hd t Ht) as (d & Hin & _ & Hp).
    destruct (feasible_disjunction _ _ _ Hf Hin) as (dj & Hdj & Hsat).
    apply (pinned_x_value _ _ _ (Hp dj Hdj) Hsat).
  - intros H23 Hfind. apply (ext_variables _ _ _ _ He).
    unfold performance_function in H1. simpl in H23.
    destruct H23 as [E | [E | []]]; rewrite <- E in H1; simpl in H1.
    + unfold _performance_function_type_2 in H1.
      bind_as H1 f Hf. bind_as H1 a12 Ha12.
      bind_as H1 d Hdd. injection H1 as <-. simpl.
      now apply declare_var_x_declares.
    + unfold _performance_function_type_3 in H1.
      bind_as H1 f Hf. bind_as H1 fitted Hfitted.
      bind_as H1 bpx Hbpx. bind_as H1 n Hn.
      bind_as H1 d Hdd. injection H1 as <-. simpl.
      now apply declare_var_x_declares.
Qed.

Lemma size_constraint_unconditional_witness :
  In (size_constraint_at ex_type2 1)
     (constraints (built ex_type2 ex_block ex_data))
  /\ forall rho, feasible rho (built ex_type2 ex_block ex_data) = true ->
                 (rho (input 1 "gas") <= rho var_size * (1 # 1))%Q.
Proof.
  apply (size_constraint_unconditional ex_type2 ex_block ex_data
           (built ex_type2 ex_block ex_data) 1).
  - vm_compute. reflexivity.
  - simpl. auto.
Defined.

Lemma on_indicator_integral_witness :
  feasible zero_valuation (built ex_type3_standby ex_block ex_data) = true
  /\ ((zero_valuation (var_x 1) == 0)%Q \/ (zero_valuation (var_x 1) == 1)%Q).
Proof.
  assert (Hf : feasible zero_valuation
                 (built ex_type3_standby ex_block ex_data) = true)
    by (vm_compute; reflexivity).
  split; [exact Hf |].
  assert (Hpft : In (performance_function_type (options ex_type3_standby))
                    [2; 3; 4]) by (simpl; auto).
  assert (Hc : construct_tech_model ex_type3_standby ex_block ex_data
               = Ok (built ex_type3_standby ex_block ex_data))
    by (vm_compute; reflexivity).
  destruct (on_indicator_integral ex_type3_standby ex_block ex_data
              (built ex_type3_standby ex_block ex_data) Hpft Hc)
    as (_ & Hx & _).
  apply (Hx 1 zero_valuation); [simpl; auto | exact Hf].
Defined.

(** ** The off branch and the standby options *)

(** The standby options are not read by the performance function of
    type 4. *)
Lemma type_4_ignores_standby (self : Conv3) (b : Block) (sp : Q)
    (spc : option carrier) :
  _performance_function_type_4 (with_standby self sp spc) b
  = _performance_function_type_4 self b.
Proof. reflexivity. Qed.

(** The performance functions of types 2 and 3 do read the standby
    power. *)
Lemma types_2_3_read_standby :
  _performance_function_type_2 (with_standby ex_type2 (1 # 10) None) ex_block
  <> _performance_function_type_2 ex_type2 ex_block
  /\ _performance_function_type_3
       (with_standby ex_type3_standby (-1) None) ex_block
     <> _performance_function_type_3 ex_type3_standby ex_block.
Proof. split; vm_compute; discriminate. Qed.

(** ** Ramping *)

Lemma ramping_rate_of_Ok (self : Conv3) (rt : Q) (rate : expr) :
  ramping_rate_of (dynamics (base self)) rt = Ok rate ->
  ~ (rt == 0)%Q
  /\ forall rho,
      (eval rho rate == ramping_rate_value self rho rt)%Q
      /\ (eval rho (py_neg rate) == - ramping_rate_value self rho rt)%Q.
Proof.
  unfold ramping_rate_of, ramping_rate_value.
  destruct (Qeq_bool rt 0) eqn:E0; [discriminate |].
  apply Qeq_bool_neq in E0. intros H. split; [assumption |]. intros rho.
  destruct (ref_size (dynamics (base self))) as [r |];
    [destruct (Qeq_bool r (-1)) |]; injection H as <-; simpl;
    split; reflexivity.
Qed.

Section ramping_rules.
Variables (self : Conv3) (rate : expr) (aux : Z -> carrier -> var)
          (set_t_rr : list Z) (c_down c_up : list Constraint).
Hypothesis Hdown :
  build_constraint "const_ramping_down_rate" AtT
    (RR.init_ramping_down_rate self rate aux) set_t_rr = Ok c_down.
Hypothesis Hup :
  build_constraint "const_ramping_up_rate" AtT
    (RR.init_ramping_up_rate self rate aux) set_t_rr = Ok c_up.

(** Both bounds are emitted at every step after the first. *)
Lemma ramping_constraints_in (t : Z) :
  In t set_t_rr -> 1 < t ->
  In (ramping_down_at self rate aux t) c_down
  /\ In (ramping_up_at self rate aux t) c_up.
Proof.
  intros Ht Hgt. apply Z.gtb_lt in Hgt. split.
  - apply (build_constraint_in Hdown Ht).
    unfold RR.init_ramping_down_rate. now rewrite Hgt.
  - apply (build_constraint_in Hup Ht).
    unfold RR.init_ramping_up_rate. now rewrite Hgt.
Qed.

(** No bound is emitted at a step that is not after the first. *)
Lemma ramping_constraints_inv (c : Constraint) :
  In c c_down \/ In c c_up ->
  exists t, cindex c = AtT t /\ In t set_t_rr /\ 1 < t.
Proof.
  intros [Hc | Hc].
  - destruct (build_constraint_inv _ _ Hdown c Hc) as (t & Ht & Hr & _ & Hi).
    exists t. repeat split; try assumption.
    unfold RR.init_ramping_down_rate in Hr.
    destruct (t >? 1) eqn:E; [now apply Z.gtb_lt | discriminate].
  - destruct (build_constraint_inv _ _ Hup c Hc) as (t & Ht & Hr & _ & Hi).
    exists t. repeat split; try assumption.
    unfold RR.init_ramping_up_rate in Hr.
    destruct (t >? 1) eqn:E; [now apply Z.gtb_lt | discriminate].
Qed.
End ramping_rules.

(** The block before the ramping step: the given block and what the
    performance function, the input ratios and the size constraint added. *)
Lemma construct_before_ramping (self : Conv3) (b : Block) (data : Data)
    (b' : Block) :
  construct_tech_model self b data = Ok b' ->
  exists b3 cs ds,
    extends b b3 cs ds
    /\ (forall c, In c cs -> ~ ramping_named c)
    /\ (performance_function_type (options self) = 1 ->
        forall d, In d ds -> disjunction_name d = "disjunction_input_input")
    /\ match ramping_time (dynamics (base self)) with
       | Some rt =>
           if negb (Qeq_bool rt (-1))
           then _define_ramping_rates self b3 data = Ok b'
           else b' = b3
       | None => b' = b3
       end.
Proof.
  intros H.
  destruct (construct_spec _ _ _ _ H) as (b1 & b2 & c_size & H1 & H2 & H3 & H4).
  destruct (performance_function_extends _ _ _ H1) as (cs1 & ds1 & He1 & N1 & D1).
  destruct (input_ratio_spec _ _ _ H2) as (phi & cs2 & ds2 & _ & He2 & N2 & D2 & _).
  exists (add_constraints b2 c_size). do 2 eexists.
  split; [| split; [| split; [| exact H4]]].
  - apply (extends_trans He1
             (extends_trans He2 (extends_add_constraints b2 c_size))).
  - intros c [Hc | [Hc | Hc]%in_app_iff]%in_app_iff.
    + now apply N1.
    + intros [N | N]; rewrite (N2 c Hc) in N; discriminate.
    + intros [N | N];
        rewrite (build_constraint_names _ _ _ _ _ _ H3 Hc) in N; discriminate.
  - intros E d Hd. rewrite (D1 E) in Hd. simpl in Hd.
    rewrite app_nil_r in Hd. now apply D2.
Qed.

(** C2, as stated, fails: with [rated_power = 0.5], [ramping_time = 2] and
    no reference size, a solution of the whole block has size 10 and a main
    input that rises from 1.5 to 5, by more than
    [size * rated_power / ramping_time = 2.5]. *)
Lemma ramping_bound_counterexample :
  construct_tech_model ex_type1_ramping ex_block ex_data
  = Ok (built ex_type1_ramping ex_block ex_data)
  /\ feasible ramping_valuation (built ex_type1_ramping ex_block ex_data) = true
  /\ ~ (Qabs (ramping_valuation (input 2 "gas")
              - ramping_valuation (input 1 "gas"))
        <= ramping_valuation var_size * (1 # 2) / (2 # 1))%Q.
Proof.
  split; [vm_compute; reflexivity |]. split; [vm_compute; reflexivity |].
  intros H. vm_compute in H. now apply H.
Qed.

(** C2 (as the code has it): when ramping is enabled and the formulation
    without integers applies, [ramping_time] is not 0 and every solution of
    the block [construct_tech_model] returns has, at every step [t > 1] of
    the ramping series (the input, or the full-resolution auxiliary input
    with typical days),
    [|series[t, main] - series[t-1, main]| <= size / ramping_time], with
    [ref_size] in the place of [size] when one is configured; rated power is
    not a factor of the bound.  Every ramping constraint the construction
    adds is indexed by a step [t > 1] of that series. *)
Theorem ramping_bound (self : Conv3) (b : Block) (data : Data) (b' : Block)
    (rt : Q) :
  construct_tech_model self b data = Ok b' ->
  ramping_time (dynamics (base self)) = Some rt ->
  ~ (rt == -1)%Q ->
  integer_coupled self = false ->
  ~ (rt == 0)%Q
  /\ (forall rho t,
         feasible rho b' = true ->
         In t (snd (ramping_series self data)) -> 1 < t ->
         (Qabs (rho (fst (ramping_series self data) t (main_carrier self))
                - rho (fst (ramping_series self data) (t - 1)%Z
                           (main_carrier self)))
          <= ramping_rate_value self rho rt)%Q)
  /\ (forall c, In c (constraints b') -> ramping_named c ->
                In c (constraints b)
                \/ exists t, cindex c = AtT t
                             /\ In t (snd (ramping_series self data))
                             /\ 1 < t).
Proof.
  intros H Hrt Hne Hic.
  destruct (construct_before_ramping _ _ _ _ H)
    as (b3 & cs & ds & He & Hnames & _ & Hgate).
  rewrite Hrt in Hgate.
  destruct (Qeq_bool rt (-1)) eqn:E; [now apply Qeq_bool_iff in E |].
  simpl in Hgate.
  destruct (define_ramping_rates_spec _ _ _ _ Hgate)
    as (rt' & rate & Hrt' & Hrate & Hs).
  rewrite Hrt in Hrt'. injection Hrt' as <-.
  rewrite Hic in Hs. destruct Hs as (link & cd & cu & He' & Hlink & Hd & Hu).
  destruct (ramping_rate_of_Ok _ _ _ Hrate) as [Hrt0 Hval].
  split; [exact Hrt0 |]. split.
  - intros rho t Hf Ht Hgt. apply feasible_constraints in Hf.
    destruct (ramping_constraints_in _ _ _ _ _ _ Hd Hu t Ht Hgt) as [Hin_d Hin_u].
    assert (Hd' : In (ramping_down_at self rate
                        (fst (ramping_series self data)) t) (constraints b'))
      by (apply (extends_in_constraints _ He'); right;
          apply in_or_app; right; apply in_or_app; now left).
    assert (Hu' : In (ramping_up_at self rate
                        (fst (ramping_series self data)) t) (constraints b'))
      by (apply (extends_in_constraints _ He'); right;
          apply in_or_app; right; apply in_or_app; now right).
    apply (sat_le Hf) in Hd'. apply (sat_le Hf) in Hu'.
    destruct (Hval rho) as [Hv Hn]. simpl in Hd', Hu'.
    rewrite Hn in Hd'. rewrite Hv in Hu'.
    apply Qabs_Qle_condition. split; assumption.
  - intros c Hc Hn.
    rewrite (ext_constraints _ _ _ _ He') in Hc.
    apply in_app_iff in Hc as [Hc | Hc].
    + rewrite (ext_constraints _ _ _ _ He) in Hc.
      apply in_app_iff in Hc as [Hc | Hc]; [now left |].
      now destruct (Hnames c Hc).
    + right. apply in_app_iff in Hc as [Hc | Hc].
      * destruct Hn as [N | N]; rewrite (Hlink c Hc) in N; discriminate.
      * apply in_app_iff in Hc. apply (ramping_constraints_inv _ _ _ _ _ _ Hd Hu c Hc).
Qed.

Lemma ramping_bound_witness :
  (Qabs (ramping_valuation (input 2 "gas") - ramping_valuation (input 1 "gas"))
   <= ramping_rate_value ex_type1_ramping ramping_valuation (2 # 1))%Q.
Proof.
  assert (Hc : construct_tech_model ex_type1_ramping ex_block ex_data
               = Ok (built ex_type1_ramping ex_block ex_data))
    by (vm_compute; reflexivity).
  assert (Hrt : ramping_time (dynamics (base ex_type1_ramping)) = Some (2 # 1))
    by reflexivity.
  assert (Hne : ~ (2 # 1 == -1)%Q) by (intros E; vm_compute in E; discriminate).
  assert (Hic : integer_coupled ex_type1_ramping = false) by reflexivity.
  destruct (ramping_bound ex_type1_ramping ex_block ex_data _ _ Hc Hrt Hne Hic)
    as (_ & Hbound & _).
  apply (Hbound ramping_valuation 2).
  - vm_compute. reflexivity.
  - simpl. auto.
  - lia.
Defined.

(** Type 1 never selects the formulation coupled to [var_x]. *)
Lemma type_1_not_integer_coupled (self : Conv3) :
  performance_function_type (options self) = 1 ->
  integer_coupled self = false.
Proof. intros E. unfold integer_coupled. now rewrite E. Qed.

(** On the native time index the ramping step does not raise, unless it
    divides by zero. *)
Lemma define_ramping_rates_total (self : Conv3) (b : Block) (data : Data)
    (rt : Q) :
  ramping_time (dynamics (base self)) = Some rt ->
  ~ (rt == 0)%Q ->
  integer_coupled self = false ->
  typicaldays_N data = 0 ->
  exists b', _define_ramping_rates self b data = Ok b'.
Proof.
  intros Hrt H0 Hic HN. unfold _define_ramping_rates.
  rewrite Hrt, Hic, HN. simpl.
  unfold ramping_rate_of.
  destruct (Qeq_bool rt 0) eqn:E; [now apply Qeq_bool_iff in E |].
  set (rate := match _ with Some r => Ok (Num (r / rt)) | None => _ end).
  assert (Hrate : exists e, rate = Ok e).
  { unfold rate. destruct (ref_size (dynamics (base self))) as [r |];
      [destruct (Qeq_bool r (-1)) |]; eauto. }
  destruct Hrate as (e & ->). simpl.
  destruct (build_constraint_total (cn := "const_ramping_down_rate")
              (mk := AtT) (rule := RR.init_ramping_down_rate self e input)
              (set_t_performance (base self))) as (cd & ->).
  { intros t _. unfold RR.init_ramping_down_rate. destruct (t >? 1); eauto. }
  destruct (build_constraint_total (cn := "const_ramping_up_rate")
              (mk := AtT) (rule := RR.init_ramping_up_rate self e input)
              (set_t_performance (base self))) as (cu & ->).
  { intros t _. unfold RR.init_ramping_up_rate. destruct (t >? 1); eauto. }
  simpl. eauto.
Qed.

(** C9: for function type 1 with ramping enabled, the test for the
    formulation coupled to [var_x] fails whatever [ramping_const_int] is; the
    block [construct_tech_model] returns holds no disjunction
    [disjunction_ramping_operation_on] that the given block did not hold,
    and it holds both ramping bounds without integers at every step [t > 1]
    of the ramping series. *)
Theorem type_1_ramping (self : Conv3) (b : Block) (data : Data) (b' : Block)
    (rt : Q) :
  performance_function_type (options self) = 1 ->
  construct_tech_model self b data = Ok b' ->
  ramping_time (dynamics (base self)) = Some rt ->
  ~ (rt == -1)%Q ->
  integer_coupled self = false
  /\ (forall d, In d (disjunctions b') ->
                disjunction_name d = "disjunction_ramping_operation_on" ->
                In d (disjunctions b))
  /\ exists rate,
      ramping_rate_of (dynamics (base self)) rt = Ok rate
      /\ forall t, In t (snd (ramping_series self data)) -> 1 < t ->
                   In (ramping_down_at self rate
                         (fst (ramping_series self data)) t) (constraints b')
                   /\ In (ramping_up_at self rate
                            (fst (ramping_series self data)) t)
                         (constraints b').
Proof.
  intros Epft H Hrt Hne.
  assert (Hic := type_1_not_integer_coupled _ Epft).
  split; [exact Hic |].
  destruct (construct_before_ramping _ _ _ _ H)
    as (b3 & cs & ds & He & _ & Hds & Hgate).
  rewrite Hrt in Hgate.
  destruct (Qeq_bool rt (-1)) eqn:E; [now apply Qeq_bool_iff in E |].
  simpl in Hgate.
  destruct (define_ramping_rates_spec _ _ _ _ Hgate)
    as (rt' & rate & Hrt' & Hrate & Hs).
  rewrite Hrt in Hrt'. injection Hrt' as <-.
  rewrite Hic in Hs. destruct Hs as (link & cd & cu & He' & _ & Hd & Hu).
  split.
  - intros d Hin Hname.
    rewrite (ext_disjunctions _ _ _ _ He'), app_nil_r in Hin.
    rewrite (ext_disjunctions _ _ _ _ He) in Hin.
    apply in_app_iff in Hin as [Hin | Hin]; [assumption |].
    rewrite (Hds Epft d Hin) in Hname. discriminate.
  - exists rate. split; [assumption |]. intros t Ht Hgt.
    destruct (ramping_constraints_in _ _ _ _ _ _ Hd Hu t Ht Hgt)
      as [Hin_d Hin_u].
    split; apply (extends_in_constraints _ He'); right;
      apply in_or_app; right; apply in_or_app; [now left | now right].
Qed.

Lemma type_1_ramping_witness :
  ramping_const_int (dynamics (base ex_type1_ramping)) = Some 1
  /\ integer_coupled ex_type1_ramping = false
  /\ forall d,
      In d (disjunctions (built ex_type1_ramping ex_block ex_data)) ->
      disjunction_name d = "disjunction_ramping_operation_on" ->
      In d (disjunctions ex_block).
Proof.
  assert (Epft : performance_function_type (options ex_type1_ramping) = 1)
    by reflexivity.
  assert (Hc : construct_tech_model ex_type1_ramping ex_block ex_data
               = Ok (built ex_type1_ramping ex_block ex_data))
    by (vm_compute; reflexivity).
  assert (Hrt : ramping_time (dynamics (base ex_type1_ramping)) = Some (2 # 1))
    by reflexivity.
  assert (Hne : ~ (2 # 1 == -1)%Q) by (intros E; vm_compute in E; discriminate).
  destruct (type_1_ramping ex_type1_ramping ex_block ex_data _ _
              Epft Hc Hrt Hne) as (Hic & Hno & _).
  split; [reflexivity |]. split; [exact Hic | exact Hno].
Defined.

(** ** Input ratios *)

Lemma in_cross {A B : Type} (la : list A) (lb : list B) (a : A) (b : B) :
  In a la -> In b lb -> In (a, b) (cross la lb).
Proof.
  intros Ha Hb. unfold cross. apply in_flat_map. exists a.
  split; [assumption |]. now apply in_map.
Qed.

Lemma performance_function_carriers (self : Conv3) (b b1 : Block) :
  performance_function self b = Ok b1 ->
  set_input_carriers b1 = set_input_carriers b.
Proof.
  intros H. destruct (performance_function_extends _ _ _ H)
    as (cs & ds & He & _). apply (ext_inputs _ _ _ _ He).
Qed.

Lemma build_constraint_defined {I : Type} cn (mk : I -> cidx) rule idx cs i :
  build_constraint cn mk rule idx = Ok cs -> In i idx ->
  exists r, rule i = Ok r.
Proof.
  revert cs; induction idx as [| j idx IH]; intros cs H Hin; [destruct Hin |].
  simpl in H. bind_as H r Hr. bind_as H cs' Hcs.
  destruct Hin as [<- | Hin]; [eauto | now apply (IH cs')].
Qed.

(** The block after the input ratios, to which the rest only appends. *)
Lemma construct_after_ratio (self : Conv3) (b : Block) (data : Data)
    (b' : Block) :
  construct_tech_model self b data = Ok b' ->
  exists b1 b2 cs ds,
    performance_function self b = Ok b1
    /\ input_ratio_constraints self b1 = Ok b2
    /\ extends b2 b' cs ds.
Proof.
  intros H.
  destruct (construct_spec _ _ _ _ H) as (b1 & b2 & c_size & H1 & H2 & H3 & H4).
  assert (Hgate : exists cs ds, extends (add_constraints b2 c_size) b' cs ds).
  { destruct (ramping_time (dynamics (base self))) as [rt |].
    - destruct (negb (Qeq_bool rt (-1))).
      + now apply define_ramping_rates_extends in H4.
      + subst b'. exists [], []. apply extends_refl.
    - subst b'. exists [], []. apply extends_refl. }
  destruct Hgate as (cs4 & ds4 & He4).
  exists b1, b2. do 2 eexists. split; [assumption |]. split; [assumption |].
  apply (extends_trans (extends_add_constraints b2 c_size) He4).
Qed.

(** Without standby power the ratio to the main input is a plain
    constraint of the block. *)
Lemma ratio_unconditional (self : Conv3) (b : Block) (data : Data)
    (b' : Block) (t : Z) (car : carrier) :
  construct_tech_model self b data = Ok b' ->
  (standby_power (coeff_ti self) == -1)%Q ->
  In t (set_t_performance (base self)) ->
  In car (set_input_carriers b) ->
  car <> main_carrier self ->
  exists phi p,
    get_phi self = Ok phi /\ py_get phi car = Ok p
    /\ In (ratio_constraint_at self t car p) (constraints b')
    /\ forall rho, feasible rho b' = true ->
                   (rho (input t car)
                    == p * rho (input t (main_carrier self)))%Q.
Proof.
  intros H Hsp Ht Hcar Hne.
  destruct (construct_after_ratio _ _ _ _ H)
    as (b1 & b2 & cs & ds & H1 & H2 & He).
  destruct (input_ratio_spec _ _ _ H2)
    as (phi & cs2 & ds2 & Hphi & He2 & _ & _ & Hs).
  apply Qeq_bool_iff in Hsp. rewrite Hsp in Hs. destruct Hs as [_ Hb].
  rewrite (performance_function_carriers _ _ _ H1) in Hb.
  assert (Hin : In (t, car) (cross (set_t_performance (base self))
                                   (set_input_carriers b)))
    by now apply in_cross.
  destruct (build_constraint_defined _ _ _ _ _ _ Hb Hin) as (r & Hr).
  assert (Hr' := Hr). unfold CTM.init_input_input in Hr'.
  apply String.eqb_neq in Hne. rewrite Hne in Hr'.
  bind_as Hr' p Hp. injection Hr' as <-.
  exists phi, p. split; [assumption |]. split; [assumption |].
  assert (Hc : In (ratio_constraint_at self t car p) (constraints b')).
  { apply (extends_in_constraints _ He). left.
    apply (extends_in_constraints _ He2). right.
    apply (build_constraint_in Hb Hin Hr). }
  split; [exact Hc |].
  intros rho Hf. apply feasible_constraints in Hf. apply (sat_eq Hf Hc).
Qed.

(** With standby power on the main input carrier, the ratio to the main
    input holds in the on disjunct of [dis_input_input] and the input is 0 in
    its off disjunct. *)
Lemma ratio_in_disjunction (self : Conv3) (b : Block) (data : Data)
    (b' : Block) (t : Z) (car : carrier) :
  construct_tech_model self b data = Ok b' ->
  ~ (standby_power (coeff_ti self) == -1)%Q ->
  standby_carrier self = main_carrier self ->
  In t (set_t_performance (base self)) ->
  In car (set_input_carriers b) ->
  car <> main_carrier self ->
  exists phi p,
    get_phi self = Ok phi /\ py_get phi car = Ok p
    /\ forall rho, feasible rho b' = true ->
                   ((rho (var_x t) == 1)%Q ->
                    (rho (input t car)
                     == p * rho (input t (main_carrier self)))%Q)
                   /\ ((rho (var_x t) == 0)%Q -> (rho (input t car) == 0)%Q).
Proof.
  intros H Hsp Hsb Ht Hcar Hne.
  destruct (construct_after_ratio _ _ _ _ H)
    as (b1 & b2 & cs & ds & H1 & H2 & He).
  destruct (input_ratio_spec _ _ _ H2)
    as (phi & cs2 & ds2 & Hphi & He2 & _ & _ & Hs).
  destruct (Qeq_bool (standby_power (coeff_ti self)) (-1)) eqn:E;
    [now apply Qeq_bool_iff in E |].
  destruct Hs as [_ Hb].
  rewrite <- (performance_function_carriers _ _ _ H1) in Hcar.
  assert (Hsb' : String.eqb car (standby_carrier self) = false)
    by (rewrite Hsb; now apply String.eqb_neq).
  destruct (build_disjunction_in _ _ _ _ _ _ Hb t Ht) as (d & Hd & Et).
  (* the on disjunct gives the ratio of [car] *)
  assert (H1r : In 1 (range 0 2)) by (apply in_range_iff; lia).
  destruct (build_disjunction_disjunct _ _ _ _ _ _ Hb d 1 Hd H1r)
    as (dj1 & _ & _ & Hr1).
  unfold CTM.init_input_input_dis in Hr1. simpl in Hr1.
  bind_as Hr1 u Hu. clear u Hu. bind_as Hr1 c_on Hon.
  destruct (build_constraint_defined _ _ _ _ _ _ Hon Hcar) as (r & Hr).
  unfold CTM.init_input_on in Hr. rewrite Hsb' in Hr.
  bind_as Hr p Hp. clear Hr Hr1 Hon c_on dj1.
  exists phi, p. split; [assumption |]. split; [assumption |].
  intros rho Hf.
  assert (Hd' : In d (disjunctions b')).
  { apply (extends_in_disjunctions _ He). left.
    apply (extends_in_disjunctions _ He2). now right. }
  destruct (feasible_disjunction _ _ _ Hf Hd') as (dj & Hdj & Hsat).
  destruct (build_disjunction_inv _ _ _ _ _ _ Hb d dj Hd Hdj)
    as (_ & ind & _ & Hrule & _).
  rewrite Et in Hrule. unfold CTM.init_input_input_dis in Hrule.
  unfold sat_disjunct in Hsat.
  destruct (ind =? 0).
  - (* technology off *)
    bind_as Hrule u Hu. clear u Hu.
    bind_as Hrule c Hc. injection Hrule as Hrule. rewrite <- Hrule in Hsat.
    apply sat_constraints_cons in Hsat as [Hx Hsat].
    apply Qeq_bool_iff in Hx. simpl in Hx.
    assert (Hoff : CTM.init_input_off self t car
                   = Ok (Some (EqC (Var (input t car)) (Num 0))))
      by (unfold CTM.init_input_off; now rewrite Hsb').
    assert (H0 := sat_eq Hsat (build_constraint_in Hc Hcar Hoff)).
    simpl in H0. split; [| intros _; exact H0].
    intros Hx1. rewrite Hx in Hx1. discriminate.
  - (* technology on *)
    bind_as Hrule u Hu. clear u Hu.
    bind_as Hrule c Hc. injection Hrule as Hrule. rewrite <- Hrule in Hsat.
    apply sat_constraints_cons in Hsat as [Hx Hsat].
    apply Qeq_bool_iff in Hx. simpl in Hx.
    assert (Hon : CTM.init_input_on self phi t car
                  = Ok (Some (EqC (Var (input t car))
                                  (Mul (Num p)
                                       (Var (input t (standby_carrier self)))))))
      by (unfold CTM.init_input_on; now rewrite Hsb', Hp).
    assert (H0 := sat_eq Hsat (build_constraint_in Hc Hcar Hon)).
    simpl in H0. rewrite Hsb in H0. split; [intros _; exact H0 |].
    intros Hx0. rewrite Hx in Hx0. discriminate.
Qed.

(** C1 at the failing input: with standby power on electricity while gas is
    the main input carrier, [construct_tech_model] returns a block that has a
    solution in which the technology is on at step 1 and the electricity
    input is 1, although [phi["electricity"] * input[1, "gas"]] is 0.5: the on
    disjunct ties the inputs to the standby carrier's input, not to the main
    input. *)
Lemma ratio_standby_carrier_divergence :
  construct_tech_model ex_type2_standby_electricity ex_block ex_data
  = Ok (built ex_type2_standby_electricity ex_block ex_data)
  /\ get_phi ex_type2_standby_electricity = Ok ex_phi
  /\ py_get ex_phi "electricity" = Ok (1 # 2)%Q
  /\ feasible standby_ratio_valuation
       (built ex_type2_standby_electricity ex_block ex_data) = true
  /\ (standby_ratio_valuation (var_x 1) == 1)%Q
  /\ ~ (standby_ratio_valuation (input 1 "electricity")
        == (1 # 2) * standby_ratio_valuation (input 1 "gas"))%Q.
Proof.
  split; [vm_compute; reflexivity |]. split; [reflexivity |].
  split; [reflexivity |].
  split; [vm_compute; reflexivity |]. split; [reflexivity |].
  intros H. vm_compute in H. discriminate.
Qed.

(** ** Reading a variable of the block *)

Lemma attribute_Ok (b : Block) (n : string) (u : unit) :
  attribute b n = Ok u -> find_component b n = true.
Proof. unfold attribute. now destruct (find_component b n). Qed.

Lemma attribute_declared (b : Block) (n : string) :
  find_component b n = true -> attribute b n = Ok tt.
Proof. unfold attribute. now intros ->. Qed.

Lemma attribute_bind {A : Type} (b : Block) (n : string) (k : result A) (v : A) :
  (_ <- attribute b n ;; k) = Ok v -> find_component b n = true /\ k = Ok v.
Proof.
  unfold attribute. destruct (find_component b n); simpl; [auto | discriminate].
Qed.

(** A rule that reads a variable of the block and then states an equality:
    where the component was built, the equality holds in every solution. *)
Lemma guarded_forced {I : Type} {cn : string} {mk : I -> cidx}
    {rule : I -> result (option rel)} {idx : list I} {cs : list Constraint}
    {i : I} {rho : valuation} {b : Block} {n : string} {x y : expr} :
  build_constraint cn mk rule idx = Ok cs -> In i idx ->
  rule i = (_ <- attribute b n ;; Ok (Some (EqC x y))) ->
  sat_constraints rho cs = true ->
  (eval rho x == eval rho y)%Q.
Proof.
  intros Hb Hi Hrule Hsat.
  destruct (build_constraint_defined _ _ _ _ _ _ Hb Hi) as (r & Hr).
  assert (Hr' := Hr). rewrite Hrule in Hr'.
  apply attribute_bind in Hr' as [_ Hr']. injection Hr' as <-.
  apply (sat_eq Hsat (build_constraint_in Hb Hi Hr)).
Qed.

(** * Further properties of the class *)

(** ** Dicts *)

Lemma py_get_py_set_same {A : Type} (d : list (string * A)) (k : string) (v : A) :
  py_get (py_set d k v) k = Ok v.
Proof.
  induction d as [| [k' a] d IH]; simpl.
  - now rewrite String.eqb_refl.
  - destruct (String.eqb k k') eqn:E; simpl.
    + now rewrite String.eqb_refl.
    + now rewrite E.
Qed.

Lemma py_get_py_set_other {A : Type} (d : list (string * A)) (k k' : string)
    (v : A) :
  k <> k' -> py_get (py_set d k v) k' = py_get d k'.
Proof.
  intros Hne. induction d as [| [k0 a] d IH]; simpl.
  - apply not_eq_sym in Hne. apply String.eqb_neq in Hne. now rewrite Hne.
  - destruct (String.eqb k k0) eqn:E; simpl.
    + apply String.eqb_eq in E. subst k0.
      apply not_eq_sym in Hne. apply String.eqb_neq in Hne. now rewrite Hne.
    + destruct (String.eqb k' k0); [reflexivity | exact IH].
Qed.

Lemma py_get_missing {A : Type} (d : list (string * A)) (k : string) :
  ~ In k (map fst d) -> py_get d k = Err (KeyError k).
Proof.
  induction d as [| [k' a] d IH]; simpl; intros H; [reflexivity |].
  destruct (String.eqb k k') eqn:E.
  - apply String.eqb_eq in E. subst. now destruct H; left.
  - apply IH. intros Hin. apply H. now right.
Qed.

Lemma py_get_in {A : Type} (d : list (string * A)) (k : string) (a : A) :
  py_get d k = Ok a -> In (k, a) d.
Proof.
  induction d as [| [k' a'] d IH]; simpl; [discriminate |].
  destruct (String.eqb k k') eqn:E.
  - apply String.eqb_eq in E. intros [= ->]. subst. now left.
  - intros H. right. now apply IH.
Qed.

(** Copying a dict entry by entry gives a dict with the same lookups. *)
Lemma copy_lookup {A : Type} (l : list (string * A)) :
  is_dict l ->
  forall acc k,
    py_get (fold_left (fun acc kv => py_set acc (fst kv) (snd kv)) l acc) k
    = match py_get l k with
      | Ok v => Ok v
      | Err _ => py_get acc k
      end.
Proof.
  unfold is_dict. induction l as [| [k0 v0] l IH]; simpl; intros Hd acc k;
    [reflexivity |].
  inversion Hd as [| ? ? Hnotin Hd']; subst.
  rewrite (IH Hd'). destruct (String.eqb k k0) eqn:E.
  - apply String.eqb_eq in E. subst k0.
    rewrite (py_get_missing _ _ Hnotin). apply py_get_py_set_same.
  - destruct (py_get l k); [reflexivity |].
    apply py_get_py_set_other. intros ->. now rewrite String.eqb_refl in E.
Qed.

(** The loop that collects one key of every fitted carrier: when it does
    not raise, the collected dict maps a carrier to [fit[car][key]]. *)
Lemma collect_from (f : fit_dict) (key : string) :
  is_dict f ->
  forall acc d,
    fold_left (fun acc entry =>
                 d <- acc ;;
                 v <- py_get (snd entry) key ;;
                 Ok (py_set d (fst entry) v))
              f (Ok acc) = Ok d ->
    forall car,
      py_get d car
      = match py_get f car with
        | Ok e => py_get e key
        | Err _ => py_get acc car
        end.
Proof.
  unfold is_dict. induction f as [| [k0 e0] f IH]; simpl; intros Hd acc d H car.
  - now injection H as <-.
  - inversion Hd as [| ? ? Hnotin Hd']; subst.
    destruct (py_get e0 key) as [v |] eqn:Ev; simpl in H.
    + rewrite (IH Hd' _ _ H car). destruct (String.eqb car k0) eqn:E.
      * apply String.eqb_eq in E. subst k0.
        rewrite (py_get_missing _ _ Hnotin), Ev. apply py_get_py_set_same.
      * destruct (py_get f car); [reflexivity |].
        apply py_get_py_set_other. intros ->.
        now rewrite String.eqb_refl in E.
    + exfalso. clear - H. induction f as [| x f IHf]; simpl in H;
        [discriminate | now apply IHf].
Qed.

Lemma collect_lookup (f : fit_dict) (key : string) (d : list (carrier * coeff))
    (car : carrier) :
  is_dict f -> collect f key = Ok d ->
  py_get d car = fit_coefficient f car key.
Proof.
  intros Hd H. unfold collect in H. rewrite (collect_from f key Hd [] d H car).
  unfold fit_coefficient. destruct (py_get f car) as [e | x] eqn:E; simpl;
    [reflexivity |].
  now rewrite (py_get_Err _ _ _ E).
Qed.

(** ** Fitting *)

(** X1: when [fit_technology_performance] returns, the sizing basis was not
    ["output"], the coefficients are those the fitting class returned, [phi]
    answers every lookup as [input_ratios] does, and the options, the
    dynamics and the time sets are untouched; an exception of the fitting
    class is passed on unchanged. *)
Theorem fit_copies_ratios
    (fit_performance_function : FittingClass -> result fit_dict)
    (self : Conv3) :
  is_dict (input_ratios (base self)) ->
  (forall self',
      fit_technology_performance fit_performance_function self = Ok self' ->
      size_based_on (options self) <> "output"
      /\ (exists f, fit_performance_function (fitting_class self) = Ok f
                    /\ fit (coeff_ti self') = Some f)
      /\ (exists phi', phi (coeff_ti self') = Some phi'
                       /\ forall car, py_get phi' car
                                      = py_get (input_ratios (base self)) car)
      /\ options self' = options self
      /\ dynamics (base self') = dynamics (base self)
      /\ set_t_performance (base self') = set_t_performance (base self)
      /\ set_t_full (base self') = set_t_full (base self))
  /\ (forall e,
         size_based_on (options self) <> "output" ->
         fit_performance_function (fitting_class self) = Err e ->
         fit_technology_performance fit_performance_function self = Err e).
Proof.
  intros Hd. unfold fit_technology_performance, options. split.
  - intros self' H.
    destruct (String.eqb _ "output") eqn:E; [discriminate |].
    apply String.eqb_neq in E. split; [exact E |].
    bind_as H f Hf. injection H as <-. simpl.
    split; [eauto |]. split; [| repeat split].
    eexists. split; [reflexivity |]. intros car.
    rewrite (copy_lookup _ Hd). simpl.
    destruct (py_get (input_ratios (base self)) car) eqn:Eg; [reflexivity |].
    now rewrite (py_get_Err _ _ _ Eg).
  - intros e Hne He. apply String.eqb_neq in Hne. rewrite Hne, He. reflexivity.
Qed.

Lemma fit_copies_ratios_witness :
  exists self',
    fit_technology_performance (fun _ => Ok ex_fit_linear) ex_type2 = Ok self'
    /\ exists phi', phi (coeff_ti self') = Some phi'
                    /\ py_get phi' "water" = Ok (3 # 1)%Q.
Proof.
  assert (Hd : is_dict (input_ratios (base ex_type2))).
  { unfold is_dict. simpl. repeat constructor; simpl; intuition discriminate. }
  destruct (fit_technology_performance (fun _ => Ok ex_fit_linear) ex_type2)
    as [self' |] eqn:E; [| vm_compute in E; discriminate].
  exists self'. split; [reflexivity |].
  destruct (proj1 (fit_copies_ratios (fun _ => Ok ex_fit_linear) ex_type2 Hd)
              self' E) as (_ & _ & (phi' & Hphi & Hlook) & _).
  exists phi'. split; [exact Hphi |]. rewrite Hlook. reflexivity.
Defined.

(** ** Type 1 *)

Lemma type_1_spec_fit (self : Conv3) (b b' : Block) :
  _performance_function_type_1 self b = Ok b' ->
  exists f alpha1 c_io c_mpl,
    get_fit self = Ok f
    /\ collect f "alpha1" = Ok alpha1
    /\ build_constraint "const_input_output"
         (fun i => AtTCar (fst i) (snd i)) (T1.init_input_output self alpha1)
         (cross (set_t_performance (base self)) (set_output_carriers b))
       = Ok c_io
    /\ (if negb (Qle_bool (min_part_load (coeff_ti self)) 0)
        then build_constraint "const_min_part_load" AtT
               (T1.init_min_part_load self) (set_t_performance (base self))
             = Ok c_mpl
        else c_mpl = [])
    /\ extends b b' (c_io ++ c_mpl) [].
Proof.
  unfold _performance_function_type_1. intros H.
  bind_as H f Hf. bind_as H alpha1 Ha. bind_as H c_io Hio.
  exists f, alpha1, c_io.
  destruct (negb (Qle_bool (min_part_load (coeff_ti self)) 0)).
  - bind_as H c_mpl Hm. injection H as <-. exists c_mpl.
    do 4 (split; [assumption |]).
    apply (extends_trans (extends_add_constraints b _)
                         (extends_add_constraints _ _)).
  - injection H as <-. exists [].
    do 3 (split; [assumption |]). split; [reflexivity |].
    rewrite app_nil_r. apply (extends_add_constraints b c_io).
Qed.

(** What [construct_tech_model] keeps of the block of the performance
    function. *)
Lemma construct_keeps (self : Conv3) (b : Block) (data : Data) (b' : Block) :
  construct_tech_model self b data = Ok b' ->
  exists b1,
    performance_function self b = Ok b1
    /\ incl (constraints b1) (constraints b')
    /\ incl (disjunctions b1) (disjunctions b')
    /\ forall t, In t (set_t_performance (base self)) ->
                 In (size_constraint_at self t) (constraints b').
Proof.
  intros H. destruct (construct_extends _ _ _ _ H)
    as (b1 & cs & ds & H1 & He & Hsize).
  exists b1. split; [assumption |]. split; [| split].
  - intros c Hc. apply (extends_in_constraints _ He). now left.
  - intros d Hd. apply (extends_in_disjunctions _ He). now left.
  - intros t Ht. apply (extends_in_constraints _ He). right. now apply Hsize.
Qed.

Lemma get_fit_Some (self : Conv3) (f : fit_dict) :
  fit (coeff_ti self) = Some f -> get_fit self = Ok f.
Proof. unfold get_fit. now intros ->. Qed.

(** X2: for function type 1 on a fitted technology, every output carrier
    has a scalar [alpha1] in the fit and, in every solution of the block
    [construct_tech_model] returns, its output at every step is [alpha1]
    times the main input. *)
Theorem type_1_linear (self : Conv3) (b : Block) (data : Data) (b' : Block)
    (f : fit_dict) :
  performance_function_type (options self) = 1 ->
  fit (coeff_ti self) = Some f ->
  is_dict f ->
  construct_tech_model self b data = Ok b' ->
  forall t car,
    In t (set_t_performance (base self)) ->
    In car (set_output_carriers b) ->
    exists a,
      fit_coefficient f car "alpha1" = Ok (Scalar a)
      /\ forall rho, feasible rho b' = true ->
                     (rho (output t car)
                      == a * rho (input t (main_carrier self)))%Q.
Proof.
  intros Epft Hfit Hd H t car Ht Hcar.
  destruct (construct_keeps _ _ _ _ H) as (b1 & H1 & Hc & _).
  unfold performance_function in H1. rewrite Epft in H1. simpl in H1.
  destruct (type_1_spec_fit _ _ _ H1)
    as (f' & alpha1 & c_io & c_mpl & Hf & Ha & Hio & _ & He).
  rewrite (get_fit_Some _ _ Hfit) in Hf. injection Hf as <-.
  assert (Hin : In (t, car) (cross (set_t_performance (base self))
                                   (set_output_carriers b)))
    by now apply in_cross.
  destruct (build_constraint_defined _ _ _ _ _ _ Hio Hin) as (r & Hr).
  assert (Hr' := Hr). unfold T1.init_input_output in Hr'.
  bind_as Hr' c Hget. bind_as Hr' e Htimes.
  rewrite (collect_lookup _ _ _ car Hd Ha) in Hget.
  destruct c as [a | l]; simpl in Htimes; [| discriminate].
  injection Htimes as <-. injection Hr' as <-.
  exists a. split; [assumption |]. intros rho Hfe.
  apply feasible_constraints in Hfe.
  assert (Hcon := build_constraint_in Hio Hin Hr).
  assert (Hcon' : In (mkConstraint "const_input_output" (AtTCar t car)
                        (EqC (Var (output t car))
                             (Mul (Num a) (Var (input t (main_carrier self))))))
                     (constraints b')).
  { apply Hc. apply (extends_in_constraints _ He). right.
    apply in_or_app. left. exact Hcon. }
  exact (sat_eq Hfe Hcon').
Qed.

Lemma type_1_linear_witness :
  (ramping_valuation (output 1 "heat")
   == (9 # 10) * ramping_valuation (input 1 "gas"))%Q.
Proof.
  assert (Hd : is_dict ex_fit_linear).
  { unfold is_dict. simpl. constructor; [intros [] | constructor]. }
  assert (Hc : construct_tech_model ex_type1_ramping ex_block ex_data
               = Ok (built ex_type1_ramping ex_block ex_data))
    by (vm_compute; reflexivity).
  assert (Ht : In 1 (set_t_performance (base ex_type1_ramping)))
    by (simpl; auto).
  assert (Hcar : In "heat" (set_output_carriers ex_block)) by (simpl; auto).
  destruct (type_1_linear ex_type1_ramping ex_block ex_data _ ex_fit_linear
              eq_refl eq_refl Hd Hc 1 "heat" Ht Hcar) as (a & Ha & Hsol).
  vm_compute in Ha. injection Ha as <-.
  apply (Hsol ramping_valuation). vm_compute. reflexivity.
Defined.

(** ** The components [construct_tech_model] adds, by name *)

Lemma performance_function_names (self : Conv3) (b b1 : Block) :
  performance_function self b = Ok b1 ->
  exists cs ds,
    extends b b1 cs ds
    /\ (forall c, In c cs ->
                  cname c = "const_input_output"
                  \/ (cname c = "const_min_part_load"
                      /\ performance_function_type (options self) = 1
                      /\ (0 < min_part_load (coeff_ti self))%Q))
    /\ (forall d, In d ds ->
                  disjunction_name d = "disjunction_input_output"
                  \/ disjunction_name d = "disjunction_SUSD_traject").
Proof.
  unfold performance_function. intros H.
  destruct (_ =? 1) eqn:E1; [| destruct (_ =? 2) eqn:E2;
    [| destruct (_ =? 3) eqn:E3; [| destruct (_ =? 4) eqn:E4]]].
  - apply Z.eqb_eq in E1.
    destruct (type_1_spec_fit _ _ _ H)
      as (f & alpha1 & c_io & c_mpl & _ & _ & Hio & Hm & He).
    exists (c_io ++ c_mpl), []. split; [assumption |].
    split; [| intros d []].
    intros c [Hc | Hc]%in_app_iff.
    + left. apply (build_constraint_names _ _ _ _ _ _ Hio Hc).
    + right. destruct (negb (Qle_bool (min_part_load (coeff_ti self)) 0)) eqn:En;
        [| subst c_mpl; destruct Hc].
      split; [apply (build_constraint_names _ _ _ _ _ _ Hm Hc) |].
      split; [assumption |].
      apply negb_true_iff in En. apply Qnot_le_lt. intros Hle.
      apply Qle_bool_iff in Hle. congruence.
  - destruct (type_2_spec _ _ _ H) as (? & ? & ds & He & Hb).
    exists [], ds. split; [assumption |]. split; [intros c [] |].
    intros d Hd. left. apply (build_disjunction_name _ _ _ _ _ _ _ Hb Hd).
  - destruct (type_3_spec _ _ _ H) as (? & ? & ? & ? & ds & He & _ & Hb).
    exists [], ds. split; [assumption |]. split; [intros c [] |].
    intros d Hd. left. apply (build_disjunction_name _ _ _ _ _ _ _ Hb Hd).
  - destruct (type_4_spec _ _ _ H)
      as (? & ? & ? & ? & ? & ? & ds & He & _ & Hb).
    exists [], ds. split; [assumption |]. split; [intros c [] |].
    intros d Hd. right. apply (build_disjunction_name _ _ _ _ _ _ _ Hb Hd).
  - injection H as <-. exists [], []. split; [apply extends_refl |].
    split; [intros c [] | intros d []].
Qed.

(** The ramping step adds components with ramping names only. *)
Lemma define_ramping_rates_names (self : Conv3) (b : Block) (data : Data)
    (b' : Block) :
  _define_ramping_rates self b data = Ok b' ->
  exists cs ds,
    extends b b' cs ds
    /\ (forall c, In c cs -> ramping_component (cname c))
    /\ (forall d, In d ds -> ramping_component (disjunction_name d)).
Proof.
  intros H.
  destruct (define_ramping_rates_spec _ _ _ _ H) as (rt & rate & _ & _ & Hs).
  unfold ramping_component. destruct (integer_coupled self).
  - destruct Hs as (ds & He & Hb). exists [], ds.
    split; [assumption |]. split; [intros c [] |].
    intros d Hd. rewrite (build_disjunction_name _ _ _ _ _ _ _ Hb Hd).
    simpl; auto.
  - destruct Hs as (link & cd & cu & He & Hl & Hd & Hu).
    exists (link ++ cd ++ cu), []. split; [assumption |].
    split; [| intros d []].
    intros c [Hc | [Hc | Hc]%in_app_iff]%in_app_iff.
    + rewrite (Hl c Hc). simpl; auto.
    + rewrite (build_constraint_names _ _ _ _ _ _ Hd Hc). simpl; auto.
    + rewrite (build_constraint_names _ _ _ _ _ _ Hu Hc). simpl; auto.
Qed.

(** Every component of the block [construct_tech_model] returns is a
    component of the given block, or one of the performance function, of the
    input ratios, the size constraint, or (only with ramping enabled) one of
    the ramping step. *)
Lemma construct_names (self : Conv3) (b : Block) (data : Data) (b' : Block) :
  construct_tech_model self b data = Ok b' ->
  (forall c, In c (constraints b') ->
             In c (constraints b)
             \/ cname c = "const_input_output"
             \/ (cname c = "const_min_part_load"
                 /\ performance_function_type (options self) = 1
                 /\ (0 < min_part_load (coeff_ti self))%Q)
             \/ cname c = "const_input_input"
             \/ cname c = "const_size"
             \/ (ramping_enabled self = true /\ ramping_component (cname c)))
  /\ (forall d, In d (disjunctions b') ->
                In d (disjunctions b)
                \/ disjunction_name d = "disjunction_input_output"
                \/ disjunction_name d = "disjunction_SUSD_traject"
                \/ disjunction_name d = "disjunction_input_input"
                \/ (ramping_enabled self = true
                    /\ ramping_component (disjunction_name d))).
Proof.
  intros H.
  destruct (construct_spec _ _ _ _ H) as (b1 & b2 & c_size & H1 & H2 & H3 & H4).
  destruct (performance_function_names _ _ _ H1) as (cs1 & ds1 & He1 & N1 & D1).
  destruct (input_ratio_spec _ _ _ H2)
    as (phi & cs2 & ds2 & _ & He2 & N2 & D2 & _).
  assert (He3 := extends_trans He1
                   (extends_trans He2 (extends_add_constraints b2 c_size))).
  assert (Hgate : exists cs ds,
             extends (add_constraints b2 c_size) b' cs ds
             /\ (forall c, In c cs ->
                           ramping_enabled self = true
                           /\ ramping_component (cname c))
             /\ (forall d, In d ds ->
                           ramping_enabled self = true
                           /\ ramping_component (disjunction_name d))).
  { unfold ramping_enabled.
    destruct (ramping_time (dynamics (base self))) as [rt |].
    - destruct (negb (Qeq_bool rt (-1))).
      + destruct (define_ramping_rates_names _ _ _ _ H4)
          as (cs & ds & He & Nc & Nd).
        exists cs, ds. split; [assumption |]. split; intros x Hx; auto.
      + subst b'. exists [], []. split; [apply extends_refl |].
        split; intros x [].
    - subst b'. exists [], []. split; [apply extends_refl |].
      split; intros x []. }
  destruct Hgate as (cs4 & ds4 & He4 & N4 & D4).
  assert (He := extends_trans He3 He4). split.
  - intros c Hc. rewrite (ext_constraints _ _ _ _ He) in Hc.
    apply in_app_iff in Hc as [Hc | Hc]; [now left |]. right.
    apply in_app_iff in Hc as [Hc | Hc]; [| now do 4 right; apply N4].
    apply in_app_iff in Hc as [Hc | Hc].
    { destruct (N1 c Hc) as [N | N]; [now left | now right; left]. }
    apply in_app_iff in Hc as [Hc | Hc].
    { do 2 right. left. now apply N2. }
    do 3 right. left. apply (build_constraint_names _ _ _ _ _ _ H3 Hc).
  - intros d Hd. rewrite (ext_disjunctions _ _ _ _ He) in Hd.
    apply in_app_iff in Hd as [Hd | Hd]; [now left |]. right.
    apply in_app_iff in Hd as [Hd | Hd]; [| now do 3 right; apply D4].
    apply in_app_iff in Hd as [Hd | Hd].
    { destruct (D1 d Hd) as [N | N]; [now left | now right; left]. }
    apply in_app_iff in Hd as [Hd | Hd]; [| destruct Hd].
    do 2 right. left. now apply D2.
Qed.

(** X3: for function type 1 with [min_part_load > 0], every solution of the
    block [construct_tech_model] returns has, at every step, a main input of
    at least [min_part_load * size * rated_power] and at most
    [size * rated_power]; so with a positive capacity the main input is never
    0: the technology cannot be turned off.  With [min_part_load <= 0] the
    construction adds no constraint [const_min_part_load]. *)
Theorem type_1_min_part_load (self : Conv3) (b : Block) (data : Data)
    (b' : Block) :
  performance_function_type (options self) = 1 ->
  construct_tech_model self b data = Ok b' ->
  ((0 < min_part_load (coeff_ti self))%Q ->
   forall rho t,
     feasible rho b' = true -> In t (set_t_performance (base self)) ->
     (min_part_load (coeff_ti self) * capacity self rho
      <= rho (input t (main_carrier self)))%Q
     /\ (rho (input t (main_carrier self)) <= capacity self rho)%Q
     /\ ((0 < capacity self rho)%Q ->
         (0 < rho (input t (main_carrier self)))%Q))
  /\ ((min_part_load (coeff_ti self) <= 0)%Q ->
      forall c, In c (constraints b') -> cname c = "const_min_part_load" ->
                In c (constraints b)).
Proof.
  intros Epft H. split.
  - intros Hpos rho t Hf Ht.
    destruct (construct_keeps _ _ _ _ H) as (b1 & H1 & Hc & _ & Hsize).
    unfold performance_function in H1. rewrite Epft in H1. simpl in H1.
    destruct (type_1_spec_fit _ _ _ H1)
      as (f & alpha1 & c_io & c_mpl & _ & _ & _ & Hm & He).
    assert (En : negb (Qle_bool (min_part_load (coeff_ti self)) 0) = true).
    { apply negb_true_iff. destruct (Qle_bool _ 0) eqn:E; [| reflexivity].
      apply Qle_bool_iff in E. exfalso. apply (Qlt_irrefl 0).
      now apply Qlt_le_trans with (min_part_load (coeff_ti self)). }
    rewrite En in Hm. apply feasible_constraints in Hf.
    assert (Hin : In (mkConstraint "const_min_part_load" (AtT t)
                        (LeC (scaled_size self (min_part_load (coeff_ti self)))
                             (Var (input t (main_carrier self)))))
                     (constraints b')).
    { apply Hc. apply (extends_in_constraints _ He). right.
      apply in_or_app. right. apply (build_constraint_in Hm Ht eq_refl). }
    assert (Hlo := sat_le Hf Hin). assert (Hhi := sat_le Hf (Hsize t Ht)).
    unfold capacity. simpl in Hlo, Hhi.
    assert (Hlo' : (min_part_load (coeff_ti self)
                    * (rho var_size * rated_power (base self))
                    <= rho (input t (main_carrier self)))%Q)
      by (rewrite Qmult_assoc; exact Hlo).
    split; [exact Hlo' |]. split; [exact Hhi |].
    intros Hcap. apply Qlt_le_trans with
      (min_part_load (coeff_ti self) * (rho var_size * rated_power (base self)))%Q;
      [| exact Hlo'].
    now apply Qmult_lt_0_compat.
  - intros Hle c Hc Hn.
    destruct (proj1 (construct_names _ _ _ _ H) c Hc)
      as [Hb | [N | [N | [N | [N | [_ N]]]]]]; [assumption | | | | |].
    + rewrite Hn in N. discriminate.
    + destruct N as (_ & _ & Hpos). exfalso. apply (Qlt_irrefl 0).
      now apply Qlt_le_trans with (min_part_load (coeff_ti self)).
    + rewrite Hn in N. discriminate.
    + rewrite Hn in N. discriminate.
    + rewrite Hn in N. unfold ramping_component in N. simpl in N.
      intuition discriminate.
Qed.

Lemma type_1_min_part_load_witness :
  (3 # 2 <= ramping_valuation (input 1 "gas"))%Q.
Proof.
  assert (Epft : performance_function_type (options ex_type1_ramping) = 1)
    by reflexivity.
  assert (Hc : construct_tech_model ex_type1_ramping ex_block ex_data
               = Ok (built ex_type1_ramping ex_block ex_data))
    by (vm_compute; reflexivity).
  assert (Hpos : (0 < min_part_load (coeff_ti ex_type1_ramping))%Q)
    by reflexivity.
  assert (Hf : feasible ramping_valuation
                 (built ex_type1_ramping ex_block ex_data) = true)
    by (vm_compute; reflexivity).
  assert (Ht : In 1 (set_t_performance (base ex_type1_ramping)))
    by (simpl; auto).
  destruct (proj1 (type_1_min_part_load ex_type1_ramping ex_block ex_data _
                     Epft Hc) Hpos ramping_valuation 1 Hf Ht) as (Hlo & _).
  apply Qle_trans with
    (min_part_load (coeff_ti ex_type1_ramping)
     * capacity ex_type1_ramping ramping_valuation)%Q; [| exact Hlo].
  vm_compute. discriminate.
Defined.

(** X4: when [ramping_time] is missing from the dynamics or is [-1],
    [construct_tech_model] adds no ramping constraint, no link to a
    full-resolution series and no ramping disjunction: every such component
    of the block it returns was in the given block. *)
Theorem ramping_disabled (self : Conv3) (b : Block) (data : Data) (b' : Block) :
  ramping_enabled self = false ->
  construct_tech_model self b data = Ok b' ->
  (forall c, In c (constraints b') -> ramping_component (cname c) ->
             In c (constraints b))
  /\ (forall d, In d (disjunctions b') ->
                ramping_component (disjunction_name d) ->
                In d (disjunctions b)).
Proof.
  intros Hoff H. destruct (construct_names _ _ _ _ H) as [Hc Hd].
  unfold ramping_component. split.
  - intros c Hin Hn. simpl in Hn.
    destruct (Hc c Hin) as [Hb | [N | [N | [N | [N | [N _]]]]]];
      [assumption | | | | | congruence];
      try destruct N as (N & _); rewrite N in Hn; intuition discriminate.
  - intros d Hin Hn. simpl in Hn.
    destruct (Hd d Hin) as [Hb | [N | [N | [N | [N _]]]]];
      [assumption | | | | congruence];
      rewrite N in Hn; intuition discriminate.
Qed.

Lemma ramping_disabled_witness :
  forallb (fun c => negb (String.eqb (cname c) "const_ramping_up_rate"))
          (constraints (built ex_type2 ex_block ex_data)) = true.
Proof.
  assert (Hoff : ramping_enabled ex_type2 = false) by reflexivity.
  assert (Hc : construct_tech_model ex_type2 ex_block ex_data
               = Ok (built ex_type2 ex_block ex_data))
    by (vm_compute; reflexivity).
  destruct (ramping_disabled ex_type2 ex_block ex_data _ Hoff Hc) as [Hno _].
  apply forallb_forall. intros c Hin.
  destruct (String.eqb (cname c) "const_ramping_up_rate") eqn:E;
    [| reflexivity].
  apply String.eqb_eq in E. exfalso.
  apply (Hno c Hin). unfold ramping_component. rewrite E. simpl. auto.
Defined.

(** ** Type 2 *)

Lemma type_2_spec_fit (self : Conv3) (b b' : Block) :
  _performance_function_type_2 self b = Ok b' ->
  exists f alpha1 alpha2 ds,
    get_fit self = Ok f
    /\ collect f "alpha1" = Ok alpha1
    /\ collect f "alpha2" = Ok alpha2
    /\ extends b b' [] ds
    /\ build_disjunction "dis_input_output" "disjunction_input_output"
         (T2.init_input_output self (declare_var_x self b) alpha1 alpha2)
         (set_t_performance (base self)) (range 0 2) = Ok ds.
Proof.
  unfold _performance_function_type_2. intros H.
  bind_as H f Hf. bind_as H alpha Ha. destruct alpha as [alpha1 alpha2].
  apply collect_alpha_Ok in Ha as [Ha1 Ha2]. cbn [fst snd] in H.
  bind_as H ds Hds. injection H as <-.
  exists f, alpha1, alpha2, ds. do 3 (split; [assumption |]).
  split; [apply extends_disjunctions_after_var_x | assumption].
Qed.

(** What the on disjunct of type 2 forces. *)
Lemma T2_on_forces self b a1 a2 t ind cs rho :
  ind <> 0 ->
  T2.init_input_output self b a1 a2 t ind = Ok cs ->
  sat_constraints rho cs = true ->
  (rho (var_x t) == 1)%Q
  /\ (min_part_load (coeff_ti self) * capacity self rho
      <= rho (input t (main_carrier self)))%Q
  /\ forall car, In car (set_output_carriers b) ->
       exists c1 c2,
         py_get a1 car = Ok (Scalar c1) /\ py_get a2 car = Ok (Scalar c2)
         /\ (rho (output t car)
             == c1 * rho (input t (main_carrier self))
                + c2 * capacity self rho)%Q.
Proof.
  intros Hind H Hsat. unfold T2.init_input_output in H.
  apply Z.eqb_neq in Hind. rewrite Hind in H.
  bind_as H c_io Hio. bind_as H c_mpl Hm. injection H as <-.
  apply sat_constraints_cons in Hsat as [Hx Hsat].
  apply sat_constraints_app in Hsat as [Hsio Hsm].
  split; [now apply Qeq_bool_iff in Hx |]. split.
  - assert (Hin := build_constraint_in (i := tt) Hm (or_introl eq_refl) eq_refl).
    assert (Hge := sat_constraints_in _ _ _ Hsm Hin). simpl in Hge.
    apply Qle_bool_iff in Hge. unfold capacity.
    now rewrite Qmult_assoc.
  - intros car Hcar.
    destruct (build_constraint_defined _ _ _ _ _ _ Hio Hcar) as (r & Hr).
    assert (Hr' := Hr). unfold T2.init_input_output_on in Hr'.
    bind_as Hr' k1 Hk1. bind_as Hr' e1 He1. bind_as Hr' k2 Hk2.
    bind_as Hr' e2 He2. injection Hr' as <-.
    destruct k1 as [c1 | ]; [| discriminate].
    destruct k2 as [c2 | ]; [| discriminate].
    injection He1 as <-. injection He2 as <-.
    exists c1, c2. split; [assumption |]. split; [assumption |].
    assert (Heq := sat_eq Hsio (build_constraint_in Hio Hcar Hr)).
    simpl in Heq. unfold capacity. rewrite Heq.
    now rewrite (Qmult_assoc c2).
Qed.

(** X5: for function type 2 on a fitted technology, every solution of the
    block [construct_tech_model] returns is, at every step, either on
    ([var_x = 1], the main input between [min_part_load * size * rated_power]
    and [size * rated_power], every output
    [alpha1 * input + alpha2 * size * rated_power] with the scalars of the
    fit) or off ([var_x = 0] and every output 0). *)
Theorem type_2_on_or_off (self : Conv3) (b : Block) (data : Data) (b' : Block)
    (f : fit_dict) :
  performance_function_type (options self) = 2 ->
  fit (coeff_ti self) = Some f ->
  is_dict f ->
  construct_tech_model self b data = Ok b' ->
  forall rho t,
    feasible rho b' = true -> In t (set_t_performance (base self)) ->
    ((rho (var_x t) == 1)%Q
     /\ (min_part_load (coeff_ti self) * capacity self rho
         <= rho (input t (main_carrier self)))%Q
     /\ (rho (input t (main_carrier self)) <= capacity self rho)%Q
     /\ forall car, In car (set_output_carriers b) ->
          exists c1 c2,
            fit_coefficient f car "alpha1" = Ok (Scalar c1)
            /\ fit_coefficient f car "alpha2" = Ok (Scalar c2)
            /\ (rho (output t car)
                == c1 * rho (input t (main_carrier self))
                   + c2 * capacity self rho)%Q)
    \/ ((rho (var_x t) == 0)%Q
        /\ forall car, In car (set_output_carriers b) ->
                       (rho (output t car) == 0)%Q).
Proof.
  intros Epft Hfit Hd H rho t Hf Ht.
  destruct (construct_keeps _ _ _ _ H) as (b1 & H1 & _ & Hdis & Hsize).
  unfold performance_function in H1. rewrite Epft in H1. simpl in H1.
  destruct (type_2_spec_fit _ _ _ H1)
    as (f' & a1 & a2 & ds & Hf' & Ha1 & Ha2 & He & Hb).
  rewrite (get_fit_Some _ _ Hfit) in Hf'. injection Hf' as <-.
  destruct (build_disjunction_in _ _ _ _ _ _ Hb t Ht) as (d & Hd' & Et).
  assert (Hin : In d (disjunctions b')).
  { apply Hdis. apply (extends_in_disjunctions _ He). now right. }
  destruct (feasible_disjunction _ _ _ Hf Hin) as (dj & Hdj & Hsat).
  destruct (build_disjunction_inv _ _ _ _ _ _ Hb d dj Hd' Hdj)
    as (_ & ind & _ & Hr & _).
  rewrite Et in Hr. unfold sat_disjunct in Hsat.
  destruct (Z.eq_dec ind 0) as [-> | Hne].
  - right. destruct (T2_off_forces _ _ _ _ _ _ Hr rho Hsat) as (Hx & Ho & _).
    split; [exact Hx |]. intros car Hcar. apply Ho.
    now rewrite declare_var_x_outputs.
  - left. destruct (T2_on_forces _ _ _ _ _ _ _ rho Hne Hr Hsat)
      as (Hx & Hlo & Hout).
    split; [exact Hx |]. split; [exact Hlo |]. split.
    + apply feasible_constraints in Hf. apply (sat_le Hf (Hsize t Ht)).
    + intros car Hcar. rewrite <- (declare_var_x_outputs self) in Hcar.
      destruct (Hout car Hcar) as (c1 & c2 & G1 & G2 & Heq).
      exists c1, c2.
      rewrite <- (collect_lookup _ _ _ car Hd Ha1).
      rewrite <- (collect_lookup _ _ _ car Hd Ha2). auto.
Qed.

Lemma type_2_on_or_off_witness :
  (zero_valuation (var_x 1) == 1)%Q \/ (zero_valuation (var_x 1) == 0)%Q.
Proof.
  assert (Epft : performance_function_type (options ex_type2) = 2)
    by reflexivity.
  assert (Hfit : fit (coeff_ti ex_type2) = Some ex_fit_linear) by reflexivity.
  assert (Hd : is_dict ex_fit_linear).
  { unfold is_dict. simpl. repeat constructor; simpl; intuition discriminate. }
  assert (Hc : construct_tech_model ex_type2 ex_block ex_data
               = Ok (built ex_type2 ex_block ex_data))
    by (vm_compute; reflexivity).
  assert (Hf : feasible zero_valuation (built ex_type2 ex_block ex_data) = true)
    by (vm_compute; reflexivity).
  assert (Ht : In 1 (set_t_performance (base ex_type2))) by (simpl; auto).
  destruct (type_2_on_or_off ex_type2 ex_block ex_data _ ex_fit_linear
              Epft Hfit Hd Hc zero_valuation 1 Hf Ht)
    as [(Hx & _) | (Hx & _)]; [left | right]; exact Hx.
Defined.

(** ** Type 3 *)

Lemma collect_bp_x_snoc (f : fit_dict) (entry : carrier * list (string * coeff)) :
  collect_bp_x (f ++ [entry])
  = (_ <- collect_bp_x f ;; v <- py_get (snd entry) "bp_x" ;; Ok (Some v)).
Proof. unfold collect_bp_x. now rewrite fold_left_app. Qed.

(** The breakpoints the loop leaves are those of the last fitted carrier. *)
Lemma collect_bp_x_last (f : fit_dict) (bp_x : coeff) :
  collect_bp_x f = Ok (Some bp_x) -> last_breakpoints f = Ok bp_x.
Proof.
  unfold last_breakpoints. destruct f as [| e f] using rev_ind.
  - discriminate.
  - rewrite collect_bp_x_snoc, rev_app_distr. simpl. intros H.
    bind_as H o Ho. bind_as H v Hv. injection H as <-. exact Hv.
Qed.

Lemma type_3_spec_fit (self : Conv3) (b b' : Block) :
  _performance_function_type_3 self b = Ok b' ->
  exists f bp_x alpha1 alpha2 n ds,
    get_fit self = Ok f
    /\ collect_bp_x f = Ok (Some bp_x)
    /\ collect f "alpha1" = Ok alpha1
    /\ collect f "alpha2" = Ok alpha2
    /\ coeff_len bp_x = Ok n
    /\ extends b b' [] ds
    /\ build_disjunction "dis_input_output" "disjunction_input_output"
         (T3.init_input_output self (declare_var_x self b) bp_x alpha1 alpha2)
         (set_t_performance (base self)) (range 0 n) = Ok ds.
Proof.
  unfold _performance_function_type_3. intros H.
  bind_as H f Hf. bind_as H fitted Hfitted.
  destruct fitted as [bp [alpha1 alpha2]].
  apply collect_piecewise_Ok in Hfitted as (Hbp & Ha1 & Ha2).
  cbn [fst snd] in H. bind_as H bp_x Hbpx. bind_as H n Hn.
  bind_as H ds Hds. injection H as <-.
  destruct bp as [c |]; [| discriminate]. injection Hbpx as ->.
  exists f, bp_x, alpha1, alpha2, n, ds. do 5 (split; [assumption |]).
  split; [apply extends_disjunctions_after_var_x | assumption].
Qed.

(** What a segment constraint set forces: shared by the on disjuncts of
    types 3 and 4, whose rules state the same relations. *)
Section segment_rules.
Variables (self : Conv3) (b : Block) (bp_x : coeff)
          (a1 a2 : list (carrier * coeff)) (rho : valuation) (t i : Z)
          (c1 c2 c_io c_mpl : list Constraint).
Variables (r1 r2 rm : unit -> result (option rel))
          (rio : carrier -> result (option rel)).
Hypothesis Hr1 :
  r1 tt = (v <- item bp_x (i - 1) ;;
           Ok (Some (GeC (Var (input t (main_carrier self)))
                         (scaled_size self v)))).
Hypothesis Hr2 :
  r2 tt = (v <- item bp_x i ;;
           Ok (Some (LeC (Var (input t (main_carrier self)))
                         (scaled_size self v)))).
Hypothesis Hrm :
  rm tt = Ok (Some (GeC (Var (input t (main_carrier self)))
                        (scaled_size self (min_part_load (coeff_ti self))))).
Hypothesis Hrio :
  forall car,
    rio car = (k1 <- py_get a1 car ;; v1 <- item k1 (i - 1) ;;
               k2 <- py_get a2 car ;; v2 <- item k2 (i - 1) ;;
               Ok (Some (EqC (Var (output t car))
                             (Add (Mul (Num v1)
                                       (Var (input t (main_carrier self))))
                                  (scaled_size self v2))))).
Hypothesis H1 :
  build_constraint "const_input_on1" (fun _ => NoIndex) r1 [tt] = Ok c1.
Hypothesis H2 :
  build_constraint "const_input_on2" (fun _ => NoIndex) r2 [tt] = Ok c2.
Hypothesis Hio :
  build_constraint "const_input_output_on" AtCar rio (set_output_carriers b)
  = Ok c_io.
Hypothesis Hm :
  build_constraint "const_min_partload" (fun _ => NoIndex) rm [tt] = Ok c_mpl.
Hypothesis Hsat :
  sat_constraints rho (x_on t :: c1 ++ c2 ++ c_io ++ c_mpl) = true.

Lemma segment_forces :
  (rho (var_x t) == 1)%Q
  /\ (exists lo hi,
         item bp_x (i - 1) = Ok lo /\ item bp_x i = Ok hi
         /\ (lo * capacity self rho <= rho (input t (main_carrier self)))%Q
         /\ (rho (input t (main_carrier self)) <= hi * capacity self rho)%Q)
  /\ (min_part_load (coeff_ti self) * capacity self rho
      <= rho (input t (main_carrier self)))%Q
  /\ forall car, In car (set_output_carriers b) ->
       exists v1 v2 k1 k2,
         py_get a1 car = Ok k1 /\ item k1 (i - 1) = Ok v1
         /\ py_get a2 car = Ok k2 /\ item k2 (i - 1) = Ok v2
         /\ (rho (output t car)
             == v1 * rho (input t (main_carrier self))
                + v2 * capacity self rho)%Q.
Proof.
  apply sat_constraints_cons in Hsat as [Hx Hs].
  apply sat_constraints_app in Hs as [Hs1 Hs].
  apply sat_constraints_app in Hs as [Hs2 Hs].
  apply sat_constraints_app in Hs as [Hsio Hsm].
  split; [now apply Qeq_bool_iff in Hx |].
  assert (Hd1 := build_constraint_defined _ _ _ _ _ tt H1 (or_introl eq_refl)).
  assert (Hd2 := build_constraint_defined _ _ _ _ _ tt H2 (or_introl eq_refl)).
  destruct Hd1 as (x1 & Hx1). destruct Hd2 as (x2 & Hx2).
  assert (Hx1' := Hx1). assert (Hx2' := Hx2).
  rewrite Hr1 in Hx1'. rewrite Hr2 in Hx2'.
  bind_as Hx1' lo Hlo. bind_as Hx2' hi Hhi.
  injection Hx1' as <-. injection Hx2' as <-.
  split; [| split].
  - exists lo, hi. split; [assumption |]. split; [assumption |].
    assert (G1 := sat_constraints_in _ _ _ Hs1
                    (build_constraint_in H1 (or_introl eq_refl) Hx1)).
    assert (G2 := sat_constraints_in _ _ _ Hs2
                    (build_constraint_in H2 (or_introl eq_refl) Hx2)).
    simpl in G1, G2. apply Qle_bool_iff in G1, G2. unfold capacity.
    rewrite !Qmult_assoc. split; assumption.
  - assert (G := sat_constraints_in _ _ _ Hsm
                   (build_constraint_in Hm (or_introl eq_refl) Hrm)).
    simpl in G. apply Qle_bool_iff in G. unfold capacity.
    now rewrite Qmult_assoc.
  - intros car Hcar.
    destruct (build_constraint_defined _ _ _ _ _ _ Hio Hcar) as (r & Hr).
    assert (Hr' := Hr). rewrite Hrio in Hr'.
    bind_as Hr' k1 Hk1. bind_as Hr' v1 Hv1. bind_as Hr' k2 Hk2.
    bind_as Hr' v2 Hv2. injection Hr' as <-.
    exists v1, v2, k1, k2. do 4 (split; [assumption |]).
    assert (Heq := sat_eq Hsio (build_constraint_in Hio Hcar Hr)).
    simpl in Heq. unfold capacity. rewrite Heq. now rewrite (Qmult_assoc v2).
Qed.
End segment_rules.

Lemma segment_lookup (f : fit_dict) (key : string) (d : list (carrier * coeff))
    (car : carrier) (k : coeff) (i : Z) (v : Q) :
  is_dict f -> collect f key = Ok d ->
  py_get d car = Ok k -> item k i = Ok v ->
  segment_coefficient f car key i = Ok v.
Proof.
  intros Hd Hc Hk Hv. unfold segment_coefficient.
  rewrite <- (collect_lookup _ _ _ car Hd Hc), Hk. exact Hv.
Qed.

Lemma T3_on_forces self b f bp a1 a2 t ind cs rho :
  is_dict f -> collect f "alpha1" = Ok a1 -> collect f "alpha2" = Ok a2 ->
  ind <> 0 ->
  T3.init_input_output self b bp a1 a2 t ind = Ok cs ->
  sat_constraints rho cs = true ->
  on_segment self b f bp rho t ind.
Proof.
  intros Hd Hc1 Hc2 Hind H Hsat. unfold T3.init_input_output in H.
  apply Z.eqb_neq in Hind. rewrite Hind in H.
  bind_as H c1 H1. bind_as H c2 H2. bind_as H c_io Hio. bind_as H c_mpl Hm.
  injection H as <-.
  destruct (segment_forces self b bp a1 a2 rho t ind c1 c2 c_io c_mpl
              _ _ _ _ eq_refl eq_refl eq_refl (fun _ => eq_refl)
              H1 H2 Hio Hm Hsat) as (Hx & Hseg & Hmpl & Hout).
  split; [exact Hx |]. split; [exact Hseg |]. split; [exact Hmpl |].
  intros car Hcar. destruct (Hout car Hcar)
    as (v1 & v2 & k1 & k2 & G1 & G2 & G3 & G4 & Heq).
  exists v1, v2.
  split; [apply (segment_lookup _ _ _ _ _ _ _ Hd Hc1 G1 G2) |].
  split; [apply (segment_lookup _ _ _ _ _ _ _ Hd Hc2 G3 G4) | exact Heq].
Qed.

(** X6: for function type 3 on a fitted technology, the breakpoints of the
    carrier the fit lists last serve every carrier, and every solution of the
    block [construct_tech_model] returns is, at every step, either off
    ([var_x = 0], every output 0) or on a segment [i] with
    [1 <= i < len(bp_x)] (at least one: neighbouring segments share a
    breakpoint): [var_x = 1], the main input between
    [bp_x[i-1]] and [bp_x[i]] times the capacity, above the minimal part load
    and below the capacity, and every output
    [alpha1[i-1] * input + alpha2[i-1] * size * rated_power]. *)
Theorem type_3_segments (self : Conv3) (b : Block) (data : Data) (b' : Block)
    (f : fit_dict) :
  performance_function_type (options self) = 3 ->
  fit (coeff_ti self) = Some f ->
  is_dict f ->
  construct_tech_model self b data = Ok b' ->
  exists bp_x n,
    last_breakpoints f = Ok bp_x /\ coeff_len bp_x = Ok n
    /\ forall rho t,
        feasible rho b' = true -> In t (set_t_performance (base self)) ->
        (exists i, 1 <= i < n /\ on_segment self b f bp_x rho t i
                   /\ (rho (input t (main_carrier self))
                       <= capacity self rho)%Q)
        \/ ((rho (var_x t) == 0)%Q
            /\ forall car, In car (set_output_carriers b) ->
                           (rho (output t car) == 0)%Q).
Proof.
  intros Epft Hfit Hd H.
  destruct (construct_keeps _ _ _ _ H) as (b1 & H1 & _ & Hdis & Hsize).
  unfold performance_function in H1. rewrite Epft in H1. simpl in H1.
  destruct (type_3_spec_fit _ _ _ H1)
    as (f' & bp_x & a1 & a2 & n & ds & Hf' & Hbp & Ha1 & Ha2 & Hn & He & Hb).
  rewrite (get_fit_Some _ _ Hfit) in Hf'. injection Hf' as <-.
  exists bp_x, n. split; [now apply collect_bp_x_last |].
  split; [assumption |]. intros rho t Hf Ht.
  destruct (build_disjunction_in _ _ _ _ _ _ Hb t Ht) as (d & Hd' & Et).
  assert (Hin : In d (disjunctions b')).
  { apply Hdis. apply (extends_in_disjunctions _ He). now right. }
  destruct (feasible_disjunction _ _ _ Hf Hin) as (dj & Hdj & Hsat).
  destruct (build_disjunction_inv _ _ _ _ _ _ Hb d dj Hd' Hdj)
    as (_ & ind & Hind & Hr & _).
  rewrite Et in Hr. unfold sat_disjunct in Hsat. apply in_range_iff in Hind.
  destruct (Z.eq_dec ind 0) as [-> | Hne].
  - right. destruct (T3_off_forces _ _ _ _ _ _ _ Hr rho Hsat) as (Hx & Ho & _).
    split; [exact Hx |]. intros car Hcar. apply Ho.
    now rewrite declare_var_x_outputs.
  - left. exists ind. split; [lia |]. split.
    + assert (Hon := T3_on_forces _ _ _ _ _ _ _ _ _ rho Hd Ha1 Ha2 Hne Hr Hsat).
      unfold on_segment in *.
      now rewrite declare_var_x_outputs in Hon.
    + apply feasible_constraints in Hf. apply (sat_le Hf (Hsize t Ht)).
Qed.

Lemma type_3_segments_witness :
  exists bp_x n,
    last_breakpoints ex_fit_piecewise = Ok bp_x /\ coeff_len bp_x = Ok n
    /\ forall rho t,
        feasible rho (built ex_type3_standby ex_block ex_data) = true ->
        In t (set_t_performance (base ex_type3_standby)) ->
        (exists i, 1 <= i < n
                   /\ on_segment ex_type3_standby ex_block ex_fit_piecewise
                                 bp_x rho t i
                   /\ (rho (input t (main_carrier ex_type3_standby))
                       <= capacity ex_type3_standby rho)%Q)
        \/ ((rho (var_x t) == 0)%Q
            /\ forall car, In car (set_output_carriers ex_block) ->
                           (rho (output t car) == 0)%Q).
Proof.
  apply (type_3_segments ex_type3_standby ex_block ex_data
           (built ex_type3_standby ex_block ex_data) ex_fit_piecewise).
  - reflexivity.
  - reflexivity.
  - unfold is_dict. simpl. repeat constructor; simpl; intuition discriminate.
  - vm_compute. reflexivity.
Defined.

(** ** Type 4 *)

Lemma type_4_spec_fit (self : Conv3) (b b' : Block) :
  _performance_function_type_4 self b = Ok b' ->
  exists f bp_x alpha1 alpha2 su sd n ds,
    get_fit self = Ok f
    /\ collect_bp_x f = Ok (Some bp_x)
    /\ collect f "alpha1" = Ok alpha1
    /\ collect f "alpha2" = Ok alpha2
    /\ startup_shutdown_times self = Some (su, sd)
    /\ coeff_len bp_x = Ok n
    /\ extends b b' [] ds
    /\ build_disjunction "dis_SUSD_trajectory" "disjunction_SUSD_traject"
         (T4.init_SUSD_trajectories self b bp_x alpha1 alpha2 su sd)
         (set_t_full (base self)) (range 0 (su + sd + n)) = Ok ds.
Proof.
  unfold _performance_function_type_4, startup_shutdown_times. intros H.
  bind_as H f Hf. bind_as H fitted Hfitted.
  destruct fitted as [bp [alpha1 alpha2]].
  apply collect_piecewise_Ok in Hfitted as (Hbp & Ha1 & Ha2).
  cbn [fst snd] in H. bind_as H su0 Hsu. bind_as H sd0 Hsd.
  destruct (SU_time (dynamics (base self))) as [su1 |]; [| discriminate].
  destruct (SD_time (dynamics (base self))) as [sd1 |]; [| discriminate].
  injection Hsu as ->. injection Hsd as ->.
  destruct (normalise_SU_SD su0 sd0) as [su sd].
  bind_as H bp_x Hbpx. bind_as H n Hn. bind_as H ds Hds. injection H as <-.
  destruct bp as [c |]; [| discriminate]. injection Hbpx as ->.
  exists f, bp_x, alpha1, alpha2, su, sd, n, ds.
  do 6 (split; [assumption || reflexivity |]).
  split; [apply extends_add_disjunctions | assumption].
Qed.

(** The [i]-th value of the multiples, counted from 0. *)
Lemma py_index_steps (mpl : Q) (n i : Z) :
  0 <= i < n ->
  py_index (steps mpl n) i
  = Ok ((mpl / inject_Z (n + 1)) * inject_Z (i + 1))%Q.
Proof.
  intros Hi. unfold py_index.
  destruct (i <? 0) eqn:E; [apply Z.ltb_lt in E; lia |]. rewrite E.
  unfold steps, range. rewrite !nth_error_map, nth_error_seq.
  destruct (Nat.ltb (Z.to_nat i) (Z.to_nat (n + 1 - 1))) eqn:El.
  - cbn [option_map]. rewrite Nat.add_0_l.
    replace (1 + Z.of_nat (Z.to_nat i)) with (i + 1) by lia. reflexivity.
  - apply Nat.ltb_ge in El. lia.
Qed.

Section type_4_rules.
Variables (self : Conv3) (b : Block) (f : fit_dict) (bp : coeff)
          (a1 a2 : list (carrier * coeff)) (su sd t ind : Z)
          (cs : list Constraint) (rho : valuation).
Hypothesis Hd : is_dict f.
Hypothesis Hc1 : collect f "alpha1" = Ok a1.
Hypothesis Hc2 : collect f "alpha2" = Ok a2.
Hypothesis Hrule :
  T4.init_SUSD_trajectories self b bp a1 a2 su sd t ind = Ok cs.
Hypothesis Hsat : sat_constraints rho cs = true.

Lemma first_segment_forced (cn : string) (c_out : list Constraint) :
  build_constraint cn AtCar (T4.init_output_first self a1 a2 t)
                   (set_output_carriers b) = Ok c_out ->
  sat_constraints rho c_out = true ->
  first_segment_outputs self b f rho t.
Proof.
  intros Hb Hs car Hcar.
  destruct (build_constraint_defined _ _ _ _ _ _ Hb Hcar) as (r & Hr).
  assert (Hr' := Hr). unfold T4.init_output_first in Hr'.
  bind_as Hr' k1 Hk1. bind_as Hr' v1 Hv1. bind_as Hr' k2 Hk2.
  bind_as Hr' v2 Hv2. injection Hr' as <-.
  exists v1, v2.
  split; [apply (segment_lookup _ _ _ _ _ _ _ Hd Hc1 Hk1 Hv1) |].
  split; [apply (segment_lookup _ _ _ _ _ _ _ Hd Hc2 Hk2 Hv2) |].
  assert (Heq := sat_eq Hs (build_constraint_in Hb Hcar Hr)).
  simpl in Heq. unfold capacity. rewrite Heq. now rewrite (Qmult_assoc v2).
Qed.

Lemma T4_mode_off : ind = 0 -> mode_off self b su sd rho t.
Proof.
  intros ->. unfold T4.init_SUSD_trajectories in Hrule. simpl in Hrule.
  apply attribute_bind in Hrule as [_ Hrule].
  bind_as Hrule c_y Hy. bind_as Hrule c_z Hz. bind_as Hrule c_in Hin.
  bind_as Hrule c_out Hout. injection Hrule as E. rewrite <- E in Hsat.
  apply sat_constraints_cons in Hsat as [Hx Hs].
  apply sat_constraints_app in Hs as [Hsy Hs].
  apply sat_constraints_app in Hs as [Hsz Hs].
  apply sat_constraints_app in Hs as [Hsin Hsout].
  split; [now apply Qeq_bool_iff in Hx |]. split; [| split; [| split]].
  - eapply input_off_forced; [| exact Hin | exact Hsin]. intros; reflexivity.
  - eapply output_off_forced; [| exact Hout | exact Hsout]. intros; reflexivity.
  - intros i Hi.
    assert (Hr : In i (range 1 (su + 1))) by (apply in_range_iff; lia).
    apply (guarded_forced Hy Hr eq_refl Hsy).
  - intros j Hj.
    assert (Hr : In j (range 1 (sd + 1))) by (apply in_range_iff; lia).
    apply (guarded_forced Hz Hr eq_refl Hsz).
Qed.

Lemma T4_mode_startup :
  1 <= ind <= su -> mode_startup self b f su rho t ind.
Proof.
  intros Hi. unfold T4.init_SUSD_trajectories, in_range in Hrule.
  destruct (ind =? 0) eqn:E0; [apply Z.eqb_eq in E0; lia |].
  destruct ((1 <=? ind) && (ind <? su + 1)) eqn:E1;
    [| apply andb_false_iff in E1; rewrite Z.leb_gt, Z.ltb_ge in E1; lia].
  apply attribute_bind in Hrule as [_ Hrule].
  bind_as Hrule c_y Hy. bind_as Hrule c_z Hz. bind_as Hrule c_in Hin.
  bind_as Hrule c_out Hout. injection Hrule as E. rewrite <- E in Hsat.
  apply sat_constraints_cons in Hsat as [Hx Hs].
  apply sat_constraints_app in Hs as [Hsy Hs].
  apply sat_constraints_app in Hs as [Hsz Hs].
  apply sat_constraints_app in Hs as [Hsin Hsout].
  unfold T4.one in *.
  split; [now apply Qeq_bool_iff in Hx |].
  split; [apply (guarded_forced (i := tt) Hy (or_introl eq_refl) eq_refl Hsy) |].
  split; [apply (guarded_forced (i := tt) Hz (or_introl eq_refl) eq_refl Hsz) |].
  split; [| now apply (first_segment_forced "const_output_SU" c_out)].
  assert (Hr : T4.init_input_SU self su t ind tt
               = Ok (Some (EqC (Var (input t (main_carrier self)))
                               (Mul (Var var_size)
                                    (Num (min_part_load (coeff_ti self)
                                          / inject_Z (su + 1)
                                          * inject_Z ind)%Q))))).
  { unfold T4.init_input_SU, SU_trajectory.
    destruct (0 <? su) eqn:Es; [| apply Z.ltb_ge in Es; lia].
    rewrite trajectory_map. fold (steps (min_part_load (coeff_ti self)) su).
    simpl. rewrite py_index_steps by lia. simpl.
    now replace (ind - 1 + 1) with ind by lia. }
  apply (sat_eq Hsin (build_constraint_in (i := tt) Hin (or_introl eq_refl) Hr)).
Qed.

Lemma T4_mode_shutdown :
  ind <> 0 -> ~ 1 <= ind <= su -> su + 1 <= ind <= su + sd ->
  mode_shutdown self b f sd rho t (ind - su).
Proof.
  intros H0 Hns Hi. unfold T4.init_SUSD_trajectories, in_range in Hrule.
  destruct (ind =? 0) eqn:E0; [apply Z.eqb_eq in E0; lia |].
  destruct ((1 <=? ind) && (ind <? su + 1)) eqn:E1;
    [apply andb_true_iff in E1; rewrite Z.leb_le, Z.ltb_lt in E1; lia |].
  destruct ((su + 1 <=? ind) && (ind <? su + sd + 1)) eqn:E2;
    [| apply andb_false_iff in E2; rewrite Z.leb_gt, Z.ltb_ge in E2; lia].
  apply attribute_bind in Hrule as [_ Hrule].
  bind_as Hrule c_z Hz. bind_as Hrule c_y Hy. bind_as Hrule c_in Hin.
  bind_as Hrule c_out Hout. injection Hrule as E. rewrite <- E in Hsat.
  apply sat_constraints_cons in Hsat as [Hx Hs].
  apply sat_constraints_app in Hs as [Hsz Hs].
  apply sat_constraints_app in Hs as [Hsy Hs].
  apply sat_constraints_app in Hs as [Hsin Hsout].
  unfold T4.one in *.
  split; [now apply Qeq_bool_iff in Hx |].
  split; [apply (guarded_forced (i := tt) Hz (or_introl eq_refl) eq_refl Hsz) |].
  split; [apply (guarded_forced (i := tt) Hy (or_introl eq_refl) eq_refl Hsy) |].
  split; [| now apply (first_segment_forced "const_output_SD" c_out)].
  destruct (build_constraint_defined _ _ _ _ _ tt Hin (or_introl eq_refl))
    as (r & Hr).
  assert (Hr' := Hr). unfold T4.init_input_SD, SD_trajectory in Hr'.
  destruct (0 <? sd) eqn:Es; [| apply Z.ltb_ge in Es; lia].
  simpl in Hr'. bind_as Hr' v Hv. injection Hr' as <-.
  exists v. split; [exact Hv |].
  apply (sat_eq Hsin (build_constraint_in (i := tt) Hin (or_introl eq_refl) Hr)).
Qed.

Lemma T4_mode_on :
  ind <> 0 -> ~ 1 <= ind <= su -> ~ su + 1 <= ind <= su + sd ->
  su + sd < ind ->
  on_segment self b f bp rho t (ind - (su + sd)).
Proof.
  intros H0 Hns Hnd Hi. unfold T4.init_SUSD_trajectories, in_range in Hrule.
  destruct (ind =? 0) eqn:E0; [apply Z.eqb_eq in E0; lia |].
  destruct ((1 <=? ind) && (ind <? su + 1)) eqn:E1;
    [apply andb_true_iff in E1; rewrite Z.leb_le, Z.ltb_lt in E1; lia |].
  destruct ((su + 1 <=? ind) && (ind <? su + sd + 1)) eqn:E2;
    [apply andb_true_iff in E2; rewrite Z.leb_le, Z.ltb_lt in E2; lia |].
  destruct (ind >? su + sd) eqn:E3;
    [| rewrite Z.gtb_ltb in E3; apply Z.ltb_ge in E3; lia].
  apply attribute_bind in Hrule as [_ Hrule].
  bind_as Hrule c1 H1. bind_as Hrule c2 H2. bind_as Hrule c_io Hio.
  bind_as Hrule c_mpl Hm. injection Hrule as E. rewrite <- E in Hsat.
  unfold T4.one in *.
  destruct (segment_forces self b bp a1 a2 rho t (ind - (su + sd))
              c1 c2 c_io c_mpl
              _ _ _ _ eq_refl eq_refl eq_refl (fun _ => eq_refl)
              H1 H2 Hio Hm Hsat) as (Hx & Hseg & Hmpl & Hout).
  split; [exact Hx |]. split; [exact Hseg |]. split; [exact Hmpl |].
  intros car Hcar. destruct (Hout car Hcar)
    as (v1 & v2 & k1 & k2 & G1 & G2 & G3 & G4 & Heq).
  exists v1, v2.
  split; [apply (segment_lookup _ _ _ _ _ _ _ Hd Hc1 G1 G2) |].
  split; [apply (segment_lookup _ _ _ _ _ _ _ Hd Hc2 G3 G4) | exact Heq].
Qed.
End type_4_rules.

Lemma normalise_SU_SD_signs (su0 sd0 su sd : Z) :
  normalise_SU_SD su0 sd0 = (su, sd) ->
  (su <= 0 /\ sd <= 0) \/ (0 <= su /\ 0 <= sd).
Proof.
  unfold normalise_SU_SD.
  destruct ((su0 <=? 0) && (sd0 <=? 0)) eqn:E.
  - apply andb_true_iff in E. rewrite !Z.leb_le in E. intros [= <- <-]. now left.
  - apply andb_false_iff in E. rewrite !Z.leb_gt in E.
    destruct (su0 <? 0) eqn:E1; [apply Z.ltb_lt in E1 | apply Z.ltb_ge in E1].
    + intros [= <- <-]. right. lia.
    + destruct (sd0 <? 0) eqn:E2;
        [apply Z.ltb_lt in E2 | apply Z.ltb_ge in E2];
        intros [= <- <-]; right; lia.
Qed.

(** X7: for function type 4 on a fitted technology, every solution of the
    block [construct_tech_model] returns is, at every step of the full time
    set, in one of four modes: off; start-up at an offset [k] of
    [1 .. SU_time] (main input [size * min_part_load / (SU_time + 1) * k],
    outputs by the fit of the first segment); shut-down at an offset [k] of
    [1 .. SD_time] (main input [size] times the [k]-th value of the shut-down
    trajectory); or on a segment [i] with [1 <= i < len(bp_x)].  [var_x] is 1
    on a segment and 0 in the three other modes; the start-up and shut-down
    inputs are not scaled by the rated power. *)
Theorem type_4_modes (self : Conv3) (b : Block) (data : Data) (b' : Block)
    (f : fit_dict) :
  performance_function_type (options self) = 4 ->
  fit (coeff_ti self) = Some f ->
  is_dict f ->
  construct_tech_model self b data = Ok b' ->
  exists su sd bp_x n,
    startup_shutdown_times self = Some (su, sd)
    /\ last_breakpoints f = Ok bp_x /\ coeff_len bp_x = Ok n
    /\ forall rho t,
        feasible rho b' = true -> In t (set_t_full (base self)) ->
        mode_off self b su sd rho t
        \/ (exists k, 1 <= k <= su /\ mode_startup self b f su rho t k)
        \/ (exists k, 1 <= k <= sd /\ mode_shutdown self b f sd rho t k)
        \/ (exists i, 1 <= i < n /\ on_segment self b f bp_x rho t i).
Proof.
  intros Epft Hfit Hd H.
  destruct (construct_keeps _ _ _ _ H) as (b1 & H1 & _ & Hdis & _).
  unfold performance_function in H1. rewrite Epft in H1. simpl in H1.
  destruct (type_4_spec_fit _ _ _ H1)
    as (f' & bp_x & a1 & a2 & su & sd & n & ds
        & Hf' & Hbp & Ha1 & Ha2 & Htimes & Hn & He & Hb).
  rewrite (get_fit_Some _ _ Hfit) in Hf'. injection Hf' as <-.
  exists su, sd, bp_x, n. split; [assumption |].
  split; [now apply collect_bp_x_last |]. split; [assumption |].
  intros rho t Hf Ht.
  destruct (build_disjunction_in _ _ _ _ _ _ Hb t Ht) as (d & Hd' & Et).
  assert (Hin : In d (disjunctions b')).
  { apply Hdis. apply (extends_in_disjunctions _ He). now right. }
  destruct (feasible_disjunction _ _ _ Hf Hin) as (dj & Hdj & Hsat).
  destruct (build_disjunction_inv _ _ _ _ _ _ Hb d dj Hd' Hdj)
    as (_ & ind & Hind & Hr & _).
  rewrite Et in Hr. unfold sat_disjunct in Hsat. apply in_range_iff in Hind.
  destruct (Z.eq_dec ind 0) as [E0 | E0].
  { left. eapply T4_mode_off; [exact Hr | exact Hsat | exact E0]. }
  right.
  destruct (Z_le_dec ind su) as [Es | Es].
  { left. exists ind. split; [lia |].
    eapply T4_mode_startup;
      [exact Hd | exact Ha1 | exact Ha2 | exact Hr | exact Hsat | lia]. }
  right.
  destruct (Z_le_dec ind (su + sd)) as [Ed | Ed].
  { left. exists (ind - su). split; [lia |].
    eapply T4_mode_shutdown;
      [exact Hd | exact Ha1 | exact Ha2 | exact Hr | exact Hsat
       | exact E0 | lia | lia]. }
  right. exists (ind - (su + sd)). split; [lia |].
  eapply T4_mode_on;
    [exact Hd | exact Ha1 | exact Ha2 | exact Hr | exact Hsat
     | exact E0 | lia | lia | lia].
Qed.

Lemma type_4_modes_witness :
  exists su sd bp_x n,
    startup_shutdown_times ex_type4_standby = Some (su, sd)
    /\ last_breakpoints ex_fit_piecewise = Ok bp_x /\ coeff_len bp_x = Ok n
    /\ forall rho t,
        feasible rho (built ex_type4_standby ex_block_dynamics ex_data) = true ->
        In t (set_t_full (base ex_type4_standby)) ->
        mode_off ex_type4_standby ex_block_dynamics su sd rho t
        \/ (exists k, 1 <= k <= su
                      /\ mode_startup ex_type4_standby ex_block_dynamics
                                      ex_fit_piecewise su rho t k)
        \/ (exists k, 1 <= k <= sd
                      /\ mode_shutdown ex_type4_standby ex_block_dynamics
                                       ex_fit_piecewise sd rho t k)
        \/ (exists i, 1 <= i < n
                      /\ on_segment ex_type4_standby ex_block_dynamics ex_fit_piecewise
                                    bp_x rho t i).
Proof.
  apply (type_4_modes ex_type4_standby ex_block_dynamics ex_data
           (built ex_type4_standby ex_block_dynamics ex_data) ex_fit_piecewise).
  - reflexivity.
  - reflexivity.
  - unfold is_dict. simpl. repeat constructor; simpl; intuition discriminate.
  - vm_compute. reflexivity.
Defined.

(** X8: the indices at which the start-up and shut-down indicators are
    pinned wrap around the end of the full time set, numbered [1 .. n], once.
    For a step [t] of [1 .. n] and a start-up offset [i] of [1 .. SU_time]
    with [t + SU_time - i < 2 n] (so whenever [SU_time <= n]) the start-up
    index is [(t + SU_time - i) mod n + 1], within [1 .. n]; with
    [t + SU_time - i >= 2 n] it is above [n].  For a shut-down offset [j] of
    [1 .. n + t] the shut-down index is [(t - j) mod n + 1], within
    [1 .. n]; for [j > n + t] it is 0 or less. *)
Theorem trajectory_indices_wrap (self : Conv3) (su t i j : Z) :
  let n := len (set_t_full (base self)) in
  1 <= t <= n ->
  (1 <= i <= su -> t + su - i < 2 * n ->
   T4.su_index self su t i = (t + su - i) mod n + 1
   /\ 1 <= T4.su_index self su t i <= n)
  /\ (1 <= i <= su -> 2 * n <= t + su - i -> n < T4.su_index self su t i)
  /\ (1 <= j <= n + t ->
      T4.sd_index self t j = (t - j) mod n + 1
      /\ 1 <= T4.sd_index self t j <= n)
  /\ (n + t < j -> T4.sd_index self t j <= 0).
Proof.
  intros n Ht. unfold T4.su_index, T4.sd_index. fold n.
  assert (Hn : 0 < n) by lia. split; [| split; [| split]].
  - intros Hi Hsu.
    assert (Hsu_eq :
              (if (t <? n - su) || (i >? su - (n - t))
               then t - i + su + 1 else t - i + su + 1 - n)
              = (t + su - i) mod n + 1).
    { destruct ((t <? n - su) || (i >? su - (n - t))) eqn:E.
      - apply orb_true_iff in E. rewrite Z.ltb_lt, Z.gtb_ltb, Z.ltb_lt in E.
        rewrite Z.mod_small by lia. lia.
      - apply orb_false_iff in E. rewrite Z.ltb_ge, Z.gtb_ltb, Z.ltb_ge in E.
        replace (t + su - i) with ((t + su - i - n) + 1 * n) by lia.
        rewrite Z.mod_add by lia. rewrite Z.mod_small by lia. lia. }
    rewrite Hsu_eq. pose proof (Z.mod_pos_bound (t + su - i) n Hn). lia.
  - intros Hi Hsu.
    destruct ((t <? n - su) || (i >? su - (n - t))) eqn:E.
    + apply orb_true_iff in E. rewrite Z.ltb_lt, Z.gtb_ltb, Z.ltb_lt in E. lia.
    + lia.
  - intros Hj.
    assert (Hsd_eq :
              (if j <=? t then t - j + 1 else n + (t - j + 1))
              = (t - j) mod n + 1).
    { destruct (j <=? t) eqn:E.
      - apply Z.leb_le in E. rewrite Z.mod_small by lia. lia.
      - apply Z.leb_gt in E.
        replace (t - j) with ((t - j + n) + (-1) * n) by lia.
        rewrite Z.mod_add by lia. rewrite Z.mod_small by lia. lia. }
    rewrite Hsd_eq. pose proof (Z.mod_pos_bound (t - j) n Hn). lia.
  - intros Hj. destruct (j <=? t) eqn:E; [apply Z.leb_le in E |]; lia.
Qed.

Lemma trajectory_indices_wrap_witness :
  T4.su_index ex_type4_standby 2 2 1 = 2
  /\ T4.sd_index ex_type4_standby 1 2 = 2.
Proof.
  assert (Ht2 : 1 <= 2 <= len (set_t_full (base ex_type4_standby)))
    by (vm_compute; split; discriminate).
  assert (Ht1 : 1 <= 1 <= len (set_t_full (base ex_type4_standby)))
    by (vm_compute; split; discriminate).
  assert (Hi : 1 <= 1 <= 2) by lia.
  assert (Hsu : 2 + 2 - 1 < 2 * len (set_t_full (base ex_type4_standby)))
    by (vm_compute; reflexivity).
  assert (Hj : 1 <= 2 <= len (set_t_full (base ex_type4_standby)) + 1)
    by (vm_compute; split; discriminate).
  destruct (trajectory_indices_wrap ex_type4_standby 2 2 1 1 Ht2)
    as (Hsu_in & _).
  destruct (trajectory_indices_wrap ex_type4_standby 2 1 1 2 Ht1)
    as (_ & _ & Hsd_in & _).
  destruct (Hsu_in Hi Hsu) as (E1 & _).
  destruct (Hsd_in Hj) as (E2 & _).
  split; [rewrite E1 | rewrite E2]; reflexivity.
Defined.

(** ** The off disjunct of the mode disjunctions *)

Lemma zero_in_range (m : Z) : 0 < m -> In 0 (range 0 m).
Proof. intros H. apply in_range_iff. lia. Qed.

(** X17: for function types 2 and 3 the performance function adds one
    disjunction per step of the performance time set, with the indicators
    [range(0, n)], [n] being 2 for type 2 and the number of breakpoints of
    the last fitted carrier for type 3.  When [n > 0] every one of them has
    the off disjunct (indicator 0), whose constraints force [var_x] and every
    output to 0; without standby power every input to 0; with standby power
    the input of the standby carrier (the main input carrier unless
    [standby_power_carrier] is set) to
    [standby_power * var_size * rated_power] and every input carrier other
    than the main one to 0, whatever the standby carrier is. *)
Theorem off_branch_types_2_3 (self : Conv3) (b b1 : Block) :
  In (performance_function_type (options self)) [2; 3] ->
  performance_function self b = Ok b1 ->
  exists n ds,
    (performance_function_type (options self) = 2 -> n = 2)
    /\ (performance_function_type (options self) = 3 ->
        exists f bp_x,
          get_fit self = Ok f /\ last_breakpoints f = Ok bp_x
          /\ coeff_len bp_x = Ok n)
    /\ extends b b1 [] ds
    /\ (forall t, In t (set_t_performance (base self)) ->
                  exists d, In d ds /\ disjunction_t d = t)
    /\ (0 < n ->
        forall d, In d ds -> exists dj, In dj (disjuncts d) /\ dis_ind dj = 0)
    /\ forall d dj, In d ds -> In dj (disjuncts d) -> dis_ind dj = 0 ->
                    off_branch_forces self b (disjunction_t d)
                                      (dis_constraints dj).
Proof.
  intros Hpft H. unfold performance_function in H. simpl in Hpft.
  destruct Hpft as [E | [E | []]]; rewrite <- E in H; simpl in H.
  - destruct (type_2_spec _ _ _ H) as (a1 & a2 & ds & He & Hb).
    exists 2, ds. split; [reflexivity |].
    split; [intros E'; rewrite E' in E; discriminate |].
    split; [assumption |]. split; [| split].
    + intros t Ht. apply (build_disjunction_in _ _ _ _ _ _ Hb t Ht).
    + intros Hn d Hd.
      destruct (build_disjunction_disjunct _ _ _ _ _ _ Hb d 0 Hd
                  (zero_in_range 2 Hn)) as (dj & Hdj & Hi & _). eauto.
    + intros d dj Hd Hdj Hi.
      destruct (build_disjunction_inv _ _ _ _ _ _ Hb d dj Hd Hdj)
        as (_ & ind & _ & Hr & Hind).
      rewrite <- Hind, Hi in Hr. apply T2_off_forces in Hr.
      unfold off_branch_forces in *.
      now rewrite declare_var_x_inputs, declare_var_x_outputs in Hr.
  - destruct (type_3_spec_fit _ _ _ H)
      as (f & bp & a1 & a2 & n & ds & Hf & Hbp & _ & _ & Hn & He & Hb).
    exists n, ds. split; [intros E'; rewrite E' in E; discriminate |].
    split.
    { intros _. exists f, bp. split; [assumption |].
      split; [now apply collect_bp_x_last | assumption]. }
    split; [assumption |]. split; [| split].
    + intros t Ht. apply (build_disjunction_in _ _ _ _ _ _ Hb t Ht).
    + intros Hpos d Hd.
      destruct (build_disjunction_disjunct _ _ _ _ _ _ Hb d 0 Hd
                  (zero_in_range n Hpos)) as (dj & Hdj & Hi & _). eauto.
    + intros d dj Hd Hdj Hi.
      destruct (build_disjunction_inv _ _ _ _ _ _ Hb d dj Hd Hdj)
        as (_ & ind & _ & Hr & Hind).
      rewrite <- Hind, Hi in Hr. apply T3_off_forces in Hr.
      unfold off_branch_forces in *.
      now rewrite declare_var_x_inputs, declare_var_x_outputs in Hr.
Qed.

Lemma off_branch_types_2_3_witness :
  exists d dj,
    In d (disjunctions (performance_block ex_type3_standby ex_block))
    /\ disjunction_t d = 1 /\ In dj (disjuncts d) /\ dis_ind dj = 0
    /\ off_branch_forces ex_type3_standby ex_block 1 (dis_constraints dj).
Proof.
  assert (Hpft : In (performance_function_type (options ex_type3_standby))
                    [2; 3]) by (simpl; auto).
  assert (H : performance_function ex_type3_standby ex_block
              = Ok (performance_block ex_type3_standby ex_block))
    by (vm_compute; reflexivity).
  destruct (off_branch_types_2_3 ex_type3_standby ex_block _ Hpft H)
    as (n & ds & _ & H3 & He & Hall & Hex & Hforce).
  destruct (H3 eq_refl) as (f & bp & Hf & Hbp & Hn).
  injection Hf as <-. injection Hbp as <-. injection Hn as <-.
  destruct (Hall 1) as (d & Hd & Et); [simpl; auto |].
  destruct (Hex eq_refl d Hd) as (dj & Hdj & Hi).
  exists d, dj. split.
  { apply (extends_in_disjunctions _ He). now right. }
  split; [exact Et |]. split; [exact Hdj |]. split; [exact Hi |].
  rewrite <- Et. now apply Hforce.
Defined.

(** C10: for function type 4 the performance function adds one disjunction
    per step of the full time set, with the indicators
    [range(0, SU_time + SD_time + len(bp_x))] ([SU_time] and [SD_time] as the
    method uses them).  When that range is not empty every one of them has
    the off disjunct (indicator 0), and its constraints force [var_x], every
    input carrier (the standby carrier too) and every output to 0.  The
    method returns the same block whatever the standby power and the
    standby carrier are, which is not so for types 2 and 3. *)
Theorem type_4_off_branch (self : Conv3) (b b1 : Block) :
  _performance_function_type_4 self b = Ok b1 ->
  (exists f bp_x su sd n ds,
      get_fit self = Ok f /\ last_breakpoints f = Ok bp_x
      /\ coeff_len bp_x = Ok n
      /\ startup_shutdown_times self = Some (su, sd)
      /\ extends b b1 [] ds
      /\ (forall t, In t (set_t_full (base self)) ->
                    exists d, In d ds /\ disjunction_t d = t)
      /\ (0 < su + sd + n ->
          forall d, In d ds ->
                    exists dj, In dj (disjuncts d) /\ dis_ind dj = 0)
      /\ forall d dj, In d ds -> In dj (disjuncts d) -> dis_ind dj = 0 ->
                      off_branch_4_forces b (disjunction_t d)
                                          (dis_constraints dj))
  /\ (forall sp spc,
         _performance_function_type_4 (with_standby self sp spc) b = Ok b1)
  /\ (exists self2 sp spc b2,
         _performance_function_type_2 (with_standby self2 sp spc) b2
         <> _performance_function_type_2 self2 b2)
  /\ (exists self3 sp spc b3,
         _performance_function_type_3 (with_standby self3 sp spc) b3
         <> _performance_function_type_3 self3 b3).
Proof.
  intros H. split; [| split; [| split]];
    [| intros sp spc; now rewrite type_4_ignores_standby
     | exists ex_type2, (1 # 10)%Q, None, ex_block;
       exact (proj1 types_2_3_read_standby)
     | exists ex_type3_standby, (-1)%Q, None, ex_block;
       exact (proj2 types_2_3_read_standby) ].
  destruct (type_4_spec_fit _ _ _ H)
    as (f & bp & a1 & a2 & su & sd & n & ds
        & Hf & Hbp & _ & _ & Htimes & Hn & He & Hb).
  exists f, bp, su, sd, n, ds. split; [assumption |].
  split; [now apply collect_bp_x_last |]. do 3 (split; [assumption |]).
  split; [| split].
  - intros t Ht. apply (build_disjunction_in _ _ _ _ _ _ Hb t Ht).
  - intros Hpos d Hd.
    destruct (build_disjunction_disjunct _ _ _ _ _ _ Hb d 0 Hd
                (zero_in_range _ Hpos)) as (dj & Hdj & Hi & _). eauto.
  - intros d dj Hd Hdj Hi.
    destruct (build_disjunction_inv _ _ _ _ _ _ Hb d dj Hd Hdj)
      as (_ & ind & _ & Hr & Hind).
    rewrite <- Hind, Hi in Hr. now apply T4_off_forces in Hr.
Qed.

Lemma type_4_off_branch_witness :
  exists d dj,
    In d (disjunctions (performance_block ex_type4_standby ex_block_dynamics))
    /\ disjunction_t d = 1 /\ In dj (disjuncts d) /\ dis_ind dj = 0
    /\ off_branch_4_forces ex_block_dynamics 1 (dis_constraints dj)
    /\ _performance_function_type_4 (with_standby ex_type4_standby (-1) None)
                                    ex_block_dynamics
       = Ok (performance_block ex_type4_standby ex_block_dynamics).
Proof.
  assert (H : _performance_function_type_4 ex_type4_standby ex_block_dynamics
              = Ok (performance_block ex_type4_standby ex_block_dynamics))
    by (vm_compute; reflexivity).
  destruct (type_4_off_branch ex_type4_standby ex_block_dynamics _ H)
    as ((f & bp & su & sd & n & ds
         & Hf & Hbp & Hn & Ht & He & Hall & Hex & Hforce) & Hsame & _).
  injection Hf as <-. injection Hbp as <-. injection Hn as <-.
  injection Ht as <- <-.
  destruct (Hall 1) as (d & Hd & Et); [simpl; auto |].
  destruct (Hex eq_refl d Hd) as (dj & Hdj & Hi).
  exists d, dj. split.
  { apply (extends_in_disjunctions _ He). now right. }
  split; [exact Et |]. split; [exact Hdj |]. split; [exact Hi |].
  split; [rewrite <- Et; now apply Hforce | apply Hsame].
Defined.

(** C4 at the failing input: with standby power 0.1 on electricity while gas
    is the main input carrier, the off disjunct of type 2 at step 1 does not
    hold the main-carrier input at [standby_power * size * rated_power] (it
    is satisfied with 7 units of gas and size 0, and states nothing about
    the gas input); it holds the electricity input at the standby value and
    at 0 at once, so that it can only be satisfied with size 0. *)
Lemma off_branch_standby_divergence :
  performance_function ex_type2_standby_electricity ex_block
  = Ok (performance_block ex_type2_standby_electricity ex_block)
  /\ exists d dj,
      In d (disjunctions
              (performance_block ex_type2_standby_electricity ex_block))
      /\ disjunction_t d = 1
      /\ In dj (disjuncts d) /\ dis_ind dj = 0
      /\ sat_disjunct gas_only_valuation dj = true
      /\ ~ (gas_only_valuation (input 1 "gas")
            == (1 # 10) * gas_only_valuation var_size * (1 # 1))%Q
      /\ forall rho,
          sat_disjunct rho dj = true ->
          (rho (input 1 "electricity")
           == (1 # 10) * rho var_size * (1 # 1))%Q
          /\ (rho (input 1 "electricity") == 0)%Q
          /\ (rho var_size == 0)%Q.
Proof.
  split; [vm_compute; reflexivity |].
  do 2 eexists. split; [vm_compute; left; reflexivity |].
  split; [reflexivity |]. split; [simpl; left; reflexivity |].
  split; [reflexivity |]. split; [vm_compute; reflexivity |].
  split; [intros H; vm_compute in H; discriminate |].
  intros rho Hs. unfold sat_disjunct in Hs. cbn [dis_constraints] in Hs.
  assert (H1 := sat_eq (cn := "const_input") (i := AtCar "gas")
                  (a := Var (input 1 "electricity"))
                  (b := Mul (Mul (Num (1 # 10)) (Var var_size)) (Num (1 # 1)))
                  Hs (or_intror (or_introl eq_refl))).
  assert (H2 := sat_eq (cn := "const_input") (i := AtCar "electricity")
                  (a := Var (input 1 "electricity")) (b := Num 0)
                  Hs (or_intror (or_intror (or_introl eq_refl)))).
  simpl in H1, H2. split; [exact H1 |]. split; [exact H2 |].
  rewrite H2 in H1. lra.
Qed.

(** ** Ramping coupled to the on-indicator *)

Lemma ramping_operation_forces (self : Conv3) (b : Block) (rate : expr)
    (t ind : Z) (cs : list Constraint) (rho : valuation) :
  1 < t ->
  RR.init_ramping_operation_on self b rate t ind = Ok cs ->
  sat_constraints rho cs = true ->
  ((rho (var_x t) - rho (var_x (t - 1)) == 0)%Q
   /\ (eval rho (py_neg rate)
       <= rho (input t (main_carrier self))
          - rho (input (t - 1) (main_carrier self)))%Q
   /\ (rho (input t (main_carrier self))
       - rho (input (t - 1) (main_carrier self)) <= eval rho rate)%Q)
  \/ (rho (var_x t) - rho (var_x (t - 1)) == 1)%Q
  \/ (rho (var_x t) - rho (var_x (t - 1)) == -1)%Q.
Proof.
  intros Ht H Hsat. unfold RR.init_ramping_operation_on in H.
  apply Z.gtb_lt in Ht. rewrite Ht in H.
  apply attribute_bind in H as [_ H].
  destruct (ind =? 0); [| destruct (ind =? 1)].
  - left. bind_as H c_down Hd. bind_as H c_up Hu. injection H as <-.
    apply sat_constraints_cons in Hsat as [Hx Hs].
    apply sat_constraints_app in Hs as [Hsd Hsu].
    split; [now apply Qeq_bool_iff in Hx |]. split.
    + apply (sat_le Hsd (build_constraint_in (i := tt) Hd
                           (or_introl eq_refl) eq_refl)).
    + apply (sat_le Hsu (build_constraint_in (i := tt) Hu
                           (or_introl eq_refl) eq_refl)).
  - right; left. injection H as <-.
    apply sat_constraints_cons in Hsat as [Hx _]. now apply Qeq_bool_iff in Hx.
  - right; right. injection H as <-.
    apply sat_constraints_cons in Hsat as [Hx _]. now apply Qeq_bool_iff in Hx.
Qed.

(** X9: with ramping enabled and the formulation coupled to [var_x]
    (function type other than 1, [ramping_const_int == 1]), every solution
    of the block [construct_tech_model] returns has, at every step [t > 1]
    of the performance time set, [var_x[t] - var_x[t-1]] equal to 0, 1 or
    -1, and where it is 0 the main input changes by at most
    [size / ramping_time] (or [ref_size / ramping_time]); a step at which
    [var_x] changes is exempt.  The bound is on the input of the performance
    time set also when typical days are used, and no plain ramping
    constraint is added. *)
Theorem integer_coupled_ramping (self : Conv3) (b : Block) (data : Data)
    (b' : Block) (rt : Q) :
  construct_tech_model self b data = Ok b' ->
  ramping_time (dynamics (base self)) = Some rt ->
  ~ (rt == -1)%Q ->
  integer_coupled self = true ->
  (forall rho t,
      feasible rho b' = true ->
      In t (set_t_performance (base self)) -> 1 < t ->
      ((rho (var_x t) - rho (var_x (t - 1)) == 0)%Q
       /\ (Qabs (rho (input t (main_carrier self))
                 - rho (input (t - 1)%Z (main_carrier self)))
           <= ramping_rate_value self rho rt)%Q)
      \/ (rho (var_x t) - rho (var_x (t - 1)) == 1)%Q
      \/ (rho (var_x t) - rho (var_x (t - 1)) == -1)%Q)
  /\ (forall c, In c (constraints b') -> ramping_named c ->
                In c (constraints b)).
Proof.
  intros H Hrt Hne Hic.
  destruct (construct_before_ramping _ _ _ _ H)
    as (b3 & cs & ds & He & Hnames & _ & Hgate).
  rewrite Hrt in Hgate.
  destruct (Qeq_bool rt (-1)) eqn:E; [now apply Qeq_bool_iff in E |].
  simpl in Hgate.
  destruct (define_ramping_rates_spec _ _ _ _ Hgate)
    as (rt' & rate & Hrt' & Hrate & Hs).
  rewrite Hrt in Hrt'. injection Hrt' as <-.
  rewrite Hic in Hs. destruct Hs as (dsr & He' & Hb).
  destruct (ramping_rate_of_Ok _ _ _ Hrate) as [_ Hval]. split.
  - intros rho t Hf Ht Hgt.
    destruct (build_disjunction_in _ _ _ _ _ _ Hb t Ht) as (d & Hd & Et).
    assert (Hin : In d (disjunctions b'))
      by (apply (extends_in_disjunctions _ He'); now right).
    destruct (feasible_disjunction _ _ _ Hf Hin) as (dj & Hdj & Hsat).
    destruct (build_disjunction_inv _ _ _ _ _ _ Hb d dj Hd Hdj)
      as (_ & ind & _ & Hr & _).
    rewrite Et in Hr.
    destruct (ramping_operation_forces _ _ _ _ _ _ rho Hgt Hr Hsat)
      as [(Hx & Hlo & Hhi) | [Hx | Hx]]; [left | right; left | right; right];
      try exact Hx.
    split; [exact Hx |]. destruct (Hval rho) as [Hv Hn].
    rewrite Hn in Hlo. rewrite Hv in Hhi.
    apply Qabs_Qle_condition. split; assumption.
  - intros c Hc Hn.
    rewrite (ext_constraints _ _ _ _ He'), app_nil_r in Hc.
    rewrite (ext_constraints _ _ _ _ He) in Hc.
    apply in_app_iff in Hc as [Hc | Hc]; [assumption |].
    now destruct (Hnames c Hc).
Qed.

Lemma integer_coupled_ramping_witness :
  ((zero_valuation (var_x 2) - zero_valuation (var_x (2 - 1)) == 0)%Q
   /\ (Qabs (zero_valuation (input 2 (main_carrier ex_type2_coupled))
             - zero_valuation (input (2 - 1)%Z (main_carrier ex_type2_coupled)))
       <= ramping_rate_value ex_type2_coupled zero_valuation (2 # 1))%Q)
  \/ (zero_valuation (var_x 2) - zero_valuation (var_x (2 - 1)) == 1)%Q
  \/ (zero_valuation (var_x 2) - zero_valuation (var_x (2 - 1)) == -1)%Q.
Proof.
  assert (Hc : construct_tech_model ex_type2_coupled ex_block ex_data
               = Ok (built ex_type2_coupled ex_block ex_data))
    by (vm_compute; reflexivity).
  assert (Hrt : ramping_time (dynamics (base ex_type2_coupled)) = Some (2 # 1))
    by reflexivity.
  assert (Hne : ~ (2 # 1 == -1)%Q) by (intros E; vm_compute in E; discriminate).
  assert (Hic : integer_coupled ex_type2_coupled = true) by reflexivity.
  destruct (integer_coupled_ramping ex_type2_coupled ex_block ex_data _ _
              Hc Hrt Hne Hic) as (Hsol & _).
  apply (Hsol zero_valuation 2).
  - vm_compute. reflexivity.
  - simpl. auto.
  - lia.
Defined.

(** ** Exceptions of the construction *)

Lemma size_constraint_total (self : Conv3) :
  exists c_size,
    build_constraint "const_size" AtT (CTM.init_size_constraint self)
                     (set_t_performance (base self)) = Ok c_size.
Proof.
  apply build_constraint_total. intros t _. unfold CTM.init_size_constraint.
  eauto.
Qed.

(** X10: a [ramping_time] of 0 makes [construct_tech_model] raise
    [ZeroDivisionError], with or without a reference size, once the
    performance function and the input ratios went through. *)
Theorem ramping_time_zero (self : Conv3) (b : Block) (data : Data)
    (b1 b2 : Block) (rt : Q) :
  performance_function self b = Ok b1 ->
  input_ratio_constraints self b1 = Ok b2 ->
  ramping_time (dynamics (base self)) = Some rt ->
  (rt == 0)%Q ->
  construct_tech_model self b data = Err ZeroDivisionError.
Proof.
  intros H1 H2 Hrt H0. unfold construct_tech_model. rewrite H1. simpl.
  rewrite H2. simpl. destruct (size_constraint_total self) as (c & ->). simpl.
  rewrite Hrt.
  assert (E1 : Qeq_bool rt (-1) = false).
  { destruct (Qeq_bool rt (-1)) eqn:E; [| reflexivity].
    apply Qeq_bool_iff in E. rewrite H0 in E. discriminate. }
  rewrite E1. simpl. unfold _define_ramping_rates. rewrite Hrt. simpl.
  unfold ramping_rate_of. apply Qeq_bool_iff in H0. now rewrite H0.
Qed.

Lemma ramping_time_zero_witness :
  construct_tech_model ex_type2_ramping_zero ex_block ex_data
  = Err ZeroDivisionError.
Proof.
  destruct (performance_function ex_type2_ramping_zero ex_block)
    as [b1 |] eqn:E1; [| vm_compute in E1; discriminate].
  destruct (input_ratio_constraints ex_type2_ramping_zero b1)
    as [b2 |] eqn:E2.
  - apply (ramping_time_zero ex_type2_ramping_zero ex_block ex_data b1 b2
             (0 # 1) E1 E2); reflexivity.
  - exfalso. vm_compute in E1. injection E1 as <-. vm_compute in E2.
    discriminate.
Defined.

(** X11: [construct_tech_model] on a technology that was not fitted raises
    [KeyError]: for the key ["fit"] with a function type of 1..4, and for the
    key ["phi"] when the performance function went through but the ratios
    are missing. *)
Theorem construct_unfitted (self : Conv3) (b : Block) (data : Data) :
  (fit (coeff_ti self) = None ->
   In (performance_function_type (options self)) [1; 2; 3; 4] ->
   construct_tech_model self b data = Err (KeyError "fit"))
  /\ (phi (coeff_ti self) = None ->
      forall b1, performance_function self b = Ok b1 ->
                 construct_tech_model self b data = Err (KeyError "phi")).
Proof.
  split.
  - intros Hfit Hpft. unfold construct_tech_model, performance_function.
    simpl in Hpft.
    destruct Hpft as [E | [E | [E | [E | []]]]]; rewrite <- E; simpl;
      [unfold _performance_function_type_1
      | unfold _performance_function_type_2
      | unfold _performance_function_type_3
      | unfold _performance_function_type_4];
      unfold get_fit; rewrite Hfit; reflexivity.
  - intros Hphi b1 H1. unfold construct_tech_model. rewrite H1. simpl.
    unfold input_ratio_constraints, get_phi. now rewrite Hphi.
Qed.

Lemma construct_unfitted_witness :
  construct_tech_model (ex_unfitted 3) ex_block ex_data = Err (KeyError "fit").
Proof.
  apply (proj1 (construct_unfitted (ex_unfitted 3) ex_block ex_data)).
  - reflexivity.
  - simpl. auto.
Defined.

(** X12: with an empty fit the construction of type 3 raises [NameError]
    for [bp_x], the name the loop over the fit never bound; so does type 4
    when [SU_time] and [SD_time] are in the dynamics, and with one of them
    missing it raises [KeyError] first. *)
Theorem construct_empty_fit (self : Conv3) (b : Block) (data : Data) :
  fit (coeff_ti self) = Some [] ->
  (performance_function_type (options self) = 3 ->
   construct_tech_model self b data = Err (NameError "bp_x"))
  /\ (performance_function_type (options self) = 4 ->
      construct_tech_model self b data
      = match SU_time (dynamics (base self)), SD_time (dynamics (base self)) with
        | None, _ => Err (KeyError "SU_time")
        | Some _, None => Err (KeyError "SD_time")
        | Some _, Some _ => Err (NameError "bp_x")
        end).
Proof.
  intros Hfit. split; intros E;
    unfold construct_tech_model, performance_function; rewrite E; simpl.
  - unfold _performance_function_type_3, get_fit. rewrite Hfit. reflexivity.
  - unfold _performance_function_type_4, get_fit. rewrite Hfit. simpl.
    destruct (SU_time (dynamics (base self))); simpl; [| reflexivity].
    destruct (SD_time (dynamics (base self))); simpl; [| reflexivity].
    now destruct (normalise_SU_SD _ _).
Qed.

Lemma construct_empty_fit_witness :
  construct_tech_model (ex_tech 3 [] (-1) None (1 # 1) no_dynamics)
                       ex_block ex_data
  = Err (NameError "bp_x").
Proof.
  apply (proj1 (construct_empty_fit
                  (ex_tech 3 [] (-1) None (1 # 1) no_dynamics)
                  ex_block ex_data eq_refl)).
  reflexivity.
Defined.

(** ** Standby power on another carrier than the main input *)

Lemma T2_on_pins self b a1 a2 t ind cs :
  ind <> 0 -> T2.init_input_output self b a1 a2 t ind = Ok cs ->
  In (x_on t) cs.
Proof.
  intros Hne H. unfold T2.init_input_output in H.
  apply Z.eqb_neq in Hne. rewrite Hne in H.
  bind_as H c1 H1. bind_as H c2 H2. injection H as <-. apply in_eq.
Qed.

Lemma T3_on_pins self b bp a1 a2 t ind cs :
  ind <> 0 -> T3.init_input_output self b bp a1 a2 t ind = Ok cs ->
  In (x_on t) cs.
Proof.
  intros Hne H. unfold T3.init_input_output in H.
  apply Z.eqb_neq in Hne. rewrite Hne in H.
  bind_as H c1 H1. bind_as H c2 H2. bind_as H c3 H3. bind_as H c4 H4.
  injection H as <-. apply in_eq.
Qed.

(** With standby power, the off disjunct of types 2 and 3 states the
    standby equality on the standby carrier and 0 for every input carrier
    other than the main one. *)
Lemma T2_off_standby self b a1 a2 t cs rho :
  T2.init_input_output self b a1 a2 t 0 = Ok cs ->
  Qeq_bool (standby_power (coeff_ti self)) (-1) = false ->
  In (main_carrier self) (set_input_carriers b) ->
  sat_constraints rho cs = true ->
  (rho (input t (standby_carrier self))
   == standby_power (coeff_ti self) * rho var_size * rated_power (base self))%Q
  /\ forall car, In car (set_input_carriers b) -> car <> main_carrier self ->
                 (rho (input t car) == 0)%Q.
Proof.
  unfold T2.init_input_output. simpl. intros H E Hmain Hsat. rewrite E in H.
  bind_as H c_in Hin. bind_as H c_out Hout. injection H as <-.
  apply sat_constraints_cons in Hsat as [_ Hsat].
  apply sat_constraints_app in Hsat as [Hs _].
  apply (standby_forced self b t _ _ _ rho (fun _ => eq_refl) Hin Hs Hmain).
Qed.

Lemma T3_off_standby self b bp a1 a2 t cs rho :
  T3.init_input_output self b bp a1 a2 t 0 = Ok cs ->
  Qeq_bool (standby_power (coeff_ti self)) (-1) = false ->
  In (main_carrier self) (set_input_carriers b) ->
  sat_constraints rho cs = true ->
  (rho (input t (standby_carrier self))
   == standby_power (coeff_ti self) * rho var_size * rated_power (base self))%Q
  /\ forall car, In car (set_input_carriers b) -> car <> main_carrier self ->
                 (rho (input t car) == 0)%Q.
Proof.
  unfold T3.init_input_output. simpl. intros H E Hmain Hsat. rewrite E in H.
  bind_as H c_in Hin. bind_as H c_out Hout. injection H as <-.
  apply sat_constraints_cons in Hsat as [_ Hsat].
  apply sat_constraints_app in Hsat as [Hs _].
  apply (standby_forced self b t _ _ _ rho (fun _ => eq_refl) Hin Hs Hmain).
Qed.

(** X13: for function types 2 and 3 with standby power on an input carrier
    other than the main one, the off disjunct states both the standby
    equality and 0 for the standby carrier's input; so in every solution of
    the block [construct_tech_model] returns, a step with [var_x = 0] has
    [standby_power * size * rated_power = 0] and a standby carrier's input
    of 0. *)
Theorem standby_on_other_carrier (self : Conv3) (b : Block) (data : Data)
    (b' : Block) :
  In (performance_function_type (options self)) [2; 3] ->
  ~ (standby_power (coeff_ti self) == -1)%Q ->
  standby_carrier self <> main_carrier self ->
  In (main_carrier self) (set_input_carriers b) ->
  In (standby_carrier self) (set_input_carriers b) ->
  construct_tech_model self b data = Ok b' ->
  forall rho t,
    feasible rho b' = true -> In t (set_t_performance (base self)) ->
    (rho (var_x t) == 0)%Q ->
    (standby_power (coeff_ti self) * capacity self rho == 0)%Q
    /\ (rho (input t (standby_carrier self)) == 0)%Q.
Proof.
  intros Hpft Hsp Hsb Hmain Hsbin H rho t Hf Ht Hx0.
  assert (E : Qeq_bool (standby_power (coeff_ti self)) (-1) = false).
  { destruct (Qeq_bool _ (-1)) eqn:E; [| reflexivity].
    now apply Qeq_bool_iff in E. }
  destruct (construct_keeps _ _ _ _ H) as (b1 & H1 & _ & Hdis & _).
  assert (Hgoal :
            (rho (input t (standby_carrier self))
             == standby_power (coeff_ti self) * rho var_size
                * rated_power (base self))%Q
            /\ (rho (input t (standby_carrier self)) == 0)%Q).
  { unfold performance_function in H1. simpl in Hpft.
    destruct Hpft as [Ep | [Ep | []]]; rewrite <- Ep in H1; simpl in H1.
    - destruct (type_2_spec _ _ _ H1) as (a1 & a2 & ds & He & Hb).
      destruct (build_disjunction_in _ _ _ _ _ _ Hb t Ht) as (d & Hd & Et).
      assert (Hin : In d (disjunctions b')).
      { apply Hdis. apply (extends_in_disjunctions _ He). now right. }
      destruct (feasible_disjunction _ _ _ Hf Hin) as (dj & Hdj & Hsat).
      destruct (build_disjunction_inv _ _ _ _ _ _ Hb d dj Hd Hdj)
        as (_ & ind & _ & Hr & _).
      rewrite Et in Hr. unfold sat_disjunct in Hsat.
      destruct (Z.eq_dec ind 0) as [-> | Hne].
      + rewrite <- (declare_var_x_inputs self) in Hmain, Hsbin.
        destruct (T2_off_standby _ _ _ _ _ _ rho Hr E Hmain Hsat) as [Hs Ho].
        split; [exact Hs | now apply Ho].
      + exfalso. assert (Hx1 := sat_eq Hsat (T2_on_pins _ _ _ _ _ _ _ Hne Hr)).
        simpl in Hx1. rewrite Hx0 in Hx1. discriminate.
    - destruct (type_3_spec _ _ _ H1) as (bp & a1 & a2 & n & ds & He & _ & Hb).
      destruct (build_disjunction_in _ _ _ _ _ _ Hb t Ht) as (d & Hd & Et).
      assert (Hin : In d (disjunctions b')).
      { apply Hdis. apply (extends_in_disjunctions _ He). now right. }
      destruct (feasible_disjunction _ _ _ Hf Hin) as (dj & Hdj & Hsat).
      destruct (build_disjunction_inv _ _ _ _ _ _ Hb d dj Hd Hdj)
        as (_ & ind & _ & Hr & _).
      rewrite Et in Hr. unfold sat_disjunct in Hsat.
      destruct (Z.eq_dec ind 0) as [-> | Hne].
      + rewrite <- (declare_var_x_inputs self) in Hmain, Hsbin.
        destruct (T3_off_standby _ _ _ _ _ _ _ rho Hr E Hmain Hsat) as [Hs Ho].
        split; [exact Hs | now apply Ho].
      + exfalso.
        assert (Hx1 := sat_eq Hsat (T3_on_pins _ _ _ _ _ _ _ _ Hne Hr)).
        simpl in Hx1. rewrite Hx0 in Hx1. discriminate. }
  destruct Hgoal as [Hs H0]. split; [| exact H0].
  unfold capacity. rewrite Qmult_assoc, <- Hs. exact H0.
Qed.

Lemma standby_on_other_carrier_witness :
  ((1 # 10) * capacity ex_type2_standby_electricity zero_valuation == 0)%Q.
Proof.
  assert (Hc : construct_tech_model ex_type2_standby_electricity ex_block ex_data
               = Ok (built ex_type2_standby_electricity ex_block ex_data))
    by (vm_compute; reflexivity).
  assert (Hf : feasible zero_valuation
                 (built ex_type2_standby_electricity ex_block ex_data) = true)
    by (vm_compute; reflexivity).
  refine (proj1 (standby_on_other_carrier ex_type2_standby_electricity ex_block
                   ex_data _ _ _ _ _ _ Hc zero_valuation 1 Hf _ _)).
  - simpl. auto.
  - intros E. vm_compute in E. discriminate.
  - discriminate.
  - simpl. auto.
  - simpl. auto.
  - simpl. auto.
  - reflexivity.
Defined.

(** ** When the construction returns *)

Lemma collect_total_from (f : fit_dict) (key : string) :
  (forall entry, In entry f -> exists v, py_get (snd entry) key = Ok v) ->
  forall acc : list (carrier * coeff),
  exists d,
    fold_left (fun acc entry =>
                 d <- acc ;;
                 v <- py_get (snd entry) key ;;
                 Ok (py_set d (fst entry) v))
              f (Ok acc) = Ok d.
Proof.
  unfold fit_dict, carrier.
  induction f as [| e f IH]; intros H acc; [simpl; eauto |].
  destruct (H e (or_introl eq_refl)) as (v & Hv).
  cbn [fold_left bind]. rewrite Hv. cbn [bind].
  apply IH. intros entry Hin. apply H. now right.
Qed.

Lemma collect_total (f : fit_dict) (key : string) :
  (forall entry, In entry f -> exists v, py_get (snd entry) key = Ok v) ->
  exists d, collect f key = Ok d.
Proof. intros H. apply (collect_total_from f key H []). Qed.

Lemma py_get_found {A : Type} (d : list (string * A)) (k : string) :
  In k (map fst d) -> exists a, py_get d k = Ok a /\ In (k, a) d.
Proof.
  induction d as [| [k' a'] d IH]; simpl; [intros [] |].
  destruct (String.eqb k k') eqn:E.
  - apply String.eqb_eq in E. subst. intros _. exists a'. auto.
  - intros [<- | Hin]; [now rewrite String.eqb_refl in E |].
    destruct (IH Hin) as (a & Ha & Hi). exists a. auto.
Qed.

Lemma build_disjunction_total dn jn rule set_t s_indicators :
  (forall t ind, In t set_t -> In ind s_indicators ->
                 exists cs, rule t ind = Ok cs) ->
  exists ds, build_disjunction dn jn rule set_t s_indicators = Ok ds.
Proof.
  intros H. unfold build_disjunction. apply mapM_total. intros t Ht.
  destruct (mapM_total
              (fun ind => cs <- rule t ind ;; Ok (mkDisjunct dn t ind cs))
              s_indicators) as (djs & ->).
  { intros ind Hind. destruct (H t ind Ht Hind) as (cs & ->). simpl. eauto. }
  simpl. eauto.
Qed.

(** A well-formed fit gives every output carrier its scalars. *)
Lemma linear_fit_scalar (pft : Z) (f : fit_dict) (b : Block) (key : string)
    (d : list (carrier * coeff)) (car : carrier) :
  linear_fit_for pft f b ->
  key = "alpha1" \/ (key = "alpha2" /\ pft = 2) ->
  collect f key = Ok d ->
  In car (set_output_carriers b) ->
  exists c, py_get d car = Ok (Scalar c).
Proof.
  intros (Hd & Hentries & Hout) Hkey Hc Hcar.
  rewrite (collect_lookup _ _ _ car Hd Hc). unfold fit_coefficient.
  destruct (py_get_found f car (Hout car Hcar)) as (e & -> & Hin). simpl.
  destruct (Hentries (car, e) Hin) as [H1 H2].
  destruct Hkey as [-> | [-> Ep]]; [exact H1 | exact (H2 Ep)].
Qed.

Lemma type_1_returns (self : Conv3) (b : Block) (f : fit_dict) :
  fit (coeff_ti self) = Some f ->
  linear_fit_for 1 f b ->
  exists b1, _performance_function_type_1 self b = Ok b1.
Proof.
  intros Hfit Hwf. unfold _performance_function_type_1.
  rewrite (get_fit_Some _ _ Hfit). simpl.
  destruct (collect_total f "alpha1") as (a1 & Ha1).
  { intros e He. destruct (proj1 (proj2 Hwf) e He) as [(c & Hc) _]. eauto. }
  rewrite Ha1. simpl.
  destruct (build_constraint_total (cn := "const_input_output")
              (mk := fun i : Z * carrier => AtTCar (fst i) (snd i))
              (rule := T1.init_input_output self a1)
              (cross (set_t_performance (base self)) (set_output_carriers b)))
    as (c_io & ->).
  { intros [t car] Hin. unfold T1.init_input_output.
    assert (Hcar : In car (set_output_carriers b)).
    { unfold cross in Hin. apply in_flat_map in Hin as (t' & _ & Hin).
      apply in_map_iff in Hin as (car' & [= _ <-] & Hc). exact Hc. }
    destruct (linear_fit_scalar 1 f b "alpha1" a1 car Hwf (or_introl eq_refl)
                Ha1 Hcar) as (c & ->).
    simpl. eauto. }
  simpl. destruct (negb _); [| eauto].
  destruct (build_constraint_total (cn := "const_min_part_load") (mk := AtT)
              (rule := T1.init_min_part_load self)
              (set_t_performance (base self))) as (c_mpl & ->).
  { intros t _. unfold T1.init_min_part_load. eauto. }
  simpl. eauto.
Qed.

Lemma type_2_returns (self : Conv3) (b : Block) (f : fit_dict) :
  fit (coeff_ti self) = Some f ->
  linear_fit_for 2 f b ->
  exists b1, _performance_function_type_2 self b = Ok b1.
Proof.
  intros Hfit Hwf. unfold _performance_function_type_2.
  rewrite (get_fit_Some _ _ Hfit). simpl.
  destruct (collect_total f "alpha1") as (a1 & Ha1).
  { intros e He. destruct (proj1 (proj2 Hwf) e He) as [(c & Hc) _]. eauto. }
  destruct (collect_total f "alpha2") as (a2 & Ha2).
  { intros e He. destruct (proj1 (proj2 Hwf) e He) as [_ H2].
    destruct (H2 eq_refl) as (c & Hc). eauto. }
  rewrite (proj2 (collect_alpha_Ok f a1 a2) (conj Ha1 Ha2)). simpl.
  destruct (build_disjunction_total "dis_input_output"
              "disjunction_input_output"
              (T2.init_input_output self (declare_var_x self b) a1 a2)
              (set_t_performance (base self)) (range 0 2)) as (ds & ->);
    [| simpl; eauto].
  intros t ind _ _. unfold T2.init_input_output.
  destruct (ind =? 0).
  - destruct (Qeq_bool (standby_power (coeff_ti self)) (-1)).
    + destruct (build_constraint_total (cn := "const_input") (mk := AtCar)
                  (rule := T2.init_input_off t)
                  (set_input_carriers (declare_var_x self b))) as (c & ->).
      { intros car _. unfold T2.init_input_off. eauto. }
      simpl.
      destruct (build_constraint_total (cn := "const_output_off") (mk := AtCar)
                  (rule := T2.init_output_off t)
                  (set_output_carriers (declare_var_x self b))) as (c' & ->).
      { intros car _. unfold T2.init_output_off. eauto. }
      simpl. eauto.
    + destruct (build_constraint_total (cn := "const_input") (mk := AtCar)
                  (rule := T2.init_standby_power self t)
                  (set_input_carriers (declare_var_x self b))) as (c & ->).
      { intros car _. unfold T2.init_standby_power.
        destruct (String.eqb car (main_carrier self)); eauto. }
      simpl.
      destruct (build_constraint_total (cn := "const_output_off") (mk := AtCar)
                  (rule := T2.init_output_off t)
                  (set_output_carriers (declare_var_x self b))) as (c' & ->).
      { intros car _. unfold T2.init_output_off. eauto. }
      simpl. eauto.
  - destruct (build_constraint_total (cn := "const_input_output_on")
                (mk := AtCar) (rule := T2.init_input_output_on self a1 a2 t)
                (set_output_carriers (declare_var_x self b))) as (c & ->).
    { intros car Hcar. rewrite declare_var_x_outputs in Hcar.
      unfold T2.init_input_output_on.
      destruct (linear_fit_scalar 2 f b "alpha1" a1 car Hwf (or_introl eq_refl)
                  Ha1 Hcar) as (c1 & ->).
      destruct (linear_fit_scalar 2 f b "alpha2" a2 car Hwf
                  (or_intror (conj eq_refl eq_refl)) Ha2 Hcar) as (c2 & ->).
      simpl. eauto. }
    simpl. eauto.
Qed.

Lemma find_component_incl (b b' : Block) (n : string) :
  incl (variables b) (variables b') ->
  find_component b n = true -> find_component b' n = true.
Proof.
  unfold find_component. rewrite !existsb_exists.
  intros Hi (v & Hv & E). exists v. split; [now apply Hi | exact E].
Qed.

Lemma declare_var_x_found (self : Conv3) (b : Block) :
  find_component (declare_var_x self b) "var_x" = true.
Proof.
  unfold declare_var_x. destruct (find_component b "var_x") eqn:E;
    [exact E |].
  unfold find_component, add_variable. simpl. rewrite existsb_app. simpl.
  apply orb_true_r.
Qed.

(** The performance function of type 2 leaves [var_x] on the block. *)
Lemma type_2_declares (self : Conv3) (b b1 : Block) :
  _performance_function_type_2 self b = Ok b1 ->
  find_component b1 "var_x" = true.
Proof.
  unfold _performance_function_type_2. intros H.
  bind_as H f Hf. bind_as H alpha Ha. bind_as H ds Hds. injection H as <-.
  apply (declare_var_x_found self b).
Qed.

Lemma input_ratio_returns (self : Conv3) (b1 : Block) (p : list (carrier * Q)) :
  phi (coeff_ti self) = Some p ->
  (forall car, In car (set_input_carriers b1) -> In car (map fst p)) ->
  (standby_power (coeff_ti self) == -1)%Q
  \/ find_component b1 "var_x" = true ->
  exists b2, input_ratio_constraints self b1 = Ok b2.
Proof.
  intros Hphi Hall Hx. unfold input_ratio_constraints, get_phi. rewrite Hphi.
  simpl. destruct (Qeq_bool (standby_power (coeff_ti self)) (-1)) eqn:Esp.
  - destruct (build_constraint_total (cn := "const_input_input")
                (mk := fun i : Z * carrier => AtTCar (fst i) (snd i))
                (rule := CTM.init_input_input self p)
                (cross (set_t_performance (base self)) (set_input_carriers b1)))
      as (c & ->); [| simpl; eauto].
    intros [t car] Hin. unfold CTM.init_input_input.
    destruct (String.eqb car (main_carrier self)); [eauto |].
    assert (Hcar : In car (set_input_carriers b1)).
    { unfold cross in Hin. apply in_flat_map in Hin as (t' & _ & Hin).
      apply in_map_iff in Hin as (car' & [= _ <-] & Hc). exact Hc. }
    destruct (py_get_found p car (Hall car Hcar)) as (a & -> & _).
    simpl. eauto.
  - destruct (build_disjunction_total "dis_input_input"
                "disjunction_input_input"
                (CTM.init_input_input_dis self b1 p)
                (set_t_performance (base self)) (range 0 2)) as (ds & ->);
      [| simpl; eauto].
    destruct Hx as [Hx | Hx];
      [apply Qeq_bool_iff in Hx; rewrite Hx in Esp; discriminate |].
    intros t ind _ _. unfold CTM.init_input_input_dis.
    rewrite (attribute_declared _ _ Hx). cbn [bind]. destruct (ind =? 0).
    + destruct (build_constraint_total (cn := "const_input_off") (mk := AtCar)
                  (rule := CTM.init_input_off self t)
                  (set_input_carriers b1)) as (c & ->); [| simpl; eauto].
      intros car _. unfold CTM.init_input_off.
      destruct (String.eqb car (standby_carrier self)); eauto.
    + destruct (build_constraint_total (cn := "const_input_on") (mk := AtCar)
                  (rule := CTM.init_input_on self p t)
                  (set_input_carriers b1)) as (c & ->); [| simpl; eauto].
      intros car Hcar. unfold CTM.init_input_on.
      destruct (String.eqb car (standby_carrier self)); [eauto |].
      destruct (py_get_found p car (Hall car Hcar)) as (a & -> & _).
      simpl. eauto.
Qed.

Lemma ramping_rate_of_returns (dyn : Dynamics) (rt : Q) :
  ~ (rt == 0)%Q -> exists e, ramping_rate_of dyn rt = Ok e.
Proof.
  intros H0. unfold ramping_rate_of.
  destruct (Qeq_bool rt 0) eqn:E; [now apply Qeq_bool_iff in E |].
  destruct (ref_size dyn) as [r |]; [destruct (Qeq_bool r (-1)) |]; eauto.
Qed.

(** The ramping step coupled to [var_x] does not raise, unless it divides
    by zero. *)
Lemma define_ramping_rates_coupled_total (self : Conv3) (b : Block)
    (data : Data) (rt : Q) :
  ramping_time (dynamics (base self)) = Some rt ->
  ~ (rt == 0)%Q ->
  integer_coupled self = true ->
  find_component b "var_x" = true ->
  exists b', _define_ramping_rates self b data = Ok b'.
Proof.
  intros Hrt H0 Hic Hx. unfold _define_ramping_rates. rewrite Hrt. simpl.
  destruct (ramping_rate_of_returns (dynamics (base self)) rt H0) as (e & ->).
  simpl. rewrite Hic.
  destruct (build_disjunction_total "dis_ramping_operation_on"
              "disjunction_ramping_operation_on"
              (RR.init_ramping_operation_on self b e)
              (set_t_performance (base self)) (range 0 3)) as (ds & ->);
    [| simpl; eauto].
  intros t ind _ _. unfold RR.init_ramping_operation_on.
  destruct (t >? 1); [| eauto].
  rewrite (attribute_declared _ _ Hx). cbn [bind].
  destruct (ind =? 0); [| destruct (ind =? 1); eauto].
  simpl. eauto.
Qed.

(** X14: [construct_tech_model] raises none of the exceptions modelled here
    (a failed dict or list lookup, an unbound name, a missing [var_x], a list
    where a float is expected, a division by zero) for function types 1
    and 2 when: the technology is fitted with a well-formed fit (a scalar
    [alpha1], and for type 2 a scalar [alpha2], for every fitted carrier, and
    every output carrier fitted); every input carrier has a ratio in [phi];
    for type 1 with standby power, which makes the input ratios read [var_x]
    although type 1 does not declare it, the block has [var_x]; and ramping
    is either disabled or has a [ramping_time] other than 0 and is coupled to
    [var_x] or runs on the native time index. *)
Theorem construct_returns (self : Conv3) (b : Block) (data : Data)
    (f : fit_dict) (p : list (carrier * Q)) :
  In (performance_function_type (options self)) [1; 2] ->
  fit (coeff_ti self) = Some f ->
  linear_fit_for (performance_function_type (options self)) f b ->
  phi (coeff_ti self) = Some p ->
  (forall car, In car (set_input_carriers b) -> In car (map fst p)) ->
  (performance_function_type (options self) = 1 ->
   (standby_power (coeff_ti self) == -1)%Q
   \/ find_component b "var_x" = true) ->
  (ramping_enabled self = false
   \/ exists rt, ramping_time (dynamics (base self)) = Some rt
                 /\ ~ (rt == 0)%Q
                 /\ (integer_coupled self = true \/ typicaldays_N data = 0)) ->
  exists b', construct_tech_model self b data = Ok b'.
Proof.
  intros Hpft Hfit Hwf Hphi Hall Hx Hramp.
  assert (H1 : exists b1, performance_function self b = Ok b1
                          /\ ((standby_power (coeff_ti self) == -1)%Q
                              \/ find_component b1 "var_x" = true)
                          /\ (integer_coupled self = true ->
                              find_component b1 "var_x" = true)).
  { unfold performance_function, integer_coupled. simpl in Hpft.
    destruct Hpft as [E | [E | []]]; rewrite <- E in *; simpl.
    - destruct (type_1_returns self b f Hfit Hwf) as (b1 & H1).
      exists b1. split; [exact H1 |]. split; [| discriminate].
      destruct (Hx eq_refl) as [Hs | Hv]; [now left | right].
      destruct (type_1_spec _ _ _ H1) as (cs & He).
      apply (find_component_incl b b1 _ (ext_variables _ _ _ _ He) Hv).
    - destruct (type_2_returns self b f Hfit Hwf) as (b1 & H1).
      exists b1. split; [exact H1 |].
      split; [right |]; intros; now apply type_2_declares with self b. }
  destruct H1 as (b1 & H1 & Hx1 & Hxc).
  destruct (input_ratio_returns self b1 p Hphi) as (b2 & H2).
  { rewrite (performance_function_carriers _ _ _ H1). exact Hall. }
  { exact Hx1. }
  destruct (size_constraint_total self) as (c_size & H3).
  unfold construct_tech_model. rewrite H1. simpl. rewrite H2. simpl.
  rewrite H3. simpl. unfold ramping_enabled in Hramp.
  destruct (ramping_time (dynamics (base self))) as [rt |] eqn:Hrt; [| eauto].
  destruct (negb (Qeq_bool rt (-1))) eqn:En; [| eauto].
  destruct Hramp as [Hoff | (rt' & [= <-] & H0 & Hmode)]; [discriminate |].
  destruct (integer_coupled self) eqn:Hic.
  - apply define_ramping_rates_coupled_total with rt; try assumption.
    destruct (input_ratio_spec _ _ _ H2) as (? & ? & ? & _ & He2 & _).
    apply (find_component_incl b1 _ _ (ext_variables _ _ _ _ He2)).
    now apply Hxc.
  - destruct Hmode as [Hc | HN]; [discriminate |].
    now apply define_ramping_rates_total with rt.
Qed.

Lemma construct_returns_witness :
  exists b', construct_tech_model ex_type2_coupled ex_block ex_data = Ok b'.
Proof.
  apply (construct_returns ex_type2_coupled ex_block ex_data ex_fit_linear
                           ex_phi).
  - simpl. auto.
  - reflexivity.
  - split; [| split].
    + unfold is_dict. simpl. repeat constructor; simpl; intuition discriminate.
    + intros entry [<- | []]. simpl. split; [eauto | intros _; eauto].
    + intros car [<- | []]. simpl. auto.
  - reflexivity.
  - intros car Hcar. simpl in *. intuition.
  - discriminate.
  - right. exists (2 # 1)%Q. split; [reflexivity |].
    split; [intros E; vm_compute in E; discriminate | left; reflexivity].
Defined.

(** ** Input ratios where the standby carrier is the main input *)

(** X15: when no standby power is set, or the standby carrier is the main
    input carrier, every input carrier other than the main one has a ratio in
    [phi], and every solution of the block [construct_tech_model] returns
    keeps it: without standby power the input is the ratio times the main
    input at every step; with standby power it is so where [var_x = 1], and
    the input is 0 where [var_x = 0]. *)
Theorem input_ratios_hold (self : Conv3) (b : Block) (data : Data)
    (b' : Block) (t : Z) (car : carrier) :
  construct_tech_model self b data = Ok b' ->
  (standby_power (coeff_ti self) == -1)%Q
  \/ standby_carrier self = main_carrier self ->
  In t (set_t_performance (base self)) ->
  In car (set_input_carriers b) ->
  car <> main_carrier self ->
  exists phi p,
    get_phi self = Ok phi /\ py_get phi car = Ok p
    /\ forall rho,
        feasible rho b' = true ->
        ((standby_power (coeff_ti self) == -1)%Q ->
         (rho (input t car) == p * rho (input t (main_carrier self)))%Q)
        /\ (~ (standby_power (coeff_ti self) == -1)%Q ->
            ((rho (var_x t) == 1)%Q ->
             (rho (input t car) == p * rho (input t (main_carrier self)))%Q)
            /\ ((rho (var_x t) == 0)%Q -> (rho (input t car) == 0)%Q)).
Proof.
  intros H Hcase Ht Hcar Hne.
  destruct (Qeq_bool (standby_power (coeff_ti self)) (-1)) eqn:E.
  - apply Qeq_bool_iff in E.
    destruct (ratio_unconditional _ _ _ _ _ _ H E Ht Hcar Hne)
      as (phi & p & Hphi & Hp & _ & Hsol).
    exists phi, p. split; [assumption |]. split; [assumption |].
    intros rho Hf. split; [intros _; now apply Hsol |].
    intros Hn. now destruct Hn.
  - apply Qeq_bool_neq in E. destruct Hcase as [Hc | Hsb]; [now destruct E |].
    destruct (ratio_in_disjunction _ _ _ _ _ _ H E Hsb Ht Hcar Hne)
      as (phi & p & Hphi & Hp & Hsol).
    exists phi, p. split; [assumption |]. split; [assumption |].
    intros rho Hf. split; [intros Hc; now destruct E |].
    intros _. now apply Hsol.
Qed.

Lemma input_ratios_hold_witness :
  (ramping_valuation (input 1 "water")
   == (3 # 1) * ramping_valuation (input 1 "gas"))%Q.
Proof.
  assert (Hc : construct_tech_model ex_type1_ramping ex_block ex_data
               = Ok (built ex_type1_ramping ex_block ex_data))
    by (vm_compute; reflexivity).
  assert (Hsp : (standby_power (coeff_ti ex_type1_ramping) == -1)%Q)
    by reflexivity.
  assert (Ht : In 1 (set_t_performance (base ex_type1_ramping)))
    by (simpl; auto).
  assert (Hcar : In "water" (set_input_carriers ex_block)) by (simpl; auto).
  assert (Hne : "water" <> main_carrier ex_type1_ramping) by discriminate.
  destruct (input_ratios_hold ex_type1_ramping ex_block ex_data _ 1 "water"
              Hc (or_introl Hsp) Ht Hcar Hne)
    as (phi & p & Hphi & Hp & Hsol).
  injection Hphi as <-. injection Hp as <-.
  destruct (Hsol ramping_valuation) as [Hratio _]; [vm_compute; reflexivity |].
  exact (Hratio Hsp).
Defined.

(** ** Bounds *)

Section calculate_bounds_facts.
Variables (self : Conv3) (input_carrier : list carrier).

(** The loop keeps the bounds of the main carrier and of every carrier it
    does not list, and gives every other listed carrier the bounds of the
    main carrier times its ratio. *)
Lemma recalculate_input_bounds_spec (b0 b1 : list (carrier * bounds_array)) :
  recalculate_input_bounds self b0 input_carrier = Ok b1 ->
  py_get b1 (main_carrier self) = py_get b0 (main_carrier self)
  /\ (forall car, ~ In car input_carrier -> py_get b1 car = py_get b0 car)
  /\ forall car, In car input_carrier -> car <> main_carrier self ->
       exists m r,
         py_get b0 (main_carrier self) = Ok m
         /\ py_get (input_ratios (base self)) car = Ok r
         /\ py_get b1 car = Ok (scale_bounds m r).
Proof.
  unfold recalculate_input_bounds. revert b0.
  induction input_carrier as [| c l IH]; intros b0 H.
  - simpl in H. injection H as <-. split; [reflexivity |].
    split; [reflexivity | intros car []].
  - cbn [fold_left bind] in H.
    destruct (String.eqb c (main_carrier self)) eqn:Ec; cbn [negb] in H.
    + apply String.eqb_eq in Ec. subst c.
      destruct (IH b0 H) as (Hm & Hk & Hs). split; [exact Hm |]. split.
      * intros car Hn. apply Hk. intros Hin. apply Hn. now right.
      * intros car [<- | Hin] Hne; [now destruct Hne | now apply Hs].
    + destruct (py_get b0 (main_carrier self)) as [m |] eqn:Em;
        [| exfalso; cbn [bind] in H; clear - H;
           induction l as [| x l IHl]; simpl in H;
           [discriminate | now apply IHl]].
      cbn [bind] in H.
      destruct (py_get (input_ratios (base self)) c) as [r |] eqn:Er;
        [| exfalso; cbn [bind] in H; clear - H;
           induction l as [| x l IHl]; simpl in H;
           [discriminate | now apply IHl]].
      cbn [bind] in H.
      assert (Hcm : c <> main_carrier self)
        by (intros ->; now rewrite String.eqb_refl in Ec).
      destruct (IH _ H) as (Hm & Hk & Hs).
      rewrite (py_get_py_set_other _ _ _ _ Hcm) in Hm.
      split; [now rewrite Hm |]. split.
      * intros car Hn. rewrite (Hk car) by (intros Hin; apply Hn; now right).
        apply py_get_py_set_other. intros ->. apply Hn. now left.
      * intros car Hin Hne.
        destruct (in_dec string_dec car l) as [Hl | Hl].
        { destruct (Hs car Hl Hne) as (m' & r' & Hm' & Hr' & Hv).
          rewrite (py_get_py_set_other _ _ _ _ Hcm), Em in Hm'.
          injection Hm' as <-. eauto. }
        destruct Hin as [<- | Hin]; [| now destruct Hl].
        exists m, r. split; [reflexivity |]. split; [assumption |].
        rewrite (Hk c Hl). apply py_get_py_set_same.
Qed.
End calculate_bounds_facts.

(** X16: when [_calculate_bounds] returns, the output bounds and the input
    bounds of the main carrier are those the fitting class computed for the
    number of steps of the performance time set, every other carrier of
    [input_carrier] has the input bounds of the main carrier times its input
    ratio, row by row, and a carrier that is not listed keeps its fitted
    bounds. *)
Theorem calculate_bounds_scales
    (calculate_input_bounds calculate_output_bounds :
       FittingClass -> string -> Z -> result (list (carrier * bounds_array)))
    (self : Conv3) (input_carrier : list carrier)
    (bounds_input bounds_output : list (carrier * bounds_array)) :
  _calculate_bounds calculate_input_bounds calculate_output_bounds self
                    input_carrier
  = Ok (bounds_input, bounds_output) ->
  exists fitted,
    calculate_input_bounds (fitting_class self) (size_based_on (options self))
                           (len (set_t_performance (base self))) = Ok fitted
    /\ calculate_output_bounds (fitting_class self)
         (size_based_on (options self)) (len (set_t_performance (base self)))
       = Ok bounds_output
    /\ py_get bounds_input (main_carrier self)
       = py_get fitted (main_carrier self)
    /\ (forall car, ~ In car input_carrier ->
                    py_get bounds_input car = py_get fitted car)
    /\ forall car, In car input_carrier -> car <> main_carrier self ->
         exists m r,
           py_get fitted (main_carrier self) = Ok m
           /\ py_get (input_ratios (base self)) car = Ok r
           /\ py_get bounds_input car = Ok (scale_bounds m r).
Proof.
  unfold _calculate_bounds. intros H.
  bind_as H fitted Hin. bind_as H bo Hout. bind_as H bi Hloop.
  injection H as <- <-. exists fitted. split; [assumption |].
  split; [assumption |].
  apply (recalculate_input_bounds_spec _ _ _ _ Hloop).
Qed.

Lemma calculate_bounds_scales_witness :
  exists bounds_input bounds_output,
    _calculate_bounds (fun _ _ _ => Ok ex_input_bounds)
                      (fun _ _ _ => Ok []) ex_type2
                      ["gas"; "electricity"; "water"]
    = Ok (bounds_input, bounds_output)
    /\ py_get bounds_input "water"
       = Ok (scale_bounds [(0 # 1, 1 # 1); (0 # 1, 1 # 1)]%Q (3 # 1)).
Proof.
  destruct (_calculate_bounds (fun _ _ _ => Ok ex_input_bounds)
              (fun _ _ _ => Ok []) ex_type2 ["gas"; "electricity"; "water"])
    as [[bi bo] |] eqn:E; [| vm_compute in E; discriminate].
  exists bi, bo. split; [reflexivity |].
  destruct (calculate_bounds_scales _ _ _ _ _ _ E)
    as (fitted & Hf & _ & _ & _ & Hs).
  injection Hf as <-.
  destruct (Hs "water") as (m & r & Hm & Hr & Hv);
    [simpl; auto | discriminate |].
  injection Hm as <-. injection Hr as <-. exact Hv.
Defined.

(** ** A block without [var_x] *)

Lemma type_1_variables (self : Conv3) (b b1 : Block) :
  _performance_function_type_1 self b = Ok b1 -> variables b1 = variables b.
Proof.
  unfold _performance_function_type_1. intros H.
  bind_as H f Hf. bind_as H a1 Ha1. bind_as H c Hc.
  destruct (negb _); [bind_as H c' Hc' |]; now injection H as <-.
Qed.

Lemma range_from_zero (m : Z) : 0 < m -> exists rest, range 0 m = 0 :: rest.
Proof.
  intros H. unfold range.
  destruct (Z.to_nat (m - 0)) as [| k] eqn:E; [lia |].
  simpl. eexists. reflexivity.
Qed.

(** The first disjunct a rule is asked for decides whether the disjunction
    is built at all. *)
Lemma build_disjunction_first_fails dn jn rule (t : Z) (set_t : list Z)
    (m : Z) (e : exn) :
  0 < m -> rule t 0 = Err e ->
  build_disjunction dn jn rule (t :: set_t) (range 0 m) = Err e.
Proof.
  intros Hm Hr. unfold build_disjunction.
  destruct (range_from_zero m Hm) as (rest & ->). simpl. now rewrite Hr.
Qed.

(** X18: the class reads [var_x] in places where it did not declare it.
    With function type 1 and standby power set, the input ratios are built as
    a disjunction on [var_x]: on a block without [var_x], once the
    performance function went through and [phi] is there,
    [construct_tech_model] raises [AttributeError] (unless there is no time
    step).  The performance function of type 4 declares no [var_x] either:
    on a block without it, with the fit and the times in order and at least
    one indicator and one time step, it raises [AttributeError]. *)
Theorem missing_var_x (self : Conv3) (b : Block) (data : Data) :
  find_component b "var_x" = false ->
  (forall b1 p,
      performance_function_type (options self) = 1 ->
      performance_function self b = Ok b1 ->
      phi (coeff_ti self) = Some p ->
      ~ (standby_power (coeff_ti self) == -1)%Q ->
      set_t_performance (base self) <> [] ->
      construct_tech_model self b data = Err (AttributeError "var_x"))
  /\ (forall f bp_x a1 a2 su sd n,
         get_fit self = Ok f ->
         collect_piecewise f = Ok (Some bp_x, (a1, a2)) ->
         startup_shutdown_times self = Some (su, sd) ->
         coeff_len bp_x = Ok n ->
         0 < su + sd + n ->
         set_t_full (base self) <> [] ->
         _performance_function_type_4 self b = Err (AttributeError "var_x")).
Proof.
  intros Hx. split.
  - intros b1 p Epft H1 Hphi Hsp Hset.
    assert (Hx1 : find_component b1 "var_x" = false).
    { unfold performance_function in H1. rewrite Epft in H1. simpl in H1.
      unfold find_component. rewrite (type_1_variables _ _ _ H1). exact Hx. }
    unfold construct_tech_model. rewrite H1. cbn [bind].
    unfold input_ratio_constraints, get_phi. rewrite Hphi. cbn [bind].
    destruct (Qeq_bool (standby_power (coeff_ti self)) (-1)) eqn:E;
      [now apply Qeq_bool_iff in E |].
    destruct (set_t_performance (base self)) as [| t set_t];
      [now destruct Hset |].
    rewrite (build_disjunction_first_fails _ _ _ t set_t 2
               (AttributeError "var_x")); [reflexivity | lia |].
    unfold CTM.init_input_input_dis, attribute. simpl. now rewrite Hx1.
  - intros f bp a1 a2 su sd n Hf Hc Ht Hn Hpos Hset.
    unfold _performance_function_type_4. rewrite Hf. cbn [bind].
    rewrite Hc. cbn [bind fst snd].
    unfold startup_shutdown_times in Ht.
    destruct (SU_time (dynamics (base self))) as [su0 |]; [| discriminate].
    destruct (SD_time (dynamics (base self))) as [sd0 |]; [| discriminate].
    injection Ht as Ht. cbn [get_key bind]. rewrite Ht.
    cbn [bound_name bind]. rewrite Hn. cbn [bind].
    destruct (set_t_full (base self)) as [| t set_t]; [now destruct Hset |].
    rewrite (build_disjunction_first_fails _ _ _ t set_t (su + sd + n)
               (AttributeError "var_x")); [reflexivity | exact Hpos |].
    unfold T4.init_SUSD_trajectories, attribute. simpl. now rewrite Hx.
Qed.

Lemma missing_var_x_witness :
  construct_tech_model ex_type1_standby ex_block ex_data
  = Err (AttributeError "var_x")
  /\ _performance_function_type_4 ex_type4_standby ex_block
     = Err (AttributeError "var_x").
Proof.
  destruct (missing_var_x ex_type1_standby ex_block ex_data eq_refl)
    as [H1 _].
  destruct (missing_var_x ex_type4_standby ex_block ex_data eq_refl)
    as [_ H4].
  split.
  - assert (E : performance_function ex_type1_standby ex_block
                = Ok (performance_block ex_type1_standby ex_block))
      by (vm_compute; reflexivity).
    apply (H1 _ ex_phi eq_refl E eq_refl).
    + intros N. vm_compute in N. discriminate.
    + discriminate.
  - apply (H4 ex_fit_piecewise
              (Sequence [0 # 1; 1 # 2; 1 # 1])
              [("heat", Sequence [9 # 10; 8 # 10])]
              [("heat", Sequence [0 # 1; 1 # 20])] 2 1 3);
      try reflexivity.
    discriminate.
Defined.
